(** * Norigin spatial navigation: the focus tree, directional ranking,
      leaf resolution and focus commit, embedded from the TypeScript sources

    Sources embedded here:
    - [helpers.ts]: the directional ranking ([getRefCorners],
      [getIsAdjacentSlice], [getPrimaryAxisDistance],
      [getSecondaryAxisDistance], [sortSiblingsByPriority]), [smartNavigate]
      and [getChildClosestToOrigin];
    - the service class [SpatialNavigationServiceClass] that implements the
      [SpatialNavigationService] interface of [types.ts] ([addFocusable],
      [updateFocusable], [removeFocusable], [getNextFocusKey],
      [setCurrentFocusedKey], [setFocus], [updateLayout], ...).

    Conventions of the embedding.
    - A JavaScript [number] holding a pixel measurement is an integer [Z];
      the priority, which the source obtains by a division, is a rational [Q].
      On integer measurements below 2^50 the double arithmetic of the source
      is exact for every comparison made here, the product with 0.2 included.
    - The object [focusableComponents] is a list of components in the
      enumeration order of its keys (the order of first insertion, for keys
      that are not array indices); each component is stored under its own
      [focusKey], as [addFocusable] does.  Components are mutable objects
      shared by reference in the source; here every mutation goes through
      the store and every read re-reads it.
    - Callbacks handed in by the UI binding are opaque: invoking one appends
      an event to [callbacks].  Queries of the layout provider are logged in
      [measured].  Both logs are newest first.
    - Recursion and [while] loops of the source that have no syntactic bound
      take a fuel argument; [None] means the fuel ran out. *)

From Stdlib Require Import ZArith QArith Qminmax List String Bool Lia
  Permutation Sorted.
Import ListNotations.

Local Open Scope Z_scope.
Local Open Scope string_scope.

(** ** Constants ([constants.ts]) *)

Definition DIRECTION_LEFT : string := "left".
Definition DIRECTION_RIGHT : string := "right".
Definition DIRECTION_UP : string := "up".
Definition DIRECTION_DOWN : string := "down".

Definition ADJACENT_SLICE_THRESHOLD : Q := 2 # 10.
Definition ADJACENT_SLICE_WEIGHT : Z := 5.
Definition DIAGONAL_SLICE_WEIGHT : Z := 1.
Definition MAIN_COORDINATE_WEIGHT : Z := 5.

(** The four directions of the specification, and their names in the code. *)
Inductive Direction : Type := Up | Down | Left | Right.

Definition directionName (d : Direction) : string :=
  match d with
  | Up => DIRECTION_UP
  | Down => DIRECTION_DOWN
  | Left => DIRECTION_LEFT
  | Right => DIRECTION_RIGHT
  end.

(** ** Data model ([types.ts]) *)

(** The DOM element behind a node: an opaque handle, together with the
    box the layout provider reports for it.  A node is never [null]:
    [addFocusable] dereferences it. *)
Record DOMRect : Type := mkRect {
  rect_left : Z; rect_top : Z; rect_width : Z; rect_height : Z;
  rect_x : Z; rect_y : Z
}.

Record HTMLElement : Type := mkElement {
  elementId : nat;
  offsetRect : DOMRect
}.

(** Modelled from the spec: the layout provider [measureLayout], imported
    from [./measureLayout], is not part of the sources.  The specification
    gives it as a synchronous query, measure(nodeHandle), that yields the
    node's left, top, width and height (the layout record keeps an x and a y
    as well). *)
Definition measureLayout (node : HTMLElement) : DOMRect := offsetRect node.

Record FocusableComponentLayout : Type := mkLayout {
  left : Z;
  top : Z;
  width : Z;
  height : Z;
  layout_x : Z;
  layout_y : Z;
  layout_node : HTMLElement
}.

Record CornerCoordinates : Type := mkCorner { x : Z; y : Z }.

Record Corners : Type := mkCorners { a : CornerCoordinates; b : CornerCoordinates }.

(** A callback supplied by the UI binding: an opaque handle. *)
Definition Callback : Type := nat.

Record FocusableComponent : Type := mkComponent {
  focusKey : string;
  node : HTMLElement;
  parentFocusKey : string;
  onEnterPress : Callback;
  onEnterRelease : Callback;
  onArrowPress : Callback;
  onFocus : Callback;
  onBlur : Callback;
  onNavigate : Callback;
  onUpdateFocus : Callback;
  onUpdateHasFocusedChild : Callback;
  saveLastFocusedChild : bool;
  trackChildren : bool;
  preferredChildFocusKey : option string;
  focusable : bool;
  isFocusBoundary : bool;
  pointerSupport : bool;
  autoRestoreFocus : bool;
  lastFocusedChildKey : option string;
  layout : FocusableComponentLayout;
  layoutUpdated : bool
}.

Record FocusableComponentUpdatePayload : Type := mkUpdatePayload {
  upd_node : option HTMLElement;
  upd_preferredChildFocusKey : option string;
  upd_focusable : bool;
  upd_pointerSupport : bool;
  upd_isFocusBoundary : bool;
  upd_onEnterPress : Callback;
  upd_onEnterRelease : Callback;
  upd_onArrowPress : Callback;
  upd_onFocus : Callback;
  upd_onBlur : Callback;
  upd_onNavigate : Callback
}.

(** An invocation of one of a component's callbacks, named by the
    component's focus key and the callback slot. *)
Inductive Event : Type :=
| EvUpdateFocus (key : string) (focused : bool)
| EvBlur (key : string) (l : option FocusableComponentLayout)
| EvFocus (key : string) (l : option FocusableComponentLayout)
| EvUpdateHasFocusedChild (key : string) (hasFocusedChild : bool).

(** The fields of the service instance that the engine logic reads and
    writes.  [currentFocusKey] is [this.focusKey] ([None] is [null]). *)
Record State : Type := mkState {
  focusableComponents : list FocusableComponent;
  currentFocusKey : option string;
  parentsHavingFocusedChild : list string;
  enabled : bool;
  callbacks : list Event;
  measured : list HTMLElement
}.

(** ** Directional ranking ([helpers.ts]) *)

Definition isVertical (direction : string) : bool :=
  (direction =? DIRECTION_DOWN) || (direction =? DIRECTION_UP).

Definition getPrimaryAxisDistance
    (refCorners siblingCorners : Corners) (isVerticalDirection : bool) : Z :=
  let coordinate := if isVerticalDirection then y else x in
  Z.abs (coordinate (a siblingCorners) - coordinate (a refCorners)).

Definition getSecondaryAxisDistance
    (refCorners siblingCorners : Corners) (isVerticalDirection : bool) : Z :=
  let coordinate := if isVerticalDirection then x else y in
  let refCoordinateA := coordinate (a refCorners) in
  let refCoordinateB := coordinate (b refCorners) in
  let siblingCoordinateA := coordinate (a siblingCorners) in
  let siblingCoordinateB := coordinate (b siblingCorners) in
  Z.min (Z.abs (siblingCoordinateA - refCoordinateA))
    (Z.min (Z.abs (siblingCoordinateA - refCoordinateB))
       (Z.min (Z.abs (siblingCoordinateB - refCoordinateA))
          (Z.abs (siblingCoordinateB - refCoordinateB)))).

Definition getRefCorners
    (direction : string) (isSibling : bool) (layout : FocusableComponentLayout)
    : Corners :=
  let itemX := left layout in
  let itemY := top layout in
  let itemWidth := width layout in
  let itemHeight := height layout in
  if direction =? DIRECTION_UP then
    let y := if isSibling then itemY + itemHeight else itemY in
    mkCorners (mkCorner itemX y) (mkCorner (itemX + itemWidth) y)
  else if direction =? DIRECTION_DOWN then
    let y := if isSibling then itemY else itemY + itemHeight in
    mkCorners (mkCorner itemX y) (mkCorner (itemX + itemWidth) y)
  else if direction =? DIRECTION_LEFT then
    let x := if isSibling then itemX + itemWidth else itemX in
    mkCorners (mkCorner x itemY) (mkCorner x (itemY + itemHeight))
  else if direction =? DIRECTION_RIGHT then
    let x := if isSibling then itemX else itemX + itemWidth in
    mkCorners (mkCorner x itemY) (mkCorner x (itemY + itemHeight))
  else
    mkCorners (mkCorner 0 0) (mkCorner 0 0).

Definition getIsAdjacentSlice
    (refCorners siblingCorners : Corners) (isVerticalDirection : bool) : bool :=
  let coordinate := if isVerticalDirection then x else y in
  let refCoordinateA := coordinate (a refCorners) in
  let refCoordinateB := coordinate (b refCorners) in
  let siblingCoordinateA := coordinate (a siblingCorners) in
  let siblingCoordinateB := coordinate (b siblingCorners) in
  let thresholdDistance :=
    (inject_Z (refCoordinateB - refCoordinateA) * ADJACENT_SLICE_THRESHOLD)%Q in
  let intersectionLength :=
    Z.max 0
      (Z.min refCoordinateB siblingCoordinateB
       - Z.max refCoordinateA siblingCoordinateA) in
  Qle_bool thresholdDistance (inject_Z intersectionLength).

(** The key function that [sortSiblingsByPriority] hands to [sortBy]. *)
Definition priority
    (direction : string) (currentLayout siblingLayout : FocusableComponentLayout)
    : Q :=
  let isVerticalDirection := isVertical direction in
  let refCorners := getRefCorners direction false currentLayout in
  let siblingCorners := getRefCorners direction true siblingLayout in
  let isAdjacentSlice :=
    getIsAdjacentSlice refCorners siblingCorners isVerticalDirection in
  let primaryAxisFunction :=
    if isAdjacentSlice then getPrimaryAxisDistance else getSecondaryAxisDistance in
  let secondaryAxisFunction :=
    if isAdjacentSlice then getSecondaryAxisDistance else getPrimaryAxisDistance in
  let primaryAxisDistance :=
    primaryAxisFunction refCorners siblingCorners isVerticalDirection in
  let secondaryAxisDistance :=
    secondaryAxisFunction refCorners siblingCorners isVerticalDirection in
  let totalDistancePoints :=
    primaryAxisDistance * MAIN_COORDINATE_WEIGHT + secondaryAxisDistance in
  (inject_Z (totalDistancePoints + 1)
   / inject_Z (if isAdjacentSlice then ADJACENT_SLICE_WEIGHT
               else DIAGONAL_SLICE_WEIGHT))%Q.

(** lodash [sortBy]: a stable sort, ascending in the key.  lodash [first]. *)
Fixpoint insertBy {A : Type} (key : A -> Q) (e : A) (l : list A) : list A :=
  match l with
  | [] => [e]
  | h :: t => if Qle_bool (key e) (key h) then e :: h :: t
              else h :: insertBy key e t
  end.

Definition sortBy {A : Type} (l : list A) (key : A -> Q) : list A :=
  fold_right (insertBy key) [] l.

(** The order [sortBy] sorts in. *)
Definition keyLe {A : Type} (key : A -> Q) (e1 e2 : A) : Prop :=
  (key e1 <= key e2)%Q.

Definition first {A : Type} (l : list A) : option A :=
  match l with
  | [] => None
  | h :: _ => Some h
  end.


Definition sortSiblingsByPriority
    (siblings : list FocusableComponent)
    (currentLayout : FocusableComponentLayout) (direction : string)
    : list FocusableComponent :=
  sortBy siblings
    (fun sibling => priority direction currentLayout (layout sibling)).

(** [isNodeFocusable], the candidate filter local to [smartNavigate].  The
    source leaves [isValidDirectionally] undefined when the edge test fails;
    lodash [filter] treats that as false. *)
Definition isNodeFocusable (dir : string) (from to : FocusableComponent) : bool :=
  if negb (focusable to) then false
  else if focusKey from =? focusKey to then false
  else if negb (parentFocusKey from =? parentFocusKey to) then false
  else if dir =? DIRECTION_LEFT then
    let rightEdgeNext := left (layout to) + width (layout to) in
    let leftEdgeCurrent := left (layout from) in
    (leftEdgeCurrent >=? rightEdgeNext)%Z
  else if dir =? DIRECTION_RIGHT then
    let leftEdgeNext := left (layout to) in
    let rightEdgeCurrent := left (layout from) + width (layout from) in
    (rightEdgeCurrent <=? leftEdgeNext)%Z
  else if dir =? DIRECTION_DOWN then
    let topEdgeNext := top (layout to) in
    let bottomEdgeCurrent := top (layout from) + height (layout from) in
    (topEdgeNext >=? bottomEdgeCurrent)%Z
  else if dir =? DIRECTION_UP then
    let bottomEdgeNext := top (layout to) + height (layout to) in
    let topEdgeCurrent := top (layout from) in
    (topEdgeCurrent >=? bottomEdgeNext)%Z
  else false.

Definition getChildClosestToOrigin (children : list FocusableComponent)
    : option FocusableComponent :=
  let childrenClosestToOrigin :=
    sortBy children
      (fun c => inject_Z (Z.abs (left (layout c)) + Z.abs (top (layout c)))) in
  first childrenClosestToOrigin.

(** ** The component store *)

(** JavaScript coerces a property key to a string: [obj[null]] reads the
    property named "null". *)
Definition propertyKey (k : option string) : string :=
  match k with
  | Some s => s
  | None => "null"
  end.

(** Truthiness of a key that may be [null], [undefined] or a string. *)
Definition truthy (k : option string) : bool :=
  match k with
  | Some s => negb (s =? "")
  | None => false
  end.

(** [a === b] on keys that may be [null]. *)
Definition keyEq (k1 k2 : option string) : bool :=
  match k1, k2 with
  | Some s1, Some s2 => s1 =? s2
  | None, None => true
  | _, _ => false
  end.

(** [components[key]] *)
Definition lookup (key : string) (components : list FocusableComponent)
    : option FocusableComponent :=
  find (fun c => focusKey c =? key) components.

(** [components[c.focusKey] = c]: an existing key keeps its place in the
    enumeration order, a new key goes last. *)
Fixpoint assign (c : FocusableComponent) (components : list FocusableComponent)
    : list FocusableComponent :=
  match components with
  | [] => [c]
  | h :: t => if focusKey h =? focusKey c then c :: t else h :: assign c t
  end.

(** [delete components[key]] *)
Definition deleteKey (key : string) (components : list FocusableComponent)
    : list FocusableComponent :=
  filter (fun c => negb (focusKey c =? key)) components.

(** An assignment to fields of the object stored under [key]. *)
Definition mutate (key : string) (f : FocusableComponent -> FocusableComponent)
    (components : list FocusableComponent) : list FocusableComponent :=
  map (fun c => if focusKey c =? key then f c else c) components.

Definition with_lastFocusedChildKey (v : option string) (c : FocusableComponent)
    : FocusableComponent :=
  mkComponent (focusKey c) (node c) (parentFocusKey c) (onEnterPress c)
    (onEnterRelease c) (onArrowPress c) (onFocus c) (onBlur c) (onNavigate c)
    (onUpdateFocus c) (onUpdateHasFocusedChild c) (saveLastFocusedChild c)
    (trackChildren c) (preferredChildFocusKey c) (focusable c)
    (isFocusBoundary c) (pointerSupport c) (autoRestoreFocus c)
    v (layout c) (layoutUpdated c).

Definition with_parentFocusKey (v : string) (c : FocusableComponent)
    : FocusableComponent :=
  mkComponent (focusKey c) (node c) v (onEnterPress c)
    (onEnterRelease c) (onArrowPress c) (onFocus c) (onBlur c) (onNavigate c)
    (onUpdateFocus c) (onUpdateHasFocusedChild c) (saveLastFocusedChild c)
    (trackChildren c) (preferredChildFocusKey c) (focusable c)
    (isFocusBoundary c) (pointerSupport c) (autoRestoreFocus c)
    (lastFocusedChildKey c) (layout c) (layoutUpdated c).

Definition with_layout (v : FocusableComponentLayout) (c : FocusableComponent)
    : FocusableComponent :=
  mkComponent (focusKey c) (node c) (parentFocusKey c) (onEnterPress c)
    (onEnterRelease c) (onArrowPress c) (onFocus c) (onBlur c) (onNavigate c)
    (onUpdateFocus c) (onUpdateHasFocusedChild c) (saveLastFocusedChild c)
    (trackChildren c) (preferredChildFocusKey c) (focusable c)
    (isFocusBoundary c) (pointerSupport c) (autoRestoreFocus c)
    (lastFocusedChildKey c) v (layoutUpdated c).

Definition with_components (cs : list FocusableComponent) (st : State) : State :=
  mkState cs (currentFocusKey st) (parentsHavingFocusedChild st) (enabled st)
    (callbacks st) (measured st).

Definition with_currentFocusKey (k : option string) (st : State) : State :=
  mkState (focusableComponents st) k (parentsHavingFocusedChild st) (enabled st)
    (callbacks st) (measured st).

Definition with_parentsHavingFocusedChild (ps : list string) (st : State) : State :=
  mkState (focusableComponents st) (currentFocusKey st) ps (enabled st)
    (callbacks st) (measured st).

(** Invoking a callback. *)
Definition fire (e : Event) (st : State) : State :=
  mkState (focusableComponents st) (currentFocusKey st)
    (parentsHavingFocusedChild st) (enabled st) (e :: callbacks st) (measured st).

(** A query of the layout provider. *)
Definition logMeasure (n : HTMLElement) (st : State) : State :=
  mkState (focusableComponents st) (currentFocusKey st)
    (parentsHavingFocusedChild st) (enabled st) (callbacks st) (n :: measured st).

(** ** The service class *)

Definition getFocusableComponent (key : string) (st : State)
    : option FocusableComponent :=
  lookup key (focusableComponents st).

Definition isFocusableComponent (key : string) (st : State) : bool :=
  match getFocusableComponent key st with
  | Some _ => true
  | None => false
  end.

Definition isParticipatingFocusableComponent (key : string) (st : State) : bool :=
  match getFocusableComponent key st with
  | Some c => focusable c
  | None => false
  end.

(** [{ ...measureLayout(node), node }] *)
Definition layoutOf (r : DOMRect) (n : HTMLElement) : FocusableComponentLayout :=
  mkLayout (rect_left r) (rect_top r) (rect_width r) (rect_height r)
    (rect_x r) (rect_y r) n.

Definition updateLayout (key : string) (st : State) : State :=
  match getFocusableComponent key st with
  | None => st
  | Some component =>
    if layoutUpdated component then st
    else
      let node := node component in
      let measurement := measureLayout node in
      with_components
        (mutate key (with_layout (layoutOf measurement node))
           (focusableComponents st))
        (logMeasure node st)
  end.

Definition updateAllLayouts (st : State) : State :=
  fold_left (fun s k => updateLayout k s)
    (map focusKey (focusableComponents st)) st.

Definition getNodeLayoutByFocusKey (key : string) (st : State)
    : option FocusableComponentLayout * State :=
  match getFocusableComponent key st with
  | Some component =>
    let st' := updateLayout (focusKey component) st in
    (option_map layout (getFocusableComponent (focusKey component) st'), st')
  | None => (None, st)
  end.

Definition saveLastFocusedChildKey
    (component : option FocusableComponent) (key : option string) (st : State)
    : State :=
  match component with
  | Some c =>
    with_components
      (mutate (focusKey c) (with_lastFocusedChildKey key) (focusableComponents st))
      st
  | None => st
  end.

(** The children that [getNextFocusKey] descends into. *)
Definition focusableChildren (target : string) (st : State)
    : list FocusableComponent :=
  filter (fun c => (parentFocusKey c =? target) && focusable c)
    (focusableComponents st).

(** [getNextFocusKey].  The three recursive calls each take one unit of
    fuel.  The children are read again after their layouts were refreshed:
    in the source they are the very objects [updateLayout] wrote to.
    [getChildClosestToOrigin] cannot come back empty there (the source would
    fail on destructuring [undefined]), [children] being non-empty. *)
Fixpoint getNextFocusKey (fuel : nat) (targetFocusKey : string) (st : State)
    {struct fuel} : option (string * State) :=
  match getFocusableComponent targetFocusKey st with
  | None => Some (targetFocusKey, st)
  | Some targetComponent =>
    let children := focusableChildren targetFocusKey st in
    if (0 <? List.length children)%nat then
      let lastFocusedChildKey := lastFocusedChildKey targetComponent in
      let preferredChildFocusKey := preferredChildFocusKey targetComponent in
      if truthy lastFocusedChildKey
         && saveLastFocusedChild targetComponent
         && isParticipatingFocusableComponent (propertyKey lastFocusedChildKey) st
      then
        match fuel with
        | O => None
        | S fuel' => getNextFocusKey fuel' (propertyKey lastFocusedChildKey) st
        end
      else if truthy preferredChildFocusKey
              && isParticipatingFocusableComponent
                   (propertyKey preferredChildFocusKey) st
      then
        match fuel with
        | O => None
        | S fuel' => getNextFocusKey fuel' (propertyKey preferredChildFocusKey) st
        end
      else
        let st' :=
          fold_left (fun s component => updateLayout (focusKey component) s)
            children st in
        match getChildClosestToOrigin (focusableChildren targetFocusKey st') with
        | Some child =>
          match fuel with
          | O => None
          | S fuel' => getNextFocusKey fuel' (focusKey child) st'
          end
        | None => None
        end
    else Some (targetFocusKey, st)
  end.

Definition setCurrentFocusedKey (newFocusKey : string) (st : State) : State :=
  let st1 :=
    if isFocusableComponent (propertyKey (currentFocusKey st)) st
       && negb (keyEq (Some newFocusKey) (currentFocusKey st))
    then
      match getFocusableComponent (propertyKey (currentFocusKey st)) st with
      | Some oldComponent =>
        let parentComponent :=
          getFocusableComponent (parentFocusKey oldComponent) st in
        let st_saved :=
          saveLastFocusedChildKey parentComponent (currentFocusKey st) st in
        let st_updated := fire (EvUpdateFocus (focusKey oldComponent) false) st_saved in
        let '(l, st_measured) :=
          getNodeLayoutByFocusKey (propertyKey (currentFocusKey st)) st_updated in
        fire (EvBlur (focusKey oldComponent) l) st_measured
      | None => st
      end
    else st in
  let st2 := with_currentFocusKey (Some newFocusKey) st1 in
  match getFocusableComponent newFocusKey st2 with
  | Some newComponent =>
    let st_updated := fire (EvUpdateFocus (focusKey newComponent) true) st2 in
    let '(l, st_measured) := getNodeLayoutByFocusKey newFocusKey st_updated in
    fire (EvFocus (focusKey newComponent) l) st_measured
  | None => st2
  end.

(** The [while] loop of [updateParentsHasFocusedChild]: the focus keys of
    the registered ancestors, nearest first.  One unit of fuel per turn. *)
Fixpoint collectParents (fuel : nat) (currentComponent : option FocusableComponent)
    (st : State) {struct fuel} : option (list string) :=
  match currentComponent with
  | None => Some []
  | Some current =>
    match fuel with
    | O => None
    | S fuel' =>
      let parentComponent := getFocusableComponent (parentFocusKey current) st in
      match collectParents fuel' parentComponent st with
      | Some rest =>
        Some (match parentComponent with
              | Some p => focusKey p :: rest
              | None => rest
              end)
      | None => None
      end
    end
  end.

(** lodash [difference] *)
Definition difference (l values : list string) : list string :=
  filter (fun k => negb (existsb (String.eqb k) values)) l.

Definition onIntermediateNodeBecameFocused (key : string) (st : State) : State :=
  if isParticipatingFocusableComponent key st then
    let '(l, st') := getNodeLayoutByFocusKey key st in
    fire (EvFocus key l) st'
  else st.

Definition onIntermediateNodeBecameBlurred (key : string) (st : State) : State :=
  if isParticipatingFocusableComponent key st then
    let '(l, st') := getNodeLayoutByFocusKey key st in
    fire (EvBlur key l) st'
  else st.

Definition flagParent (hasFocusedChild : bool) (st : State) (parentFocusKey : string)
    : State :=
  let st' :=
    match getFocusableComponent parentFocusKey st with
    | Some parentComponent =>
      if trackChildren parentComponent
      then fire (EvUpdateHasFocusedChild (focusKey parentComponent) hasFocusedChild) st
      else st
    | None => st
    end in
  if hasFocusedChild then onIntermediateNodeBecameFocused parentFocusKey st'
  else onIntermediateNodeBecameBlurred parentFocusKey st'.

Definition updateParentsHasFocusedChild (fuel : nat) (key : string) (st : State)
    : option State :=
  match collectParents fuel (getFocusableComponent key st) st with
  | None => None
  | Some parents =>
    let parentsToRemoveFlag := difference (parentsHavingFocusedChild st) parents in
    let parentsToAddFlag := difference parents (parentsHavingFocusedChild st) in
    let st1 := fold_left (flagParent false) parentsToRemoveFlag st in
    let st2 := fold_left (flagParent true) parentsToAddFlag st1 in
    Some (with_parentsHavingFocusedChild parents st2)
  end.

(** The [while] loop of [updateParentsLastFocusedChild]. *)
Fixpoint saveLastFocusedChain (fuel : nat) (currentKey : string) (st : State)
    {struct fuel} : option State :=
  match getFocusableComponent currentKey st with
  | None => Some st
  | Some currentComponent =>
    match fuel with
    | O => None
    | S fuel' =>
      let parentComponent :=
        getFocusableComponent (parentFocusKey currentComponent) st in
      match parentComponent with
      | Some p =>
        saveLastFocusedChain fuel' (focusKey p)
          (saveLastFocusedChildKey parentComponent
             (Some (focusKey currentComponent)) st)
      | None => Some st
      end
    end
  end.

Definition updateParentsLastFocusedChild (fuel : nat) (key : option string)
    (st : State) : option State :=
  saveLastFocusedChain fuel (propertyKey key) st.

Definition setFocus (fuel : nat) (key : string) (st : State) : option State :=
  if negb (enabled st) then Some st
  else
    let lastFocusedKey := currentFocusKey st in
    match getNextFocusKey fuel key st with
    | None => None
    | Some (newFocusKey, st1) =>
      let st2 := setCurrentFocusedKey newFocusKey st1 in
      match updateParentsHasFocusedChild fuel newFocusKey st2 with
      | None => None
      | Some st3 => updateParentsLastFocusedChild fuel lastFocusedKey st3
      end
    end.

(** ** [focus] and [getValidLeafFocusKey] ([SpatialNavigation.ts])

    The service of [SpatialNavigation.ts] replaces [setFocus],
    [setCurrentFocusedKey] and [getNextFocusKey] by [focus] and
    [getValidLeafFocusKey]; the hook [useFocusable] calls this [focus].  It
    is embedded here next to [setFocus] to compare the two on the points
    where they part. *)

Fixpoint getValidLeafFocusKey (fuel : nat) (targetFocusKey : string) (st : State)
    {struct fuel} : option (option string * State) :=
  match getFocusableComponent targetFocusKey st with
  | None => Some (currentFocusKey st, st)
  | Some targetComponent =>
    let lastFocusedChildKey := lastFocusedChildKey targetComponent in
    let preferredChildFocusKey := preferredChildFocusKey targetComponent in
    if truthy lastFocusedChildKey
       && saveLastFocusedChild targetComponent
       && isParticipatingFocusableComponent (propertyKey lastFocusedChildKey) st
    then
      match fuel with
      | O => None
      | S fuel' => getValidLeafFocusKey fuel' (propertyKey lastFocusedChildKey) st
      end
    else if truthy preferredChildFocusKey
            && isParticipatingFocusableComponent
                 (propertyKey preferredChildFocusKey) st
    then
      match fuel with
      | O => None
      | S fuel' =>
        getValidLeafFocusKey fuel' (propertyKey preferredChildFocusKey) st
      end
    else
      let participatingChildren := focusableChildren targetFocusKey st in
      if (0 <? List.length participatingChildren)%nat then
        let st' :=
          fold_left (fun s component => updateLayout (focusKey component) s)
            participatingChildren st in
        match getChildClosestToOrigin (focusableChildren targetFocusKey st') with
        | Some child =>
          match fuel with
          | O => None
          | S fuel' => getValidLeafFocusKey fuel' (focusKey child) st'
          end
        | None => None
        end
      else Some (Some targetFocusKey, st)
  end.

Definition focus (fuel : nat) (targetFocusKey : string) (st : State)
    : option State :=
  if negb (enabled st) then Some st
  else
    let oldFocusKey := currentFocusKey st in
    match getValidLeafFocusKey fuel targetFocusKey st with
    | None => None
    | Some (newFocusKey, st1) =>
      let oldFocusableComponent :=
        getFocusableComponent (propertyKey oldFocusKey) st1 in
      let newFocusableComponent :=
        getFocusableComponent (propertyKey newFocusKey) st1 in
      let st2 :=
        match oldFocusableComponent with
        | Some oldComponent =>
          if negb (keyEq oldFocusKey newFocusKey) then
            let st_updated :=
              fire (EvUpdateFocus (focusKey oldComponent) false) st1 in
            let '(l, st_measured) :=
              getNodeLayoutByFocusKey (propertyKey oldFocusKey) st_updated in
            fire (EvBlur (focusKey oldComponent) l) st_measured
          else st1
        | None => st1
        end in
      let st3 := with_currentFocusKey newFocusKey st2 in
      let st4 :=
        match newFocusableComponent with
        | Some newComponent =>
          if negb (keyEq oldFocusKey newFocusKey) then
            let st_updated :=
              fire (EvUpdateFocus (focusKey newComponent) true) st3 in
            let '(l, st_measured) :=
              getNodeLayoutByFocusKey (propertyKey newFocusKey) st_updated in
            fire (EvFocus (focusKey newComponent) l) st_measured
          else st3
        | None => st3
        end in
      match updateParentsHasFocusedChild fuel (propertyKey newFocusKey) st4 with
      | None => None
      | Some st5 => updateParentsLastFocusedChild fuel oldFocusKey st5
      end
    end.

(** ** [smartNavigate] ([helpers.ts]) *)

(** Where the walk of [smartNavigate] ends: at its call of
    [svc.setFocus(nextComponent.focusKey, ...)], reached from [fromComponent],
    or at one of its plain [return]s. *)
Inductive Walk : Type :=
| CallSetFocus (fromComponent nextComponent : FocusableComponent) (st : State)
| Return (st : State).

(** [smartNavigate] up to its hand-over to [svc.setFocus]; the recursive
    call on the parent takes one unit of fuel. *)
Fixpoint smartNavigateWalk (climb : nat) (key : string) (direction : string)
    (st : State) {struct climb} : option Walk :=
  match getFocusableComponent key st with
  | None => Some (Return st)
  | Some fromComponent =>
    if isFocusBoundary fromComponent then Some (Return st)
    else
      let siblings :=
        filter (fun nextComponent =>
                  isNodeFocusable direction fromComponent nextComponent)
          (focusableComponents st) in
      let sortedSiblingsInCurrentDirection :=
        sortSiblingsByPriority siblings (layout fromComponent) direction in
      match first sortedSiblingsInCurrentDirection with
      | Some nextComponent => Some (CallSetFocus fromComponent nextComponent st)
      | None =>
        let parentComponent :=
          getFocusableComponent (parentFocusKey fromComponent) st in
        let st' :=
          saveLastFocusedChildKey parentComponent
            (Some (focusKey fromComponent)) st in
        match climb with
        | O => None
        | S climb' =>
          smartNavigateWalk climb' (parentFocusKey fromComponent) direction st'
        end
      end
  end.

(** [smartNavigate]: the walk, then [svc.setFocus] in tail position.
    [climb] bounds the recursion of [smartNavigate] itself, [fuel] is what
    [svc.setFocus] gets. *)
Definition smartNavigate (climb fuel : nat) (key : string) (direction : string)
    (st : State) : option State :=
  match smartNavigateWalk climb key direction st with
  | Some (CallSetFocus _ nextComponent st') =>
    setFocus fuel (focusKey nextComponent) st'
  | Some (Return st') => Some st'
  | None => None
  end.

(** ** Registration, update and removal *)

(** [addFocusable].  [updatePointerSupport] only installs or clears a mouse
    handler on the DOM node and is left out. *)
Definition addFocusable (fuel : nat) (descriptor : FocusableComponent) (st : State)
    : option State :=
  let n := node descriptor in
  let component :=
    mkComponent (focusKey descriptor) n (parentFocusKey descriptor)
      (onEnterPress descriptor) (onEnterRelease descriptor)
      (onArrowPress descriptor) (onFocus descriptor) (onBlur descriptor)
      (onNavigate descriptor) (onUpdateFocus descriptor)
      (onUpdateHasFocusedChild descriptor) (saveLastFocusedChild descriptor)
      (trackChildren descriptor) (preferredChildFocusKey descriptor)
      (focusable descriptor) (isFocusBoundary descriptor)
      (pointerSupport descriptor) (autoRestoreFocus descriptor)
      None (mkLayout 0 0 0 0 0 0 n) false in
  let st1 := with_components (assign component (focusableComponents st)) st in
  let st2 := updateLayout (focusKey descriptor) st1 in
  if keyEq (Some (focusKey descriptor)) (currentFocusKey st2)
  then setFocus fuel (focusKey descriptor) st2
  else Some st2.

(** The assignments [updateFocusable] makes to the stored component. *)
Definition applyUpdate (p : FocusableComponentUpdatePayload) (c : FocusableComponent)
    : FocusableComponent :=
  mkComponent (focusKey c)
    (match upd_node p with Some n => n | None => node c end)
    (parentFocusKey c)
    (upd_onEnterPress p) (upd_onEnterRelease p) (upd_onArrowPress p)
    (upd_onFocus p) (upd_onBlur p) (upd_onNavigate p)
    (onUpdateFocus c) (onUpdateHasFocusedChild c) (saveLastFocusedChild c)
    (trackChildren c) (upd_preferredChildFocusKey p) (upd_focusable p)
    (upd_isFocusBoundary p) (pointerSupport c) (autoRestoreFocus c)
    (lastFocusedChildKey c) (layout c) (layoutUpdated c).

Definition updateFocusable (key : string) (p : FocusableComponentUpdatePayload)
    (st : State) : State :=
  match getFocusableComponent key st with
  | Some _ => with_components (mutate key (applyUpdate p) (focusableComponents st)) st
  | None => st
  end.

Definition removeFocusable (fuel : nat) (key : string) (st : State) : option State :=
  match getFocusableComponent key st with
  | None => Some st
  | Some componentToRemove =>
    let parentFocusKey' := parentFocusKey componentToRemove in
    let st1 := with_components (deleteKey key (focusableComponents st)) st in
    let parentComponent := getFocusableComponent parentFocusKey' st1 in
    let isFocused := keyEq (Some key) (currentFocusKey st1) in
    let st2 :=
      match parentComponent with
      | Some p =>
        if keyEq (lastFocusedChildKey p) (Some key)
        then with_components
               (mutate (focusKey p) (with_lastFocusedChildKey None)
                  (focusableComponents st1)) st1
        else st1
      | None => st1
      end in
    let st3 :=
      with_components
        (map (fun component =>
                if (parentFocusKey component =? key) && focusable component
                then with_parentFocusKey parentFocusKey' component
                else component)
           (focusableComponents st2)) st2 in
    match parentComponent with
    | Some p =>
      if isFocused && autoRestoreFocus p then setFocus fuel parentFocusKey' st3
      else Some st3
    | None => Some st3
    end
  end.

(** ** The ranking in the words of the specification

    Stated on the boxes themselves, for the four directions: the facing
    edges, the cross-axis segments and their overlap, the two distances and
    the score. *)

(** Coordinate of the reference edge along the move axis: the origin's own
    facing edge, and for a candidate the edge that faces back to the origin. *)
Definition spec_facingEdge (d : Direction) (isSibling : bool)
    (l : FocusableComponentLayout) : Z :=
  match d, isSibling with
  | Right, false => left l + width l
  | Right, true => left l
  | Left, false => left l
  | Left, true => left l + width l
  | Down, false => top l + height l
  | Down, true => top l
  | Up, false => top l
  | Up, true => top l + height l
  end.

(** The near and the far end of a box along the cross axis. *)
Definition spec_crossNear (d : Direction) (l : FocusableComponentLayout) : Z :=
  match d with
  | Up | Down => left l
  | Left | Right => top l
  end.

Definition spec_crossExtent (d : Direction) (l : FocusableComponentLayout) : Z :=
  match d with
  | Up | Down => width l
  | Left | Right => height l
  end.

Definition spec_crossFar (d : Direction) (l : FocusableComponentLayout) : Z :=
  spec_crossNear d l + spec_crossExtent d l.

Definition spec_overlap (d : Direction) (origin candidate : FocusableComponentLayout)
    : Z :=
  Z.max 0
    (Z.min (spec_crossFar d origin) (spec_crossFar d candidate)
     - Z.max (spec_crossNear d origin) (spec_crossNear d candidate)).

(** Adjacent slice: the overlap is at least 20% of the origin's extent. *)
Definition spec_isAdjacent (d : Direction)
    (origin candidate : FocusableComponentLayout) : bool :=
  (20 * spec_crossExtent d origin <=? 100 * spec_overlap d origin candidate)%Z.

Definition spec_axisDistance (d : Direction)
    (origin candidate : FocusableComponentLayout) : Z :=
  Z.abs (spec_facingEdge d true candidate - spec_facingEdge d false origin).

Definition spec_crossDistance (d : Direction)
    (origin candidate : FocusableComponentLayout) : Z :=
  Z.min (Z.abs (spec_crossNear d candidate - spec_crossNear d origin))
    (Z.min (Z.abs (spec_crossNear d candidate - spec_crossFar d origin))
       (Z.min (Z.abs (spec_crossFar d candidate - spec_crossNear d origin))
          (Z.abs (spec_crossFar d candidate - spec_crossFar d origin)))).

Definition spec_score (d : Direction)
    (origin candidate : FocusableComponentLayout) : Q :=
  let adjacent := spec_isAdjacent d origin candidate in
  let primaryAxisDistance :=
    if adjacent then spec_axisDistance d origin candidate
    else spec_crossDistance d origin candidate in
  let secondaryAxisDistance :=
    if adjacent then spec_crossDistance d origin candidate
    else spec_axisDistance d origin candidate in
  Qmake (primaryAxisDistance * 5 + secondaryAxisDistance + 1)
    (if adjacent then 5 else 1).

(** ** The facing-edge check and the climb, for the statements below *)

(** The facing-edge check of the candidate filter: the candidate's edge that
    faces the origin lies at or past the origin's edge in the direction. *)
Definition facingEdgeCheck (direction : string)
    (origin candidate : FocusableComponentLayout) : Prop :=
  (direction = DIRECTION_LEFT /\ left candidate + width candidate <= left origin)
  \/ (direction = DIRECTION_RIGHT /\ left origin + width origin <= left candidate)
  \/ (direction = DIRECTION_DOWN /\ top origin + height origin <= top candidate)
  \/ (direction = DIRECTION_UP /\ top candidate + height candidate <= top origin).

(** [ancestorOrSelf st k k']: [k'] is [k] or is reached from [k] by following
    [parentFocusKey] through registered components. *)
Inductive ancestorOrSelf (st : State) : string -> string -> Prop :=
| ancestorOrSelf_self : forall k, ancestorOrSelf st k k
| ancestorOrSelf_parent : forall k c k',
    getFocusableComponent k st = Some c ->
    ancestorOrSelf st (parentFocusKey c) k' ->
    ancestorOrSelf st k k'.

(** ** Concrete trees *)

Definition ROOT_FOCUS_KEY : string := "SN:ROOT".

(** An element that the layout provider reports at the given box. *)
Definition elementAt (id : nat) (l t w h : Z) : HTMLElement :=
  mkElement id (mkRect l t w h l t).

(** A registration descriptor with the defaults of [useFocusable]:
    focusable, not a boundary, [saveLastFocusedChild], [autoRestoreFocus] and
    [pointerSupport] on, [trackChildren] off, no preferred child. *)
Definition descriptor (key parent : string) (e : HTMLElement) : FocusableComponent :=
  mkComponent key e parent 0%nat 0%nat 0%nat 0%nat 0%nat 0%nat 0%nat 0%nat
    true false None true false true true None (mkLayout 0 0 0 0 0 0 e) false.

Definition asBoundary (c : FocusableComponent) : FocusableComponent :=
  mkComponent (focusKey c) (node c) (parentFocusKey c) (onEnterPress c)
    (onEnterRelease c) (onArrowPress c) (onFocus c) (onBlur c) (onNavigate c)
    (onUpdateFocus c) (onUpdateHasFocusedChild c) (saveLastFocusedChild c)
    (trackChildren c) (preferredChildFocusKey c) (focusable c)
    true (pointerSupport c) (autoRestoreFocus c)
    (lastFocusedChildKey c) (layout c) (layoutUpdated c).

Definition withPreferredChild (k : string) (c : FocusableComponent)
    : FocusableComponent :=
  mkComponent (focusKey c) (node c) (parentFocusKey c) (onEnterPress c)
    (onEnterRelease c) (onArrowPress c) (onFocus c) (onBlur c) (onNavigate c)
    (onUpdateFocus c) (onUpdateHasFocusedChild c) (saveLastFocusedChild c)
    (trackChildren c) (Some k) (focusable c)
    (isFocusBoundary c) (pointerSupport c) (autoRestoreFocus c)
    (lastFocusedChildKey c) (layout c) (layoutUpdated c).

(** The service after [init]: enabled, nothing registered, nothing focused. *)
Definition initialState : State := mkState [] None [] true [] [].

(** A sequence of calls on the service. *)
Definition run (calls : list (State -> option State)) (st : State) : option State :=
  fold_left (fun acc call => match acc with Some s => call s | None => None end)
    calls (Some st).

Definition orInitial (st : option State) : State :=
  match st with
  | Some s => s
  | None => initialState
  end.

(** Two groups side by side under the root, and a leaf of the first group
    that is wider than its group. *)
Definition twoGroups : State :=
  orInitial (run
    [ addFocusable 4 (descriptor "P1" ROOT_FOCUS_KEY (elementAt 1 0 0 10 10));
      addFocusable 4 (descriptor "P2" ROOT_FOCUS_KEY (elementAt 2 20 0 10 10));
      addFocusable 4 (descriptor "A" "P1" (elementAt 3 0 0 30 10)) ]
    initialState).

(** A focus-boundary group with a single leaf. *)
Definition boundaryGroup : State :=
  orInitial (run
    [ addFocusable 4 (asBoundary (descriptor "P" ROOT_FOCUS_KEY (elementAt 1 0 0 100 100)));
      addFocusable 4 (descriptor "A" "P" (elementAt 2 0 0 10 10)) ]
    initialState).

(** The scenario of the specification: A(0,0,10,10), B(20,0,10,10),
    C(0,20,10,10) under one parent. *)
Definition threeSiblings : State :=
  orInitial (run
    [ addFocusable 4 (descriptor "P" ROOT_FOCUS_KEY (elementAt 0 0 0 100 100));
      addFocusable 4 (descriptor "A" "P" (elementAt 1 0 0 10 10));
      addFocusable 4 (descriptor "B" "P" (elementAt 2 20 0 10 10));
      addFocusable 4 (descriptor "C" "P" (elementAt 3 0 20 10 10)) ]
    initialState).

(** A group that prefers its child "C" over its child "D". *)
Definition preferredGroup : State :=
  orInitial (run
    [ addFocusable 4 (withPreferredChild "C"
                        (descriptor "P" ROOT_FOCUS_KEY (elementAt 1 0 0 100 10)));
      addFocusable 4 (descriptor "D" "P" (elementAt 2 0 0 10 10));
      addFocusable 4 (descriptor "C" "P" (elementAt 3 20 0 10 10)) ]
    initialState).

(** An update that supplies neither a node nor a preferred child. *)
Definition updateWithoutPreferredChild : FocusableComponentUpdatePayload :=
  mkUpdatePayload None None true true false 0%nat 0%nat 0%nat 0%nat 0%nat 0%nat.

(** A group registered with its own key as preferred child. *)
Definition selfPreferredGroup : State :=
  orInitial (run
    [ addFocusable 4 (withPreferredChild "P"
                        (descriptor "P" ROOT_FOCUS_KEY (elementAt 1 0 0 100 10)));
      addFocusable 4 (descriptor "C" "P" (elementAt 2 0 0 10 10)) ]
    initialState).

(** The leaf "n" is focused under "P1", focus moves on to its sibling "m",
    and "n" is then registered again under "P2". *)
Definition reRegistered : State :=
  orInitial (run
    [ addFocusable 4 (descriptor "P1" ROOT_FOCUS_KEY (elementAt 1 0 0 10 10));
      addFocusable 4 (descriptor "P2" ROOT_FOCUS_KEY (elementAt 2 20 0 10 10));
      addFocusable 4 (descriptor "n" "P1" (elementAt 3 0 0 5 5));
      addFocusable 4 (descriptor "m" "P1" (elementAt 4 5 0 5 5));
      setFocus 4 "n";
      setFocus 4 "m";
      addFocusable 4 (descriptor "n" "P2" (elementAt 3 20 0 5 5)) ]
    initialState).

(** A group "X" with leaves "a" and "b", focus on "b". *)
Definition focusOnB : State :=
  orInitial (run
    [ addFocusable 4 (descriptor "X" ROOT_FOCUS_KEY (elementAt 1 0 0 100 10));
      addFocusable 4 (descriptor "a" "X" (elementAt 2 0 0 10 10));
      addFocusable 4 (descriptor "b" "X" (elementAt 3 20 0 10 10));
      setFocus 4 "b" ]
    initialState).

(** ** What a removal leaves of the other components *)

(** [afterRemoval key c d]: the component [d] once [removeFocusable] has
    removed the component [c] registered under [key].  A focusable child of
    the removed component is handed to the removed component's parent; the
    removed component's parent forgets it as last focused child. *)
Definition afterRemoval (key : string) (c d : FocusableComponent)
    : FocusableComponent :=
  with_parentFocusKey
    (if (parentFocusKey d =? key) && focusable d
     then parentFocusKey c else parentFocusKey d)
    (with_lastFocusedChildKey
       (if (focusKey d =? parentFocusKey c)
           && keyEq (lastFocusedChildKey d) (Some key)
        then None else lastFocusedChildKey d)
       d).

(** When [removeFocusable] goes on to focus the parent. *)
Definition restoresFocus (key : string) (c : FocusableComponent) (st : State)
    : bool :=
  keyEq (Some key) (currentFocusKey st)
  && negb (parentFocusKey c =? key)
  && match getFocusableComponent (parentFocusKey c) st with
     | Some p => autoRestoreFocus p
     | None => false
     end.

(** ** Leaf resolution, one level at a time *)

(** The two remembered links, as [getNextFocusKey] tests them. *)
Definition followsLast (c : FocusableComponent) (st : State) : bool :=
  truthy (lastFocusedChildKey c)
  && saveLastFocusedChild c
  && isParticipatingFocusableComponent (propertyKey (lastFocusedChildKey c)) st.

Definition followsPreferred (c : FocusableComponent) (st : State) : bool :=
  truthy (preferredChildFocusKey c)
  && isParticipatingFocusableComponent (propertyKey (preferredChildFocusKey c)) st.

(** The state after [children.forEach(updateLayout)]. *)
Definition refreshChildren (target : string) (st : State) : State :=
  fold_left (fun s component => updateLayout (focusKey component) s)
    (focusableChildren target st) st.

(** What one activation of [getNextFocusKey] does: return its target, or
    call itself on a key in a state. *)
Inductive Descent : Type :=
| AtLeaf
| Into (key : string) (st : State)
| NoClosestChild.

Definition descent (target : string) (st : State) : Descent :=
  match getFocusableComponent target st with
  | None => AtLeaf
  | Some c =>
    if (0 <? List.length (focusableChildren target st))%nat then
      if followsLast c st then Into (propertyKey (lastFocusedChildKey c)) st
      else if followsPreferred c st
      then Into (propertyKey (preferredChildFocusKey c)) st
      else
        match getChildClosestToOrigin
                (focusableChildren target (refreshChildren target st)) with
        | Some child => Into (focusKey child) (refreshChildren target st)
        | None => NoClosestChild
        end
    else AtLeaf
  end.

(** The keys leaf resolution may move to from a registered target. *)
Definition descentLinks (target : string) (c : FocusableComponent) (st : State)
    : list string :=
  if (0 <? List.length (focusableChildren target st))%nat then
    map focusKey (focusableChildren target st)
    ++ (if followsLast c st then [propertyKey (lastFocusedChildKey c)] else [])
    ++ (if followsPreferred c st
        then [propertyKey (preferredChildFocusKey c)] else [])
  else [].

(** Every link leads to a key of smaller rank: the links form no cycle. *)
Definition descending (rank : string -> nat) (st : State) : bool :=
  forallb
    (fun c =>
       forallb (fun k => (rank k <? rank (focusKey c))%nat)
         (descentLinks (focusKey c) c st))
    (focusableComponents st).

(** No two components under one key, as in any JavaScript object. *)
Fixpoint distinct (keys : list string) : bool :=
  match keys with
  | [] => true
  | k :: rest => negb (existsb (String.eqb k) rest) && distinct rest
  end.

Definition uniqueKeys (st : State) : bool :=
  distinct (map focusKey (focusableComponents st)).

(** Two states with the same components in the same order, up to the
    layouts cached in them, and the same service fields otherwise, up to
    the log of layout queries. *)
Definition eraseLayout (c : FocusableComponent) : FocusableComponent :=
  with_layout (mkLayout 0 0 0 0 0 0 (node c)) c.

Definition sameComponents (st st' : State) : Prop :=
  exists g, (forall c, eraseLayout (g c) = eraseLayout c)
            /\ focusableComponents st' = map g (focusableComponents st).

Definition sameTree (st st' : State) : Prop :=
  sameComponents st st'
  /\ currentFocusKey st' = currentFocusKey st
  /\ parentsHavingFocusedChild st' = parentsHavingFocusedChild st
  /\ enabled st' = enabled st
  /\ callbacks st' = callbacks st.

(** ** Callbacks fired between two states *)

(** [onUpdateFocus(false)] *)
Definition isUnfocus (e : Event) : bool :=
  match e with
  | EvUpdateFocus _ false => true
  | _ => false
  end.

(** [onBlur] *)
Definition isBlur (e : Event) : bool :=
  match e with
  | EvBlur _ _ => true
  | _ => false
  end.

(** From [st] to [st'] the current focus key stays and only callbacks that
    [allowed] admits are invoked. *)
Definition firesOnly (allowed : Event -> bool) (st st' : State) : Prop :=
  currentFocusKey st' = currentFocusKey st
  /\ exists evs, callbacks st' = (evs ++ callbacks st)%list
                 /\ forallb allowed evs = true.

(** Ranks for [threeSiblings]: the group above its leaves. *)
Definition groupRank (k : string) : nat := if k =? "P" then 1%nat else 0%nat.

(** ** The parent chain *)

(** Following [parentFocusKey] from [key] leaves the registered components
    within [fuel] steps: the two [while] loops of [setFocus] end. *)
Fixpoint chainEnds (fuel : nat) (key : string) (st : State) {struct fuel} : bool :=
  match getFocusableComponent key st with
  | None => true
  | Some c =>
    match fuel with
    | O => false
    | S fuel' => chainEnds fuel' (parentFocusKey c) st
    end
  end.

(** The same keys are registered, with the same parents. *)
Definition sameParents (st st' : State) : Prop :=
  forall k,
    option_map parentFocusKey (getFocusableComponent k st')
    = option_map parentFocusKey (getFocusableComponent k st).
(** ** The pointer handler *)

(** [isParticipatingFocusableChild] *)
Definition isParticipatingFocusableChild (key : string) (st : State) : bool :=
  isParticipatingFocusableComponent key st
  && Nat.eqb
       (List.length
          (filter (fun component => parentFocusKey component =? key)
             (focusableComponents st)))
       0.

(** The handler that [updatePointerSupport] installs as [onmouseenter] on the
    node of the component [key], when pointer support is on. *)
Definition onmouseenter (fuel : nat) (key : string) (st : State) : option State :=
  if isParticipatingFocusableChild key st then setFocus fuel key st else Some st.

(** ** Key events and the life cycle of the service

    The rest of [SpatialNavigationServiceClass]: the key map, the counters
    of pressed keys, pausing, [init] and [destroy], and the listeners the
    service attaches to [window].  [visualDebugger] stays [null] (the
    [visualDebug] option is off) and [log] prints nothing that the service
    reads back; both are left out. *)

Definition KEY_ENTER : string := "enter".

(** A JavaScript object used as a map from strings, in the enumeration
    order of its keys (keys that are not array indices). *)
Definition Obj (V : Type) : Type := list (string * V).

Fixpoint objGet {V : Type} (k : string) (o : Obj V) : option V :=
  match o with
  | [] => None
  | (k', v) :: t => if k' =? k then Some v else objGet k t
  end.

(** [o[k] = v] *)
Fixpoint objSet {V : Type} (k : string) (v : V) (o : Obj V) : Obj V :=
  match o with
  | [] => [(k, v)]
  | (k', v') :: t => if k' =? k then (k, v) :: t else (k', v') :: objSet k v t
  end.

(** [delete o[k]] *)
Definition objDelete {V : Type} (k : string) (o : Obj V) : Obj V :=
  filter (fun kv => negb (fst kv =? k)) o.

(** [{ ...o1, ...o2 }] *)
Definition objSpread {V : Type} (o1 o2 : Obj V) : Obj V :=
  fold_left (fun acc kv => objSet (fst kv) (snd kv) acc) o2
    (fold_left (fun acc kv => objSet (fst kv) (snd kv) acc) o1 []).

(** lodash [findKey] *)
Definition findKey {V : Type} (o : Obj V) (predicate : V -> bool) : option string :=
  option_map fst (find (fun kv => predicate (snd kv)) o).

Definition KeyMap : Type := Obj (list Z).

(** A key of a [BackwardsCompatibleKeyMap] holds a number or an array of
    numbers. *)
Definition BackwardsCompatibleKeyMap : Type := Obj (Z + list Z).

Definition PressedKeys : Type := Obj nat.

Definition DEFAULT_KEY_MAP : KeyMap :=
  [ (DIRECTION_LEFT, [37]); (DIRECTION_UP, [38]); (DIRECTION_RIGHT, [39]);
    (DIRECTION_DOWN, [40]); (KEY_ENTER, [13]) ].

Definition normalizeKeyMap (keyMap : BackwardsCompatibleKeyMap) : KeyMap :=
  fold_left
    (fun (newKeyMap : KeyMap) (entry : string * (Z + list Z)) =>
       match snd entry with
       | inl value => objSet (fst entry) [value] newKeyMap
       | inr value => objSet (fst entry) value newKeyMap
       end)
    keyMap [].

(** An invocation of one of the key callbacks of a component, named by the
    component's focus key; the pressed keys are the counters as they stand
    at the call. *)
Inductive KeyCallback : Type :=
| KcEnterPress (key : string) (keys : PressedKeys)
| KcEnterRelease (key : string)
| KcArrowPress (key : string) (direction : string) (keys : PressedKeys).

(** The fields of the service instance: those of [State], and those that
    key handling reads and writes.  A listener field holds the identity of
    the closure last created for it ([None] is [null]).  [keyCallbacks] logs
    the key callbacks invoked, newest first. *)
Record Service : Type := mkService {
  engine : State;
  throttle : Q;
  throttleKeypresses : bool;
  pressedKeys : PressedKeys;
  paused : bool;
  keyDownEventListener : option nat;
  keyDownEventListenerThrottled : option nat;
  keyUpEventListener : option nat;
  keyMap : KeyMap;
  debug : bool;
  logIndex : nat;
  keyCallbacks : list KeyCallback
}.

(** The service as its constructor leaves it. *)
Definition constructed : Service :=
  mkService (mkState [] None [] false [] []) 0%Q false [] false None None None
    DEFAULT_KEY_MAP false 0%nat [].

Definition with_engine (st : State) (svc : Service) : Service :=
  mkService st (throttle svc) (throttleKeypresses svc) (pressedKeys svc)
    (paused svc) (keyDownEventListener svc) (keyDownEventListenerThrottled svc)
    (keyUpEventListener svc) (keyMap svc) (debug svc) (logIndex svc)
    (keyCallbacks svc).

Definition with_pressedKeys (keys : PressedKeys) (svc : Service) : Service :=
  mkService (engine svc) (throttle svc) (throttleKeypresses svc) keys
    (paused svc) (keyDownEventListener svc) (keyDownEventListenerThrottled svc)
    (keyUpEventListener svc) (keyMap svc) (debug svc) (logIndex svc)
    (keyCallbacks svc).

Definition with_paused (b : bool) (svc : Service) : Service :=
  mkService (engine svc) (throttle svc) (throttleKeypresses svc) (pressedKeys svc)
    b (keyDownEventListener svc) (keyDownEventListenerThrottled svc)
    (keyUpEventListener svc) (keyMap svc) (debug svc) (logIndex svc)
    (keyCallbacks svc).

Definition with_keyMap (m : KeyMap) (svc : Service) : Service :=
  mkService (engine svc) (throttle svc) (throttleKeypresses svc) (pressedKeys svc)
    (paused svc) (keyDownEventListener svc) (keyDownEventListenerThrottled svc)
    (keyUpEventListener svc) m (debug svc) (logIndex svc) (keyCallbacks svc).

Definition with_logIndex (n : nat) (svc : Service) : Service :=
  mkService (engine svc) (throttle svc) (throttleKeypresses svc) (pressedKeys svc)
    (paused svc) (keyDownEventListener svc) (keyDownEventListenerThrottled svc)
    (keyUpEventListener svc) (keyMap svc) (debug svc) n (keyCallbacks svc).

(** Invoking a key callback. *)
Definition fireKey (e : KeyCallback) (svc : Service) : Service :=
  mkService (engine svc) (throttle svc) (throttleKeypresses svc) (pressedKeys svc)
    (paused svc) (keyDownEventListener svc) (keyDownEventListenerThrottled svc)
    (keyUpEventListener svc) (keyMap svc) (debug svc) (logIndex svc)
    (e :: keyCallbacks svc).

Definition pause (svc : Service) : Service := with_paused true svc.

Definition resume (svc : Service) : Service := with_paused false svc.

Definition getKeyMap (svc : Service) : KeyMap := keyMap svc.

Definition setKeyMap (newKeyMap : BackwardsCompatibleKeyMap) (svc : Service)
    : Service :=
  with_keyMap (objSpread (getKeyMap svc) (normalizeKeyMap newKeyMap)) svc.

Definition getEventType (keyCode : Z) (svc : Service) : option string :=
  findKey (getKeyMap svc) (fun codeList => existsb (Z.eqb keyCode) codeList).

(** How a listener ends: by returning, or by throwing the [TypeError] of a
    call on [undefined]; either way with the service as it then is. *)
Inductive Completion : Type :=
| Normal (svc : Service)
| TypeError (svc : Service).

(** The methods [onEnterPress], [onEnterRelease], [onArrowPress] and
    [onKeyEvent] of the service; the first three share their names with
    the callbacks of a component that they invoke. *)
Module KeyHandling.

Definition onEnterPress (svc : Service) : Service :=
  match getFocusableComponent (propertyKey (currentFocusKey (engine svc)))
          (engine svc) with
  | None => svc
  | Some component =>
    if negb (focusable component) then svc
    else fireKey (KcEnterPress (focusKey component) (pressedKeys svc)) svc
  end.

Definition onEnterRelease (svc : Service) : Service :=
  match getFocusableComponent (propertyKey (currentFocusKey (engine svc)))
          (engine svc) with
  | None => svc
  | Some component =>
    if negb (focusable component) then svc
    else fireKey (KcEnterRelease (focusKey component)) svc
  end.

Section Handlers.

(** What the handlers supplied by the UI answer and do: the boolean that
    [component.onArrowPress(direction, details)] returns, and what
    [component.onNavigate(focusKey, direction, details, svc)] does through
    the [SpatialNavigationService] it is handed. *)
Variable arrowPressAnswer : Callback -> string -> PressedKeys -> bool.
Variable navigateEffect :
  Callback -> option string -> option string -> State -> option State.

(** [onArrowPress]: [None] is [undefined]. *)
Definition onArrowPress (direction : string) (svc : Service)
    : option bool * Service :=
  match getFocusableComponent (propertyKey (currentFocusKey (engine svc)))
          (engine svc) with
  | None => (None, svc)
  | Some component =>
    (Some (arrowPressAnswer (onArrowPress component) direction (pressedKeys svc)),
     fireKey (KcArrowPress (focusKey component) direction (pressedKeys svc)) svc)
  end.

(** [onKeyEvent]: [None] when the handler runs out of fuel. *)
Definition onKeyEvent (keyCode : Z) (svc : Service) : option Completion :=
  let direction := getEventType keyCode svc in
  match getFocusableComponent (propertyKey (currentFocusKey (engine svc)))
          (engine svc) with
  | None => Some (TypeError svc)
  | Some focusableComponent =>
    match navigateEffect (onNavigate focusableComponent)
            (currentFocusKey (engine svc)) direction (engine svc) with
    | None => None
    | Some st => Some (Normal (with_engine (updateAllLayouts st) svc))
    end
  end.

End Handlers.

End KeyHandling.

Section Listeners.

Variable arrowPressAnswer : Callback -> string -> PressedKeys -> bool.
Variable navigateEffect :
  Callback -> option string -> option string -> State -> option State.

(** The count [keydown] stores for a key that was at [previous]. *)
Definition nextCount (previous : option nat) : nat :=
  match previous with
  | Some n => if Nat.eqb n 0 then 1%nat else (n + 1)%nat
  | None => 1%nat
  end.

(** The closure [bindEventHandlers] stores in [keyDownEventListener].
    [event.preventDefault()] and [event.stopPropagation()] act on the event
    only. *)
Definition keyDown (keyCode : Z) (svc : Service) : option Completion :=
  if paused svc then Some (Normal svc)
  else
    let svc0 := if debug svc then with_logIndex (S (logIndex svc)) svc else svc in
    match getEventType keyCode svc0 with
    | None => Some (Normal svc0)
    | Some eventType =>
      if eventType =? "" then Some (Normal svc0)
      else
        let svc1 :=
          with_pressedKeys
            (objSet eventType (nextCount (objGet eventType (pressedKeys svc0)))
               (pressedKeys svc0))
            svc0 in
        if (eventType =? KEY_ENTER) && truthy (currentFocusKey (engine svc1))
        then Some (Normal (KeyHandling.onEnterPress svc1))
        else
          let '(answer, svc2) :=
            KeyHandling.onArrowPress arrowPressAnswer eventType svc1 in
          match answer with
          | Some false => Some (Normal svc2)
          | _ => KeyHandling.onKeyEvent navigateEffect keyCode svc2
          end
    end.


End Listeners.

(** [Number.isInteger] *)
Definition isInteger (q : Q) : bool := (Z.pos (Qden (Qred q)) =? 1)%Z.

(** Truthiness of a number. *)
Definition truthyNumber (q : Q) : bool := negb (Qeq_bool q 0).

(** The closure [bindEventHandlers] stores in [keyUpEventListener].
    Cancelling the throttled listener acts on its timer only, and throws
    when there is no throttled listener.  A key code the map does not list
    deletes the property "undefined". *)
Definition keyUp (keyCode : Z) (svc : Service) : Completion :=
  let eventType := getEventType keyCode svc in
  let svc1 :=
    with_pressedKeys
      (objDelete (match eventType with Some e => e | None => "undefined" end)
         (pressedKeys svc))
      svc in
  if truthyNumber (throttle svc1) && negb (throttleKeypresses svc1)
     && match keyDownEventListenerThrottled svc1 with
        | Some _ => false
        | None => true
        end
  then TypeError svc1
  else if keyEq eventType (Some KEY_ENTER) && truthy (currentFocusKey (engine svc1))
  then Normal (KeyHandling.onEnterRelease svc1)
  else Normal svc1.

(** [smartNavigate] as the [onNavigate] handler, the default of
    [useFocusable]; a direction that is [undefined] equals none of the four
    direction names. *)
Definition smartNavigateHandler (climb fuel : nat)
    : Callback -> option string -> option string -> State -> option State :=
  fun _ key direction st =>
    smartNavigate climb fuel (propertyKey key)
      (match direction with Some d => d | None => "undefined" end) st.

(** *** The listeners on [window]

    [window] keeps, per event type, the listeners added and not removed.
    Every call of [bindEventHandlers] creates new closures; a closure is
    named by the number of the call that created it, and the throttled
    listener by the closure it wraps.  Removing a listener that was not
    added, or [null], does nothing. *)

Inductive KeydownListener : Type :=
| Plain (closure : nat)
| Throttled (closure : nat).

Definition sameListener (l1 l2 : KeydownListener) : bool :=
  match l1, l2 with
  | Plain n1, Plain n2 => Nat.eqb n1 n2
  | Throttled n1, Throttled n2 => Nat.eqb n1 n2
  | _, _ => false
  end.

Record Browser : Type := mkBrowser {
  service : Service;
  keydownListeners : list KeydownListener;
  keyupListeners : list nat;
  closures : nat
}.

Definition bindEventHandlers (b : Browser) : Browser :=
  let svc := service b in
  let closure := closures b in
  let throttled := truthyNumber (throttle svc) in
  mkBrowser
    (mkService (engine svc) (throttle svc) (throttleKeypresses svc)
       (pressedKeys svc) (paused svc) (Some closure)
       (if throttled then Some closure else keyDownEventListenerThrottled svc)
       (Some closure) (keyMap svc) (debug svc) (logIndex svc) (keyCallbacks svc))
    (keydownListeners b
       ++ [if throttled then Throttled closure else Plain closure])%list
    (keyupListeners b ++ [closure])%list
    (S closure).

Definition unbindEventHandlers (b : Browser) : Browser :=
  let svc := service b in
  let listener :=
    if truthyNumber (throttle svc)
    then option_map Throttled (keyDownEventListenerThrottled svc)
    else option_map Plain (keyDownEventListener svc) in
  mkBrowser
    (mkService (engine svc) (throttle svc) (throttleKeypresses svc)
       (pressedKeys svc) (paused svc) None (keyDownEventListenerThrottled svc)
       None (keyMap svc) (debug svc) (logIndex svc) (keyCallbacks svc))
    (match listener with
     | Some l => filter (fun l' => negb (sameListener l l')) (keydownListeners b)
     | None => keydownListeners b
     end)
    (match keyUpEventListener svc with
     | Some l => filter (fun l' => negb (Nat.eqb l l')) (keyupListeners b)
     | None => keyupListeners b
     end)
    (closures b).

(** The options of [init] and [setThrottle]; [visualDebug] is off. *)
Record Options : Type := mkOptions {
  opt_debug : bool;
  opt_throttle : Q;
  opt_throttleKeypresses : bool
}.

Definition init (options : Options) (b : Browser) : Browser :=
  let svc := service b in
  if negb (enabled (engine svc)) then
    let st := engine svc in
    bindEventHandlers
      (mkBrowser
         (mkService
            (mkState (focusableComponents st) (currentFocusKey st)
               (parentsHavingFocusedChild st) true (callbacks st) (measured st))
            (if isInteger (opt_throttle options)
                && (0 <? Qnum (opt_throttle options))%Z
             then opt_throttle options else throttle svc)
            (opt_throttleKeypresses options) (pressedKeys svc) (paused svc)
            (keyDownEventListener svc) (keyDownEventListenerThrottled svc)
            (keyUpEventListener svc) (keyMap svc) (opt_debug options)
            (logIndex svc) (keyCallbacks svc))
         (keydownListeners b) (keyupListeners b) (closures b))
  else b.

Definition destroy (b : Browser) : Browser :=
  let svc := service b in
  if enabled (engine svc) then
    let st := engine svc in
    unbindEventHandlers
      (mkBrowser
         (mkService (mkState [] None [] false (callbacks st) (measured st))
            0%Q false (pressedKeys svc) false
            (keyDownEventListener svc) (keyDownEventListenerThrottled svc)
            (keyUpEventListener svc) DEFAULT_KEY_MAP (debug svc)
            (logIndex svc) (keyCallbacks svc))
         (keydownListeners b) (keyupListeners b) (closures b))
  else b.

Definition setThrottle (options : Options) (b : Browser) : Browser :=
  let svc := service b in
  let b1 :=
    unbindEventHandlers
      (mkBrowser
         (mkService (engine svc) (throttle svc) (opt_throttleKeypresses options)
            (pressedKeys svc) (paused svc)
            (keyDownEventListener svc) (keyDownEventListenerThrottled svc)
            (keyUpEventListener svc) (keyMap svc) (debug svc)
            (logIndex svc) (keyCallbacks svc))
         (keydownListeners b) (keyupListeners b) (closures b)) in
  let svc1 := service b1 in
  bindEventHandlers
    (mkBrowser
       (mkService (engine svc1)
          (if isInteger (opt_throttle options)
           then opt_throttle options else throttle svc1)
          (throttleKeypresses svc1) (pressedKeys svc1) (paused svc1)
          (keyDownEventListener svc1) (keyDownEventListenerThrottled svc1)
          (keyUpEventListener svc1) (keyMap svc1) (debug svc1)
          (logIndex svc1) (keyCallbacks svc1))
       (keydownListeners b1) (keyupListeners b1) (closures b1)).

(** ** Further notions for the statements below *)

(** The key [getChildClosestToOrigin] sorts by. *)
Definition originDistance (c : FocusableComponent) : Z :=
  Z.abs (left (layout c)) + Z.abs (top (layout c)).

(** The state in which a walk of [smartNavigate] ends. *)
Definition stateOf (w : Walk) : State :=
  match w with
  | CallSetFocus _ _ st => st
  | Return st => st
  end.

(** Two states that differ at most in the [lastFocusedChildKey] of their
    components. *)
Definition sameButLastFocusedChild (st st' : State) : Prop :=
  map (with_lastFocusedChildKey None) (focusableComponents st')
  = map (with_lastFocusedChildKey None) (focusableComponents st)
  /\ currentFocusKey st' = currentFocusKey st
  /\ parentsHavingFocusedChild st' = parentsHavingFocusedChild st
  /\ enabled st' = enabled st
  /\ callbacks st' = callbacks st
  /\ measured st' = measured st.

(** One of the four direction names. *)
Definition isDirection (direction : string) : bool :=
  (direction =? DIRECTION_LEFT) || (direction =? DIRECTION_RIGHT)
  || (direction =? DIRECTION_UP) || (direction =? DIRECTION_DOWN).

(** The boxes of two layouts overlap on an area that is not empty. *)
Definition overlapping (l1 l2 : FocusableComponentLayout) : Prop :=
  left l1 < left l2 + width l2 /\ left l2 < left l1 + width l1
  /\ top l1 < top l2 + height l2 /\ top l2 < top l1 + height l1.

(** [properAncestor st k p]: the registered component [p] is reached from
    the registered component [k] by one or more [parentFocusKey] steps. *)
Definition properAncestor (st : State) (k p : string) : Prop :=
  exists c, getFocusableComponent k st = Some c
            /\ ancestorOrSelf st (parentFocusKey c) p
            /\ isFocusableComponent p st = true.

(** [onUpdateFocus] *)
Definition isUpdateFocus (e : Event) : bool :=
  match e with
  | EvUpdateFocus _ _ => true
  | _ => false
  end.

(** The layout a callback of the component is handed: the cached one when
    the flag is set, a fresh measurement otherwise. *)
Definition reportedLayout (c : FocusableComponent) : FocusableComponentLayout :=
  if layoutUpdated c then layout c
  else layoutOf (measureLayout (node c)) (node c).

(** A component after [updateLayout] on its key. *)
Definition remeasured (c : FocusableComponent) : FocusableComponent :=
  if layoutUpdated c then c
  else with_layout (layoutOf (measureLayout (node c)) (node c)) c.

(** The component as [addFocusable] first stores it, before measuring. *)
Definition asStored (d : FocusableComponent) : FocusableComponent :=
  mkComponent (focusKey d) (node d) (parentFocusKey d)
    (onEnterPress d) (onEnterRelease d) (onArrowPress d) (onFocus d) (onBlur d)
    (onNavigate d) (onUpdateFocus d) (onUpdateHasFocusedChild d)
    (saveLastFocusedChild d) (trackChildren d) (preferredChildFocusKey d)
    (focusable d) (isFocusBoundary d) (pointerSupport d) (autoRestoreFocus d)
    None (mkLayout 0 0 0 0 0 0 (node d)) false.

(** The component [addFocusable] leaves in the store for a descriptor: the
    fields of the descriptor, no last focused child, the measured layout,
    the flag off. *)
Definition asRegistered (d : FocusableComponent) : FocusableComponent :=
  mkComponent (focusKey d) (node d) (parentFocusKey d)
    (onEnterPress d) (onEnterRelease d) (onArrowPress d) (onFocus d) (onBlur d)
    (onNavigate d) (onUpdateFocus d) (onUpdateHasFocusedChild d)
    (saveLastFocusedChild d) (trackChildren d) (preferredChildFocusKey d)
    (focusable d) (isFocusBoundary d) (pointerSupport d) (autoRestoreFocus d)
    None (layoutOf (measureLayout (node d)) (node d)) false.

(** The state in which [addFocusable] compares the key with the focus key:
    the component is stored and measured. *)
Definition stored (d : FocusableComponent) (st : State) : State :=
  with_components
    (mutate (focusKey d)
       (with_layout (layoutOf (measureLayout (node d)) (node d)))
       (assign (asStored d) (focusableComponents st)))
    (logMeasure (node d) st).

(** The tree with the component of [d] in it. *)
Definition withRegistered (d : FocusableComponent) (st : State) : State :=
  with_components (assign (asRegistered d) (focusableComponents st)) st.

(** The payload that has the effect of [p1] followed by [p2]. *)
Definition thenUpdate (p1 p2 : FocusableComponentUpdatePayload)
    : FocusableComponentUpdatePayload :=
  mkUpdatePayload
    (match upd_node p2 with Some n => Some n | None => upd_node p1 end)
    (upd_preferredChildFocusKey p2) (upd_focusable p2) (upd_pointerSupport p2)
    (upd_isFocusBoundary p2) (upd_onEnterPress p2) (upd_onEnterRelease p2)
    (upd_onArrowPress p2) (upd_onFocus p2) (upd_onBlur p2) (upd_onNavigate p2).

(** The codes a [BackwardsCompatibleKeyMap] gives for a key. *)
Definition codesOf (value : Z + list Z) : list Z :=
  match value with
  | inl code => [code]
  | inr codes => codes
  end.


(** ** More concrete trees and services *)

(** Three leaves under one parent; "B" and "B2" lie in the same box, to the
    right of "A". *)
Definition tiedSiblings : State :=
  orInitial (run
    [ addFocusable 4 (descriptor "P" ROOT_FOCUS_KEY (elementAt 0 0 0 100 100));
      addFocusable 4 (descriptor "A" "P" (elementAt 1 0 0 10 10));
      addFocusable 4 (descriptor "B" "P" (elementAt 2 20 0 10 10));
      addFocusable 4 (descriptor "B2" "P" (elementAt 3 20 0 10 10)) ]
    initialState).

(** [focusOnB] once the focus was set on the key "late", which no component
    is registered under yet. *)
Definition focusOnLate : State := orInitial (setFocus 4 "late" focusOnB).

(** A running service on the tree [st]: not paused, the default key map, no
    key down. *)
Definition serving (st : State) : Service := with_engine st constructed.

(** A handler [onArrowPress] that answers [true], the default of
    [useFocusable]. *)
Definition arrowPressGoesOn : Callback -> string -> PressedKeys -> bool :=
  fun _ _ _ => true.

(** Key maps that give "left" the code 65, and a new key "back" the code 8. *)
Definition leftIs65 : BackwardsCompatibleKeyMap := [(DIRECTION_LEFT, inl 65)].

Definition backIs8 : BackwardsCompatibleKeyMap := [("back", inl 8)].

(** A page in which the service has just been constructed. *)
Definition freshBrowser : Browser := mkBrowser constructed [] [] 0.


(** * Theorems *)

(** ** lodash [sortBy] and [first] *)

Section SortBy.

Context {A : Type} (key : A -> Q).

Lemma keyLe_trans : forall e1 e2 e3,
  keyLe key e1 e2 -> keyLe key e2 e3 -> keyLe key e1 e3.
Proof. unfold keyLe; intros e1 e2 e3 H12 H23; eapply Qle_trans; eassumption. Qed.

Lemma insertBy_Permutation : forall e l, Permutation (insertBy key e l) (e :: l).
Proof.
  intros e l; induction l as [|h t IH]; simpl.
  - apply Permutation_refl.
  - destruct (Qle_bool (key e) (key h)).
    + apply Permutation_refl.
    + eapply perm_trans; [apply perm_skip, IH | apply perm_swap].
Qed.

Lemma sortBy_Permutation : forall l, Permutation (sortBy l key) l.
Proof.
  induction l as [|h t IH]; simpl.
  - constructor.
  - eapply perm_trans; [apply insertBy_Permutation | apply perm_skip, IH].
Qed.

Lemma insertBy_HdRel : forall e h l,
  HdRel (keyLe key) h l -> keyLe key h e -> HdRel (keyLe key) h (insertBy key e l).
Proof.
  intros e h l Hhd Hle; destruct l as [|h' t]; simpl.
  - constructor; exact Hle.
  - destruct (Qle_bool (key e) (key h')); constructor.
    + exact Hle.
    + inversion Hhd; assumption.
Qed.

Lemma insertBy_Sorted : forall e l,
  Sorted (keyLe key) l -> Sorted (keyLe key) (insertBy key e l).
Proof.
  intros e l Hs; induction Hs as [|h t Hs IH Hhd]; simpl.
  - repeat constructor.
  - destruct (Qle_bool (key e) (key h)) eqn:Hcmp.
    + constructor; [constructor; assumption|].
      constructor; apply Qle_bool_iff; exact Hcmp.
    + constructor; [exact IH|].
      apply insertBy_HdRel; [exact Hhd|].
      unfold keyLe. apply Qlt_le_weak, Qnot_le_lt.
      intro Hle; apply Qle_bool_iff in Hle; congruence.
Qed.

Lemma sortBy_Sorted : forall l, Sorted (keyLe key) (sortBy l key).
Proof.
  induction l as [|h t IH]; simpl.
  - constructor.
  - apply insertBy_Sorted, IH.
Qed.

Lemma sortBy_StronglySorted : forall l, StronglySorted (keyLe key) (sortBy l key).
Proof.
  intro l; apply Sorted_StronglySorted.
  - intros e1 e2 e3; apply keyLe_trans.
  - apply sortBy_Sorted.
Qed.

Lemma first_In : forall (l : list A) e, first l = Some e -> In e l.
Proof. intros [|h t] e H; inversion H; subst; left; reflexivity. Qed.

Lemma first_sortBy_In : forall l e, first (sortBy l key) = Some e -> In e l.
Proof.
  intros l e H. apply first_In in H.
  eapply Permutation_in; [apply sortBy_Permutation | exact H].
Qed.

Lemma first_sortBy_least : forall l e,
  first (sortBy l key) = Some e -> forall e', In e' l -> keyLe key e e'.
Proof.
  intros l e H e' Hin.
  pose proof (sortBy_StronglySorted l) as Hs.
  assert (Hin' : In e' (sortBy l key)).
  { eapply Permutation_in; [apply Permutation_sym, sortBy_Permutation | exact Hin]. }
  destruct (sortBy l key) as [|h t]; [discriminate|].
  inversion H; subst h.
  inversion Hs as [|? ? _ Hall]; subst.
  destruct Hin' as [<- | Hin'].
  - unfold keyLe; apply Qle_refl.
  - rewrite Forall_forall in Hall; apply Hall, Hin'.
Qed.

Lemma first_sortBy_None : forall l, first (sortBy l key) = None -> l = [].
Proof.
  intros l H. destruct l as [|h t]; [reflexivity|].
  pose proof (sortBy_Permutation (h :: t)) as Hp.
  destruct (sortBy (h :: t) key); [|discriminate].
  apply Permutation_nil in Hp; discriminate.
Qed.
End SortBy.

(** ** The ranking against its specification *)

Lemma getIsAdjacentSlice_spec : forall d origin candidate,
  getIsAdjacentSlice
    (getRefCorners (directionName d) false origin)
    (getRefCorners (directionName d) true candidate)
    (isVertical (directionName d))
  = spec_isAdjacent d origin candidate.
Proof.
  intros d origin candidate.
  apply eq_true_iff_eq.
  unfold getIsAdjacentSlice, spec_isAdjacent, ADJACENT_SLICE_THRESHOLD.
  rewrite Qle_bool_iff, Z.leb_le.
  unfold Qle, spec_overlap, spec_crossFar.
  destruct d; cbn -[Z.mul Z.max Z.min]; lia.
Qed.

Lemma getPrimaryAxisDistance_spec : forall d origin candidate,
  getPrimaryAxisDistance
    (getRefCorners (directionName d) false origin)
    (getRefCorners (directionName d) true candidate)
    (isVertical (directionName d))
  = spec_axisDistance d origin candidate.
Proof. intros d origin candidate; destruct d; reflexivity. Qed.

Lemma getSecondaryAxisDistance_spec : forall d origin candidate,
  getSecondaryAxisDistance
    (getRefCorners (directionName d) false origin)
    (getRefCorners (directionName d) true candidate)
    (isVertical (directionName d))
  = spec_crossDistance d origin candidate.
Proof. intros d origin candidate; destruct d; reflexivity. Qed.

Lemma priority_spec : forall d origin candidate,
  (priority (directionName d) origin candidate == spec_score d origin candidate)%Q.
Proof.
  intros d origin candidate.
  unfold priority, spec_score.
  rewrite getIsAdjacentSlice_spec.
  destruct (spec_isAdjacent d origin candidate);
    rewrite getPrimaryAxisDistance_spec, getSecondaryAxisDistance_spec;
    unfold MAIN_COORDINATE_WEIGHT, ADJACENT_SLICE_WEIGHT, DIAGONAL_SLICE_WEIGHT;
    unfold Qeq, Qdiv, Qmult, Qinv, inject_Z; cbn -[Z.mul Z.max Z.min Z.abs]; lia.
Qed.

(** C1.  For each of the four directions, every origin box and every list of
    candidate siblings: the code classifies a candidate as an adjacent slice
    exactly when its cross-axis overlap with the origin is at least 20% of
    the origin's cross-axis extent; the key it sorts by equals
    (primary * 5 + secondary + 1) / (5 if adjacent, else 1), with the axis and
    cross-axis distances swapped for a diagonal candidate; the result is a
    rearrangement of the candidates in ascending order of that score, and the
    candidate selected, the first one, has the least score. *)
Theorem sortSiblingsByPriority_ranking :
  forall (d : Direction) (origin : FocusableComponentLayout)
         (siblings : list FocusableComponent),
    let direction := directionName d in
    let sorted := sortSiblingsByPriority siblings origin direction in
    (forall s,
        getIsAdjacentSlice (getRefCorners direction false origin)
          (getRefCorners direction true (layout s)) (isVertical direction) = true
        <-> (20 * spec_crossExtent d origin
             <= 100 * spec_overlap d origin (layout s))%Z)
    /\ (forall s, (priority direction origin (layout s)
                   == spec_score d origin (layout s))%Q)
    /\ Permutation sorted siblings
    /\ StronglySorted
         (fun s1 s2 => (spec_score d origin (layout s1)
                        <= spec_score d origin (layout s2))%Q) sorted
    /\ (forall next, first sorted = Some next ->
          In next siblings
          /\ forall s, In s siblings ->
               (spec_score d origin (layout next)
                <= spec_score d origin (layout s))%Q)
    /\ (first sorted = None <-> siblings = []).
Proof.
  intros d origin siblings direction sorted; subst direction sorted.
  assert (Hkey : forall s1 s2,
             keyLe (fun s => priority (directionName d) origin (layout s)) s1 s2 ->
             (spec_score d origin (layout s1) <= spec_score d origin (layout s2))%Q).
  { intros s1 s2; unfold keyLe. rewrite !priority_spec; trivial. }
  unfold sortSiblingsByPriority.
  repeat split.
  - rewrite getIsAdjacentSlice_spec; unfold spec_isAdjacent; apply Z.leb_le.
  - rewrite getIsAdjacentSlice_spec; unfold spec_isAdjacent; apply Z.leb_le.
  - intro s; apply priority_spec.
  - apply sortBy_Permutation.
  - pose proof (sortBy_StronglySorted
                  (fun s => priority (directionName d) origin (layout s))
                  siblings) as Hs.
    induction Hs as [|h t Hs IH Hall]; constructor.
    + exact IH.
    + eapply Forall_impl; [|exact Hall]. intros s2; apply Hkey.
  - eapply first_sortBy_In; eassumption.
  - intros s Hin; apply Hkey.
    eapply first_sortBy_least; eassumption.
  - apply first_sortBy_None.
  - intros ->; reflexivity.
Qed.

(** The scenario of the specification, from A(0,0,10,10) towards the right:
    B(20,0,10,10) is an adjacent slice at primary distance 10, C(0,20,10,10)
    is diagonal, and B has the lower score. *)
Example scenario_ranking :
  let boxA := mkLayout 0 0 10 10 0 0 (elementAt 1 0 0 10 10) in
  let boxB := mkLayout 20 0 10 10 20 0 (elementAt 2 20 0 10 10) in
  let boxC := mkLayout 0 20 10 10 0 20 (elementAt 3 0 20 10 10) in
  spec_isAdjacent Right boxA boxB = true
  /\ spec_axisDistance Right boxA boxB = 10
  /\ spec_isAdjacent Right boxA boxC = false
  /\ (priority DIRECTION_RIGHT boxA boxB == 51 # 5)%Q
  /\ (priority DIRECTION_RIGHT boxA boxC == 61 # 1)%Q.
Proof. repeat split. Qed.

(** ** The component store *)

Lemma lookup_focusKey : forall key cs c, lookup key cs = Some c -> focusKey c = key.
Proof.
  intros key cs c H. unfold lookup in H. apply find_some in H.
  destruct H as [_ H]. apply String.eqb_eq; exact H.
Qed.

Lemma lookup_In : forall key cs c, lookup key cs = Some c -> In c cs.
Proof. intros key cs c H. unfold lookup in H. apply find_some in H; tauto. Qed.

Lemma lookup_mutate : forall key key' f cs,
  (forall c, focusKey (f c) = focusKey c) ->
  lookup key (mutate key' f cs)
  = option_map (fun c => if focusKey c =? key' then f c else c) (lookup key cs).
Proof.
  intros key key' f cs Hf. unfold lookup, mutate.
  induction cs as [|h t IH]; simpl; [reflexivity|].
  destruct (focusKey h =? key') eqn:Hk'; [rewrite Hf|];
    destruct (focusKey h =? key) eqn:Hk; simpl; try rewrite Hk'; auto.
Qed.

Lemma focusKey_with_lastFocusedChildKey : forall v c,
  focusKey (with_lastFocusedChildKey v c) = focusKey c.
Proof. reflexivity. Qed.

Lemma focusKey_with_layout : forall v c, focusKey (with_layout v c) = focusKey c.
Proof. reflexivity. Qed.

Lemma getFocusableComponent_saveLastFocusedChildKey : forall key p v st,
  getFocusableComponent key (saveLastFocusedChildKey (Some p) v st)
  = option_map
      (fun c => if focusKey c =? focusKey p then with_lastFocusedChildKey v c else c)
      (getFocusableComponent key st).
Proof.
  intros key p v st. unfold getFocusableComponent, saveLastFocusedChildKey; simpl.
  apply lookup_mutate, focusKey_with_lastFocusedChildKey.
Qed.

(** [saveLastFocusedChildKey] writes no parent pointer. *)
Lemma parent_saveLastFocusedChildKey : forall key pc v st,
  option_map parentFocusKey
    (getFocusableComponent key (saveLastFocusedChildKey pc v st))
  = option_map parentFocusKey (getFocusableComponent key st).
Proof.
  intros key [p|] v st; [|reflexivity].
  rewrite getFocusableComponent_saveLastFocusedChildKey.
  destruct (getFocusableComponent key st) as [c|]; simpl; [|reflexivity].
  destruct (focusKey c =? focusKey p); reflexivity.
Qed.

Lemma ancestorOrSelf_saveLastFocusedChildKey : forall pc v st k k',
  ancestorOrSelf (saveLastFocusedChildKey pc v st) k k' -> ancestorOrSelf st k k'.
Proof.
  intros pc v st k k' H.
  induction H as [k | k c k' Hc _ IH]; [constructor|].
  pose proof (parent_saveLastFocusedChildKey k pc v st) as Hp.
  rewrite Hc in Hp; simpl in Hp.
  destruct (getFocusableComponent k st) as [c0|] eqn:Hc0; [|discriminate].
  simpl in Hp; injection Hp as Hp.
  eapply ancestorOrSelf_parent; [exact Hc0|]. rewrite <- Hp; exact IH.
Qed.

(** ** [smartNavigate] *)

Lemma isNodeFocusable_true : forall dir from to,
  isNodeFocusable dir from to = true ->
  focusable to = true
  /\ focusKey to <> focusKey from
  /\ parentFocusKey to = parentFocusKey from
  /\ facingEdgeCheck dir (layout from) (layout to).
Proof.
  intros dir from to. unfold isNodeFocusable, facingEdgeCheck.
  destruct (focusable to); simpl; [|discriminate].
  destruct (String.eqb_spec (focusKey from) (focusKey to)) as [|Hk]; [discriminate|].
  destruct (String.eqb_spec (parentFocusKey from) (parentFocusKey to)) as [Hp|];
    simpl; [|discriminate].
  destruct (String.eqb_spec dir DIRECTION_LEFT).
  { rewrite Z.geb_le; intuition. }
  destruct (String.eqb_spec dir DIRECTION_RIGHT).
  { rewrite Z.leb_le; intuition. }
  destruct (String.eqb_spec dir DIRECTION_DOWN).
  { rewrite Z.geb_le; intuition. }
  destruct (String.eqb_spec dir DIRECTION_UP).
  { rewrite Z.geb_le; intuition. }
  discriminate.
Qed.

(** The candidates of one level of the walk. *)
Lemma first_sorted_sibling : forall dir from cs next,
  first (sortSiblingsByPriority
           (filter (fun n => isNodeFocusable dir from n) cs) (layout from) dir)
  = Some next ->
  In next cs /\ isNodeFocusable dir from next = true.
Proof.
  intros dir from cs next H.
  apply first_sortBy_In in H. apply filter_In in H. exact H.
Qed.

Lemma smartNavigateWalk_selects : forall climb key direction st from next st',
  smartNavigateWalk climb key direction st = Some (CallSetFocus from next st') ->
  ancestorOrSelf st key (focusKey from)
  /\ getFocusableComponent (focusKey from) st' = Some from
  /\ In next (focusableComponents st')
  /\ isNodeFocusable direction from next = true.
Proof.
  induction climb as [|climb IH]; intros key direction st from next st' H;
    simpl in H;
    destruct (getFocusableComponent key st) as [c|] eqn:Hc; try discriminate;
    destruct (isFocusBoundary c); try discriminate;
    destruct (first _) as [n|] eqn:Hfirst; try discriminate.
  - injection H as <- <- <-.
    apply first_sorted_sibling in Hfirst.
    pose proof (lookup_focusKey _ _ _ Hc) as Hk.
    split; [rewrite Hk; constructor|].
    split; [rewrite Hk; exact Hc | exact Hfirst].
  - injection H as <- <- <-.
    apply first_sorted_sibling in Hfirst.
    pose proof (lookup_focusKey _ _ _ Hc) as Hk.
    split; [rewrite Hk; constructor|].
    split; [rewrite Hk; exact Hc | exact Hfirst].
  - apply IH in H. destruct H as [Hanc Hrest].
    split; [|exact Hrest].
    eapply ancestorOrSelf_parent; [exact Hc|].
    eapply ancestorOrSelf_saveLastFocusedChildKey; exact Hanc.
Qed.

(** With an eligible sibling of the origin, the walk does not climb. *)
Lemma smartNavigateWalk_no_climb : forall climb key direction st c from next st',
  getFocusableComponent key st = Some c ->
  filter (fun n => isNodeFocusable direction c n) (focusableComponents st) <> [] ->
  smartNavigateWalk climb key direction st = Some (CallSetFocus from next st') ->
  from = c /\ st' = st.
Proof.
  intros climb key direction st c from next st' Hc Hne H.
  destruct climb; simpl in H; rewrite Hc in H;
    (destruct (isFocusBoundary c); [discriminate|]);
    (destruct (first _) as [n|] eqn:Hfirst;
     [injection H as <- _ <-; split; reflexivity
     | apply first_sortBy_None in Hfirst; contradiction]).
Qed.

(** C2, as amended.  Whenever [smartNavigate], started at any key of any
    tree, hands a component to [svc.setFocus], the component is registered
    and focusable, and, relative to the component the walk is rooted at when
    it makes that choice, it is a different component with the same parent
    that passes the facing-edge check of the direction, edges touching
    included.  That root of the walk is the origin itself when the origin
    has an eligible sibling, and otherwise an ancestor of the origin reached
    by climbing. *)
Theorem smartNavigate_selects_eligible_sibling :
  forall climb fuel key direction st fromComponent nextComponent st',
    smartNavigateWalk climb key direction st
    = Some (CallSetFocus fromComponent nextComponent st') ->
    smartNavigate climb fuel key direction st
    = setFocus fuel (focusKey nextComponent) st'
    /\ In nextComponent (focusableComponents st')
    /\ focusable nextComponent = true
    /\ focusKey nextComponent <> focusKey fromComponent
    /\ parentFocusKey nextComponent = parentFocusKey fromComponent
    /\ facingEdgeCheck direction (layout fromComponent) (layout nextComponent)
    /\ getFocusableComponent (focusKey fromComponent) st' = Some fromComponent
    /\ ancestorOrSelf st key (focusKey fromComponent)
    /\ (forall c,
          getFocusableComponent key st = Some c ->
          filter (fun n => isNodeFocusable direction c n)
            (focusableComponents st) <> [] ->
          fromComponent = c /\ st' = st).
Proof.
  intros climb fuel key direction st from next st' H.
  split; [unfold smartNavigate; rewrite H; reflexivity|].
  destruct (smartNavigateWalk_selects _ _ _ _ _ _ _ H)
    as (Hanc & Hfrom & Hin & Hok).
  apply isNodeFocusable_true in Hok.
  destruct Hok as (Hf & Hk & Hp & Hedge).
  repeat (split; [assumption|]).
  intros c Hc Hne. eapply smartNavigateWalk_no_climb; eassumption.
Qed.

(** C2 as stated fails once the walk climbs.  In [twoGroups] the leaf "A"
    of group "P1" has no sibling; moving right from "A" climbs to "P1" and
    hands "P2" to [setFocus].  "P2" does not share the parent of "A", and it
    fails the facing-edge check against "A", whose right edge (30) lies past
    the left edge of "P2" (20). *)
Lemma smartNavigate_climb_counterexample :
  exists origin fromComponent nextComponent st',
    getFocusableComponent "A" twoGroups = Some origin
    /\ smartNavigateWalk 1 "A" DIRECTION_RIGHT twoGroups
       = Some (CallSetFocus fromComponent nextComponent st')
    /\ focusKey fromComponent = "P1"
    /\ focusKey nextComponent = "P2"
    /\ parentFocusKey nextComponent <> parentFocusKey origin
    /\ ~ facingEdgeCheck DIRECTION_RIGHT (layout origin) (layout nextComponent).
Proof.
  do 4 eexists.
  split; [vm_compute; reflexivity|].
  split; [vm_compute; reflexivity|].
  split; [reflexivity|]. split; [reflexivity|].
  split; [discriminate|].
  unfold facingEdgeCheck; simpl.
  intros [[H _]|[[_ H]|[[H _]|[H _]]]]; try discriminate H. lia.
Qed.

Lemma smartNavigate_selects_eligible_sibling_witness :
  exists fromComponent nextComponent st',
    smartNavigateWalk 0 "A" DIRECTION_RIGHT threeSiblings
    = Some (CallSetFocus fromComponent nextComponent st')
    /\ focusKey fromComponent = "A"
    /\ focusKey nextComponent = "B"
    /\ parentFocusKey nextComponent = parentFocusKey fromComponent
    /\ facingEdgeCheck DIRECTION_RIGHT (layout fromComponent) (layout nextComponent).
Proof.
  do 3 eexists.
  assert (H : smartNavigateWalk 0 "A" DIRECTION_RIGHT threeSiblings
              = Some (CallSetFocus
                        (with_layout (layoutOf (mkRect 0 0 10 10 0 0)
                                        (elementAt 1 0 0 10 10))
                           (descriptor "A" "P" (elementAt 1 0 0 10 10)))
                        (with_layout (layoutOf (mkRect 20 0 10 10 20 0)
                                        (elementAt 2 20 0 10 10))
                           (descriptor "B" "P" (elementAt 2 20 0 10 10)))
                        threeSiblings)) by (vm_compute; reflexivity).
  split; [exact H|]. split; [reflexivity|]. split; [reflexivity|].
  destruct (smartNavigate_selects_eligible_sibling _ 4%nat _ _ _ _ _ _ H)
    as (_ & _ & _ & _ & Hparent & Hedge & _).
  split; [exact Hparent | exact Hedge].
Defined.

Lemma getFocusableComponent_saveLastFocusedChildKey_other : forall key p v st,
  key <> focusKey p ->
  getFocusableComponent key (saveLastFocusedChildKey (Some p) v st)
  = getFocusableComponent key st.
Proof.
  intros key p v st Hne.
  rewrite getFocusableComponent_saveLastFocusedChildKey.
  destruct (getFocusableComponent key st) as [c|] eqn:Hc; simpl; [|reflexivity].
  apply lookup_focusKey in Hc.
  destruct (String.eqb_spec (focusKey c) (focusKey p)); [congruence|reflexivity].
Qed.

Lemma smartNavigateWalk_unknown : forall climb key direction st,
  getFocusableComponent key st = None ->
  smartNavigateWalk climb key direction st = Some (Return st).
Proof. intros [|climb] key direction st H; simpl; rewrite H; reflexivity. Qed.

Lemma smartNavigateWalk_boundary : forall climb key direction st c,
  getFocusableComponent key st = Some c ->
  isFocusBoundary c = true ->
  smartNavigateWalk climb key direction st = Some (Return st).
Proof.
  intros [|climb] key direction st c H Hb; simpl; rewrite H, Hb; reflexivity.
Qed.

Lemma smartNavigateWalk_climb : forall climb key direction st c,
  getFocusableComponent key st = Some c ->
  isFocusBoundary c = false ->
  filter (fun n => isNodeFocusable direction c n) (focusableComponents st) = [] ->
  smartNavigateWalk (S climb) key direction st
  = smartNavigateWalk climb (parentFocusKey c) direction
      (saveLastFocusedChildKey (getFocusableComponent (parentFocusKey c) st)
         (Some (focusKey c)) st).
Proof.
  intros climb key direction st c H Hb Hnone.
  simpl. rewrite H, Hb, Hnone. reflexivity.
Qed.

Lemma smartNavigate_boundary : forall climb fuel key direction st c,
  getFocusableComponent key st = Some c ->
  isFocusBoundary c = true ->
  smartNavigate climb fuel key direction st = Some st.
Proof.
  intros climb fuel key direction st c H Hb. unfold smartNavigate.
  rewrite (smartNavigateWalk_boundary climb key direction st c H Hb). reflexivity.
Qed.

(** C10.  When the component at the origin key is a focus boundary,
    [smartNavigate] returns at once: the state it leaves is the state it
    found (current focus, every [lastFocusedChildKey], the callback log and
    all the rest), whatever the direction. *)
Theorem smartNavigate_at_focus_boundary :
  forall climb fuel key direction st c,
    getFocusableComponent key st = Some c ->
    isFocusBoundary c = true ->
    smartNavigateWalk climb key direction st = Some (Return st)
    /\ smartNavigate climb fuel key direction st = Some st.
Proof.
  intros climb fuel key direction st c H Hb. split.
  - eapply smartNavigateWalk_boundary; eassumption.
  - eapply smartNavigate_boundary; eassumption.
Qed.

Lemma smartNavigate_at_focus_boundary_witness :
  exists c,
    getFocusableComponent "P" boundaryGroup = Some c
    /\ isFocusBoundary c = true
    /\ smartNavigateWalk 0 "P" DIRECTION_RIGHT boundaryGroup
       = Some (Return boundaryGroup)
    /\ smartNavigate 0 3 "P" DIRECTION_RIGHT boundaryGroup = Some boundaryGroup.
Proof.
  eexists. split; [vm_compute; reflexivity|]. split; [reflexivity|].
  eapply smartNavigate_at_focus_boundary; [vm_compute; reflexivity | reflexivity].
Defined.

(** C3 as stated fails when the parent is a focus boundary: the move is not
    a no-op.  In [boundaryGroup] the leaf "A" has no sibling and its parent
    "P" is a boundary; moving left from "A" leaves the focus and the
    callback log alone but writes "A" into the [lastFocusedChildKey] of "P",
    which was [null]. *)
Lemma smartNavigate_boundary_parent_counterexample :
  exists origin p p' st',
    getFocusableComponent "A" boundaryGroup = Some origin
    /\ filter (fun n => isNodeFocusable DIRECTION_LEFT origin n)
         (focusableComponents boundaryGroup) = []
    /\ getFocusableComponent (parentFocusKey origin) boundaryGroup = Some p
    /\ isFocusBoundary p = true
    /\ lastFocusedChildKey p = None
    /\ smartNavigate 1 1 "A" DIRECTION_LEFT boundaryGroup = Some st'
    /\ getFocusableComponent (parentFocusKey origin) st' = Some p'
    /\ lastFocusedChildKey p' = Some "A"
    /\ st' <> boundaryGroup.
Proof.
  do 4 eexists.
  split; [vm_compute; reflexivity|].
  split; [vm_compute; reflexivity|].
  split; [vm_compute; reflexivity|].
  split; [reflexivity|]. split; [reflexivity|].
  split; [vm_compute; reflexivity|].
  split; [vm_compute; reflexivity|].
  split; [reflexivity|].
  intro H. apply (f_equal (getFocusableComponent "P")) in H.
  vm_compute in H. discriminate H.
Qed.

(** C3, as amended.  When the origin is registered, is not a boundary and
    has no eligible sibling: if its parent is registered, the origin's key is
    written into the parent's [lastFocusedChildKey] and nothing else in the
    state changes by that write; then, if the parent is not a focus boundary,
    the whole algorithm runs again rooted at the parent with the same
    direction, and if the parent is a focus boundary the move ends there,
    with the focus and the callback log untouched.  If the parent is not
    registered the move is a no-op on the whole state. *)
Theorem smartNavigate_no_eligible_sibling :
  forall climb fuel key direction st c,
    getFocusableComponent key st = Some c ->
    isFocusBoundary c = false ->
    filter (fun n => isNodeFocusable direction c n) (focusableComponents st) = [] ->
    let parentComponent := getFocusableComponent (parentFocusKey c) st in
    let st' := saveLastFocusedChildKey parentComponent (Some (focusKey c)) st in
    (forall p, parentComponent = Some p ->
       getFocusableComponent (parentFocusKey c) st'
       = Some (with_lastFocusedChildKey (Some (focusKey c)) p)
       /\ (forall k, k <> parentFocusKey c ->
             getFocusableComponent k st' = getFocusableComponent k st)
       /\ currentFocusKey st' = currentFocusKey st
       /\ parentsHavingFocusedChild st' = parentsHavingFocusedChild st
       /\ callbacks st' = callbacks st
       /\ measured st' = measured st
       /\ (isFocusBoundary p = false ->
             smartNavigateWalk (S climb) key direction st
             = smartNavigateWalk climb (parentFocusKey c) direction st'
             /\ smartNavigate (S climb) fuel key direction st
                = smartNavigate climb fuel (parentFocusKey c) direction st')
       /\ (isFocusBoundary p = true ->
             smartNavigate (S climb) fuel key direction st = Some st'))
    /\ (parentComponent = None ->
          smartNavigate (S climb) fuel key direction st = Some st).
Proof.
  intros climb fuel key direction st c Hc Hb Hnone parentComponent st'.
  pose proof (smartNavigateWalk_climb climb key direction st c Hc Hb Hnone) as Hw.
  fold parentComponent in Hw. fold st' in Hw.
  assert (Hnav : smartNavigate (S climb) fuel key direction st
                 = smartNavigate climb fuel (parentFocusKey c) direction st').
  { unfold smartNavigate. rewrite Hw. reflexivity. }
  split.
  - intros p Hp.
    pose proof (lookup_focusKey _ _ _ Hp) as Hpk.
    assert (Est : st' = saveLastFocusedChildKey (Some p) (Some (focusKey c)) st).
    { unfold st'. rewrite Hp. reflexivity. }
    assert (Hp' : getFocusableComponent (parentFocusKey c) st'
                  = Some (with_lastFocusedChildKey (Some (focusKey c)) p)).
    { rewrite Est, getFocusableComponent_saveLastFocusedChildKey.
      fold parentComponent. rewrite Hp. simpl. rewrite String.eqb_refl. reflexivity. }
    split; [exact Hp'|].
    split.
    { intros k Hk. rewrite Est.
      apply getFocusableComponent_saveLastFocusedChildKey_other. congruence. }
    do 4 (split; [rewrite Est; reflexivity|]).
    split; [intros _; split; [exact Hw | exact Hnav]|].
    intro Hpb. rewrite Hnav.
    eapply smartNavigate_boundary; [exact Hp'| exact Hpb].
  - intro Hp. rewrite Hnav. unfold st'. rewrite Hp. simpl.
    unfold smartNavigate.
    rewrite (smartNavigateWalk_unknown climb _ direction st Hp). reflexivity.
Qed.

Lemma smartNavigate_no_eligible_sibling_witness :
  exists c st',
    getFocusableComponent "A" boundaryGroup = Some c
    /\ isFocusBoundary c = false
    /\ filter (fun n => isNodeFocusable DIRECTION_LEFT c n)
         (focusableComponents boundaryGroup) = []
    /\ getFocusableComponent (parentFocusKey c) st'
       = option_map (with_lastFocusedChildKey (Some "A"))
           (getFocusableComponent "P" boundaryGroup)
    /\ smartNavigate 1 1 "A" DIRECTION_LEFT boundaryGroup = Some st'.
Proof.
  eexists. eexists.
  split; [vm_compute; reflexivity|]. split; [reflexivity|].
  split; [reflexivity|].
  destruct (smartNavigate_no_eligible_sibling 0 1 "A" DIRECTION_LEFT boundaryGroup
              _ eq_refl eq_refl eq_refl) as [Hsome _].
  destruct (Hsome _ eq_refl) as (Hp' & _ & _ & _ & _ & _ & _ & Hbound).
  split; [exact Hp' | exact (Hbound eq_refl)].
Defined.

(** The scenarios of the specification: from "A", moving right focuses "B";
    from "B", moving left focuses "A". *)
Example scenario_right_then_left :
  exists st1 st2 st3,
    setFocus 4 "A" threeSiblings = Some st1
    /\ smartNavigate 1 4 "A" DIRECTION_RIGHT st1 = Some st2
    /\ currentFocusKey st2 = Some "B"
    /\ smartNavigate 1 4 "B" DIRECTION_LEFT st2 = Some st3
    /\ currentFocusKey st3 = Some "A".
Proof.
  do 3 eexists.
  split; [vm_compute; reflexivity|].
  split; [vm_compute; reflexivity|]. split; [reflexivity|].
  split; [vm_compute; reflexivity|]. reflexivity.
Qed.

(** ** More on the component store *)

Lemma lookup_map : forall key g cs,
  (forall c, focusKey (g c) = focusKey c) ->
  lookup key (map g cs) = option_map g (lookup key cs).
Proof.
  intros key g cs Hg. unfold lookup.
  induction cs as [|h t IH]; simpl; [reflexivity|].
  rewrite Hg. destruct (focusKey h =? key); [reflexivity | exact IH].
Qed.

Lemma lookup_mutate_same : forall key f cs,
  (forall c, focusKey (f c) = focusKey c) ->
  lookup key (mutate key f cs) = option_map f (lookup key cs).
Proof.
  intros key f cs Hf. rewrite lookup_mutate by exact Hf.
  destruct (lookup key cs) as [c|] eqn:Hc; simpl; [|reflexivity].
  apply lookup_focusKey in Hc. rewrite Hc, String.eqb_refl. reflexivity.
Qed.

Lemma lookup_mutate_other : forall key key' f cs,
  (forall c, focusKey (f c) = focusKey c) ->
  key <> key' ->
  lookup key (mutate key' f cs) = lookup key cs.
Proof.
  intros key key' f cs Hf Hne. rewrite lookup_mutate by exact Hf.
  destruct (lookup key cs) as [c|] eqn:Hc; simpl; [|reflexivity].
  apply lookup_focusKey in Hc.
  destruct (String.eqb_spec (focusKey c) key'); [congruence | reflexivity].
Qed.

Lemma lookup_deleteKey_same : forall key cs, lookup key (deleteKey key cs) = None.
Proof.
  intros key cs. unfold lookup, deleteKey.
  induction cs as [|h t IH]; simpl; [reflexivity|].
  destruct (focusKey h =? key) eqn:Hk; simpl; [exact IH|].
  rewrite Hk. exact IH.
Qed.

Lemma lookup_deleteKey_other : forall key key' cs,
  key <> key' -> lookup key (deleteKey key' cs) = lookup key cs.
Proof.
  intros key key' cs Hne. unfold lookup, deleteKey.
  induction cs as [|h t IH]; simpl; [reflexivity|].
  destruct (String.eqb_spec (focusKey h) key') as [Hk'|Hk']; simpl.
  - destruct (String.eqb_spec (focusKey h) key); [congruence | exact IH].
  - destruct (focusKey h =? key); [reflexivity | exact IH].
Qed.

(** ** [updateLayout] *)

Lemma updateLayout_unknown : forall key st,
  getFocusableComponent key st = None -> updateLayout key st = st.
Proof. intros key st H. unfold updateLayout. rewrite H. reflexivity. Qed.

Lemma updateLayout_flagged : forall key st c,
  getFocusableComponent key st = Some c ->
  layoutUpdated c = true ->
  updateLayout key st = st.
Proof. intros key st c H Hf. unfold updateLayout. rewrite H, Hf. reflexivity. Qed.

Lemma updateLayout_measures : forall key st c,
  getFocusableComponent key st = Some c ->
  layoutUpdated c = false ->
  updateLayout key st
  = with_components
      (mutate key (with_layout (layoutOf (measureLayout (node c)) (node c)))
         (focusableComponents st))
      (logMeasure (node c) st).
Proof. intros key st c H Hf. unfold updateLayout. rewrite H, Hf. reflexivity. Qed.

(** C9 as stated fails: [updateLayout] never marks the cache valid.  In
    [threeSiblings] the layout of "A" has just been measured by
    [addFocusable]; its flag is still off, and two further calls of
    [updateLayout] query the provider two more times for the same node.
    Within the single call [setFocus("P")] the node of "A" (element 1) is
    measured twice: once among the children of "P", once more for its
    [onFocus] callback. *)
Lemma updateLayout_never_valid_counterexample :
  exists c c' st',
    getFocusableComponent "A" threeSiblings = Some c
    /\ layoutUpdated c = false
    /\ getFocusableComponent "A" (updateLayout "A" threeSiblings) = Some c'
    /\ layoutUpdated c' = false
    /\ measured (updateLayout "A" (updateLayout "A" threeSiblings))
       = node c :: node c :: measured threeSiblings
    /\ setFocus 4 "P" threeSiblings = Some st'
    /\ map elementId (measured st')
       = ([0; 1; 3; 2; 1] ++ map elementId (measured threeSiblings))%nat%list.
Proof.
  do 3 eexists.
  split; [vm_compute; reflexivity|]. split; [reflexivity|].
  split; [vm_compute; reflexivity|]. split; [reflexivity|].
  split; [vm_compute; reflexivity|].
  split; [vm_compute; reflexivity|]. reflexivity.
Qed.

(** C9, as amended.  [updateLayout] leaves the state alone, and makes no
    query, when the key is not registered or the component's
    [layoutUpdated] flag is set.  Otherwise it queries the layout provider
    exactly once for the component's node and stores the answer, with the
    node, as the component's layout; it changes nothing else, the flag
    included, so that the next call queries the provider again. *)
Theorem updateLayout_queries_unless_flagged :
  forall key st,
    (getFocusableComponent key st = None -> updateLayout key st = st)
    /\ (forall c, getFocusableComponent key st = Some c ->
          layoutUpdated c = true -> updateLayout key st = st)
    /\ (forall c, getFocusableComponent key st = Some c ->
          layoutUpdated c = false ->
          let st' := updateLayout key st in
          let c' := with_layout (layoutOf (measureLayout (node c)) (node c)) c in
          measured st' = node c :: measured st
          /\ getFocusableComponent key st' = Some c'
          /\ layoutUpdated c' = false
          /\ (forall k, k <> key ->
                getFocusableComponent k st' = getFocusableComponent k st)
          /\ currentFocusKey st' = currentFocusKey st
          /\ parentsHavingFocusedChild st' = parentsHavingFocusedChild st
          /\ enabled st' = enabled st
          /\ callbacks st' = callbacks st
          /\ measured (updateLayout key st') = node c :: node c :: measured st).
Proof.
  intros key st.
  split; [apply updateLayout_unknown|].
  split; [apply updateLayout_flagged|].
  intros c Hc Hf st' c'.
  assert (Hst' : st' = with_components
                         (mutate key (with_layout (layoutOf (measureLayout (node c)) (node c)))
                            (focusableComponents st))
                         (logMeasure (node c) st))
    by (apply updateLayout_measures; assumption).
  assert (Hc' : getFocusableComponent key st' = Some c').
  { rewrite Hst'. unfold getFocusableComponent; simpl.
    rewrite lookup_mutate_same by apply focusKey_with_layout.
    unfold getFocusableComponent in Hc. rewrite Hc. reflexivity. }
  split; [rewrite Hst'; reflexivity|].
  split; [exact Hc'|].
  split; [exact Hf|].
  split.
  { intros k Hk. rewrite Hst'. unfold getFocusableComponent; simpl.
    apply lookup_mutate_other; [apply focusKey_with_layout | exact Hk]. }
  do 4 (split; [rewrite Hst'; reflexivity|]).
  rewrite (updateLayout_measures key st' c' Hc' Hf). simpl.
  rewrite Hst'. reflexivity.
Qed.

Lemma updateLayout_queries_unless_flagged_witness :
  exists c,
    getFocusableComponent "B" threeSiblings = Some c
    /\ layoutUpdated c = false
    /\ measured (updateLayout "B" threeSiblings) = node c :: measured threeSiblings.
Proof.
  eexists. split; [vm_compute; reflexivity|]. split; [reflexivity|].
  destruct (updateLayout_queries_unless_flagged "B" threeSiblings) as (_ & _ & H).
  destruct (H _ eq_refl eq_refl) as (Hm & _). exact Hm.
Defined.

(** ** [updateFocusable] *)

Lemma focusKey_applyUpdate : forall p c, focusKey (applyUpdate p c) = focusKey c.
Proof. reflexivity. Qed.

(** C8, as amended.  On a registered key, [updateFocusable] overwrites
    [preferredChildFocusKey], [focusable], [isFocusBoundary] and the six
    callbacks [onEnterPress], [onEnterRelease], [onArrowPress], [onFocus],
    [onBlur], [onNavigate] with what the payload holds, an absent
    [preferredChildFocusKey] included; [node] is replaced only when the
    payload supplies one.  Every other field of the component, every other
    component and the rest of the state are preserved.  On an unregistered
    key nothing changes. *)
Theorem updateFocusable_overwrites_payload_fields :
  forall key p st,
    (getFocusableComponent key st = None -> updateFocusable key p st = st)
    /\ (forall c, getFocusableComponent key st = Some c ->
          let st' := updateFocusable key p st in
          exists c',
            getFocusableComponent key st' = Some c'
            /\ preferredChildFocusKey c' = upd_preferredChildFocusKey p
            /\ focusable c' = upd_focusable p
            /\ isFocusBoundary c' = upd_isFocusBoundary p
            /\ onEnterPress c' = upd_onEnterPress p
            /\ onEnterRelease c' = upd_onEnterRelease p
            /\ onArrowPress c' = upd_onArrowPress p
            /\ onFocus c' = upd_onFocus p
            /\ onBlur c' = upd_onBlur p
            /\ onNavigate c' = upd_onNavigate p
            /\ node c' = match upd_node p with Some n => n | None => node c end
            /\ focusKey c' = focusKey c
            /\ parentFocusKey c' = parentFocusKey c
            /\ onUpdateFocus c' = onUpdateFocus c
            /\ onUpdateHasFocusedChild c' = onUpdateHasFocusedChild c
            /\ saveLastFocusedChild c' = saveLastFocusedChild c
            /\ trackChildren c' = trackChildren c
            /\ pointerSupport c' = pointerSupport c
            /\ autoRestoreFocus c' = autoRestoreFocus c
            /\ lastFocusedChildKey c' = lastFocusedChildKey c
            /\ layout c' = layout c
            /\ layoutUpdated c' = layoutUpdated c
            /\ (forall k, k <> key ->
                  getFocusableComponent k st' = getFocusableComponent k st)
            /\ currentFocusKey st' = currentFocusKey st
            /\ parentsHavingFocusedChild st' = parentsHavingFocusedChild st
            /\ enabled st' = enabled st
            /\ callbacks st' = callbacks st
            /\ measured st' = measured st).
Proof.
  intros key p st. split.
  - intro H. unfold updateFocusable. rewrite H. reflexivity.
  - intros c Hc st'.
    assert (Hst' : st' = with_components
                           (mutate key (applyUpdate p) (focusableComponents st)) st).
    { unfold st', updateFocusable. rewrite Hc. reflexivity. }
    exists (applyUpdate p c).
    split.
    { rewrite Hst'. unfold getFocusableComponent; simpl.
      rewrite lookup_mutate_same by apply focusKey_applyUpdate.
      unfold getFocusableComponent in Hc. rewrite Hc. reflexivity. }
    do 21 (split; [reflexivity|]).
    split.
    { intros k Hk. rewrite Hst'. unfold getFocusableComponent; simpl.
      apply lookup_mutate_other; [apply focusKey_applyUpdate | exact Hk]. }
    rewrite Hst'. repeat split.
Qed.

(** C8 as stated fails: a field left out of the payload is cleared.  The
    group "P" of [preferredGroup] prefers its child "C"; an update whose
    payload has no [preferredChildFocusKey] leaves "P" without a preferred
    child. *)
Lemma updateFocusable_clears_omitted_counterexample :
  exists c c',
    getFocusableComponent "P" preferredGroup = Some c
    /\ preferredChildFocusKey c = Some "C"
    /\ upd_preferredChildFocusKey updateWithoutPreferredChild = None
    /\ getFocusableComponent "P"
         (updateFocusable "P" updateWithoutPreferredChild preferredGroup) = Some c'
    /\ preferredChildFocusKey c' = None.
Proof.
  do 2 eexists.
  split; [vm_compute; reflexivity|]. split; [reflexivity|].
  split; [reflexivity|].
  split; [vm_compute; reflexivity|]. reflexivity.
Qed.

Lemma updateFocusable_overwrites_payload_fields_witness :
  exists c c',
    getFocusableComponent "P" preferredGroup = Some c
    /\ getFocusableComponent "P"
         (updateFocusable "P" updateWithoutPreferredChild preferredGroup) = Some c'
    /\ node c' = node c
    /\ lastFocusedChildKey c' = lastFocusedChildKey c
    /\ layout c' = layout c.
Proof.
  destruct (updateFocusable_overwrites_payload_fields "P"
              updateWithoutPreferredChild preferredGroup) as [_ H].
  eexists.
  destruct (H _ ltac:(vm_compute; reflexivity)) as (c' & Hc' & Hrest).
  exists c'. split; [vm_compute; reflexivity|]. split; [exact Hc'|].
  destruct Hrest as (_ & _ & _ & _ & _ & _ & _ & _ & _ & Hnode & _ & _ & _ & _
                     & _ & _ & _ & _ & Hlast & Hlayout & _).
  repeat split; assumption.
Defined.

(** ** [removeFocusable] *)

Lemma with_parentFocusKey_same : forall d, with_parentFocusKey (parentFocusKey d) d = d.
Proof. intros []; reflexivity. Qed.

Lemma with_lastFocusedChildKey_same : forall d,
  with_lastFocusedChildKey (lastFocusedChildKey d) d = d.
Proof. intros []; reflexivity. Qed.

Lemma afterRemoval_untouched : forall key c d,
  (parentFocusKey d =? key) && focusable d = false ->
  (focusKey d =? parentFocusKey c) && keyEq (lastFocusedChildKey d) (Some key) = false ->
  afterRemoval key c d = d.
Proof.
  intros key c d H1 H2. unfold afterRemoval. rewrite H1, H2.
  rewrite with_lastFocusedChildKey_same. apply with_parentFocusKey_same.
Qed.

(** The store after the deletion, the clearing in the parent and the
    re-parenting loop, read at a key other than the removed one. *)
Lemma lookup_after_removal : forall key c cs k,
  k <> key ->
  lookup k
    (map (fun component =>
            if (parentFocusKey component =? key) && focusable component
            then with_parentFocusKey (parentFocusKey c) component
            else component)
       (match lookup (parentFocusKey c) (deleteKey key cs) with
        | Some p =>
          if keyEq (lastFocusedChildKey p) (Some key)
          then mutate (focusKey p) (with_lastFocusedChildKey None) (deleteKey key cs)
          else deleteKey key cs
        | None => deleteKey key cs
        end))
  = option_map (afterRemoval key c) (lookup k cs).
Proof.
  intros key c cs k Hk.
  rewrite lookup_map by (intro d; destruct (_ && _); reflexivity).
  pose proof (lookup_deleteKey_other k key cs Hk) as Hdel.
  destruct (lookup (parentFocusKey c) (deleteKey key cs)) as [p|] eqn:Hp.
  - pose proof (lookup_focusKey _ _ _ Hp) as Hpk.
    destruct (keyEq (lastFocusedChildKey p) (Some key)) eqn:Hlast.
    + rewrite lookup_mutate by apply focusKey_with_lastFocusedChildKey.
      rewrite Hdel.
      destruct (lookup k cs) as [d|] eqn:Hd; simpl; [|reflexivity].
      pose proof (lookup_focusKey _ _ _ Hd) as Hdk.
      unfold afterRemoval. rewrite Hpk.
      destruct (String.eqb_spec (focusKey d) (parentFocusKey c)) as [E|E]; simpl.
      * assert (p = d) by (rewrite <- E, Hdk, Hdel in Hp; congruence). subst p.
        rewrite Hlast. destruct (_ && _); reflexivity.
      * rewrite with_lastFocusedChildKey_same.
        destruct (_ && _); rewrite ?with_parentFocusKey_same; reflexivity.
    + rewrite Hdel.
      destruct (lookup k cs) as [d|] eqn:Hd; simpl; [|reflexivity].
      pose proof (lookup_focusKey _ _ _ Hd) as Hdk.
      unfold afterRemoval.
      destruct (String.eqb_spec (focusKey d) (parentFocusKey c)) as [E|E]; simpl.
      * assert (p = d) by (rewrite <- E, Hdk, Hdel in Hp; congruence). subst p.
        rewrite Hlast, with_lastFocusedChildKey_same.
        destruct (_ && _); rewrite ?with_parentFocusKey_same; reflexivity.
      * rewrite with_lastFocusedChildKey_same.
        destruct (_ && _); rewrite ?with_parentFocusKey_same; reflexivity.
  - rewrite Hdel.
    destruct (lookup k cs) as [d|] eqn:Hd; simpl; [|reflexivity].
    pose proof (lookup_focusKey _ _ _ Hd) as Hdk.
    unfold afterRemoval.
    destruct (String.eqb_spec (focusKey d) (parentFocusKey c)) as [E|E]; simpl.
    + rewrite <- E, Hdk, Hdel in Hp. congruence.
    + rewrite with_lastFocusedChildKey_same.
      destruct (_ && _); rewrite ?with_parentFocusKey_same; reflexivity.
Qed.

Lemma lookup_removed : forall key c cs,
  lookup key
    (map (fun component =>
            if (parentFocusKey component =? key) && focusable component
            then with_parentFocusKey (parentFocusKey c) component
            else component)
       (match lookup (parentFocusKey c) (deleteKey key cs) with
        | Some p =>
          if keyEq (lastFocusedChildKey p) (Some key)
          then mutate (focusKey p) (with_lastFocusedChildKey None) (deleteKey key cs)
          else deleteKey key cs
        | None => deleteKey key cs
        end))
  = None.
Proof.
  intros key c cs.
  rewrite lookup_map by (intro d; destruct (_ && _); reflexivity).
  destruct (lookup (parentFocusKey c) (deleteKey key cs)) as [p|];
    [destruct (keyEq _ _)|];
    try rewrite lookup_mutate by apply focusKey_with_lastFocusedChildKey;
    rewrite lookup_deleteKey_same; reflexivity.
Qed.

(** C7 as stated fails: only the former parent forgets the removed node.
    In [reRegistered] the group "P1" still remembers "n" as its last focused
    child while "n" is registered under "P2"; removing "n" leaves that
    [lastFocusedChildKey] of "P1" in place. *)
Lemma removeFocusable_stale_lastFocusedChild_counterexample :
  exists n p1 st' p1',
    getFocusableComponent "n" reRegistered = Some n
    /\ parentFocusKey n = "P2"
    /\ getFocusableComponent "P1" reRegistered = Some p1
    /\ lastFocusedChildKey p1 = Some "n"
    /\ removeFocusable 4 "n" reRegistered = Some st'
    /\ getFocusableComponent "n" st' = None
    /\ getFocusableComponent "P1" st' = Some p1'
    /\ lastFocusedChildKey p1' = Some "n".
Proof.
  do 4 eexists.
  split; [vm_compute; reflexivity|]. split; [reflexivity|].
  split; [vm_compute; reflexivity|]. split; [reflexivity|].
  split; [vm_compute; reflexivity|]. split; [reflexivity|].
  split; [vm_compute; reflexivity|]. reflexivity.
Qed.

(** C7, as amended.  Removing a registered node [n] leaves a tree in which
    [n] is gone, every focusable child of [n] has [n]'s former parent as its
    parent, the former parent's [lastFocusedChildKey] is cleared if it named
    [n], and every other field of every other component, every other
    [lastFocusedChildKey] included, is as before; no callback fires in
    getting there.  If [n] held the current focus and its former parent is
    registered with [autoRestoreFocus], [setFocus] is then called on that
    parent; otherwise the removal ends there. *)
Theorem removeFocusable_reparents_and_clears_parent :
  forall fuel key st c,
    getFocusableComponent key st = Some c ->
    exists st3,
      getFocusableComponent key st3 = None
      /\ (forall k, k <> key ->
            getFocusableComponent k st3
            = option_map (afterRemoval key c) (getFocusableComponent k st))
      /\ currentFocusKey st3 = currentFocusKey st
      /\ parentsHavingFocusedChild st3 = parentsHavingFocusedChild st
      /\ enabled st3 = enabled st
      /\ callbacks st3 = callbacks st
      /\ measured st3 = measured st
      /\ removeFocusable fuel key st
         = if restoresFocus key c st
           then setFocus fuel (parentFocusKey c) st3
           else Some st3.
Proof.
  intros fuel key st c Hc.
  unfold removeFocusable. rewrite Hc. cbv zeta.
  set (cs := focusableComponents st).
  pose proof (lookup_after_removal key c cs) as Hother.
  pose proof (lookup_removed key c cs) as Hgone.
  assert (Hrestore :
            restoresFocus key c st
            = keyEq (Some key) (currentFocusKey st)
              && match lookup (parentFocusKey c) (deleteKey key cs) with
                 | Some p => autoRestoreFocus p
                 | None => false
                 end).
  { unfold restoresFocus, getFocusableComponent. fold cs.
    destruct (String.eqb_spec (parentFocusKey c) key) as [E|E].
    - rewrite E, lookup_deleteKey_same. cbn [negb]. rewrite andb_false_r. reflexivity.
    - rewrite (lookup_deleteKey_other _ _ cs E). cbn [negb].
      rewrite andb_true_r. reflexivity. }
  rewrite Hrestore.
  change (getFocusableComponent (parentFocusKey c)
            (with_components (deleteKey key cs) st))
    with (lookup (parentFocusKey c) (deleteKey key cs)).
  set (reparent := fun component =>
                      if (parentFocusKey component =? key) && focusable component
                      then with_parentFocusKey (parentFocusKey c) component
                      else component) in *.
  destruct (lookup (parentFocusKey c) (deleteKey key cs)) as [p|];
    [destruct (keyEq (lastFocusedChildKey p) (Some key))|].
  - exists (with_components
              (map reparent
                 (mutate (focusKey p) (with_lastFocusedChildKey None)
                    (deleteKey key cs))) st).
    split; [exact Hgone|]. split; [exact Hother|].
    do 5 (split; [reflexivity|]). reflexivity.
  - exists (with_components (map reparent (deleteKey key cs)) st).
    split; [exact Hgone|]. split; [exact Hother|].
    do 5 (split; [reflexivity|]). reflexivity.
  - exists (with_components (map reparent (deleteKey key cs)) st).
    split; [exact Hgone|]. split; [exact Hother|].
    do 5 (split; [reflexivity|]). rewrite andb_false_r. reflexivity.
Qed.

(** Removing the focused leaf "b" of [focusOnB], whose group restores focus. *)
Lemma removeFocusable_reparents_and_clears_parent_witness :
  exists c st3,
    getFocusableComponent "b" focusOnB = Some c
    /\ getFocusableComponent "b" st3 = None
    /\ getFocusableComponent "a" st3 = getFocusableComponent "a" focusOnB
    /\ removeFocusable 4 "b" focusOnB = setFocus 4 "X" st3.
Proof.
  assert (Hc : getFocusableComponent "b" focusOnB
               = Some (with_layout (layoutOf (mkRect 20 0 10 10 20 0)
                                      (elementAt 3 20 0 10 10))
                         (descriptor "b" "X" (elementAt 3 20 0 10 10))))
    by (vm_compute; reflexivity).
  destruct (removeFocusable_reparents_and_clears_parent 4 "b" focusOnB _ Hc)
    as (st3 & Hgone & Hother & _ & _ & _ & _ & _ & Hres).
  eexists. exists st3.
  split; [exact Hc|]. split; [exact Hgone|].
  split.
  - rewrite (Hother "a") by discriminate. vm_compute. reflexivity.
  - exact Hres.
Defined.

(** ** Trees up to cached layouts *)

Lemma focusKey_eraseLayout : forall g c,
  eraseLayout (g c) = eraseLayout c -> focusKey (g c) = focusKey c.
Proof. intros g c H. apply (f_equal focusKey) in H. exact H. Qed.

Lemma focusable_eraseLayout : forall c1 c,
  eraseLayout c1 = eraseLayout c -> focusable c1 = focusable c.
Proof. intros c1 c H. apply (f_equal focusable) in H. exact H. Qed.

Lemma parentFocusKey_eraseLayout : forall c1 c,
  eraseLayout c1 = eraseLayout c -> parentFocusKey c1 = parentFocusKey c.
Proof. intros c1 c H. apply (f_equal parentFocusKey) in H. exact H. Qed.

Lemma sameTree_refl : forall st, sameTree st st.
Proof.
  intro st. split; [|repeat split].
  exists (fun c => c). split; [reflexivity|]. symmetry; apply map_id.
Qed.

Lemma sameTree_trans : forall st1 st2 st3,
  sameTree st1 st2 -> sameTree st2 st3 -> sameTree st1 st3.
Proof.
  intros st1 st2 st3 [[g [Hg Hc]] (H1 & H2 & H3 & H4)]
         [[g' [Hg' Hc']] (H1' & H2' & H3' & H4')].
  split; [|repeat split; congruence].
  exists (fun c => g' (g c)). split.
  - intro c. rewrite Hg'. apply Hg.
  - rewrite Hc', Hc. apply map_map.
Qed.

Lemma sameTree_updateLayout : forall key st, sameTree st (updateLayout key st).
Proof.
  intros key st. unfold updateLayout.
  destruct (getFocusableComponent key st) as [c|]; [|apply sameTree_refl].
  destruct (layoutUpdated c); [apply sameTree_refl|].
  split; [|repeat split].
  eexists. split; [|reflexivity].
  intro d; simpl. destruct (focusKey d =? key); reflexivity.
Qed.

Lemma sameTree_refresh : forall (l : list FocusableComponent) st,
  sameTree st
    (fold_left (fun s component => updateLayout (focusKey component) s) l st).
Proof.
  induction l as [|h t IH]; intro st; simpl; [apply sameTree_refl|].
  eapply sameTree_trans; [apply sameTree_updateLayout | apply IH].
Qed.

Lemma sameTree_lookup : forall st st' key,
  sameTree st st' ->
  option_map eraseLayout (getFocusableComponent key st')
  = option_map eraseLayout (getFocusableComponent key st).
Proof.
  intros st st' key [[g [Hg Hc]] _]. unfold getFocusableComponent.
  rewrite Hc, lookup_map by (intro c; apply focusKey_eraseLayout, Hg).
  destruct (lookup key (focusableComponents st)) as [c|]; simpl; [|reflexivity].
  rewrite Hg. reflexivity.
Qed.

Lemma sameTree_isFocusableComponent : forall st st' key,
  sameTree st st' -> isFocusableComponent key st' = isFocusableComponent key st.
Proof.
  intros st st' key H. apply (sameTree_lookup _ _ key) in H.
  unfold isFocusableComponent.
  destruct (getFocusableComponent key st'), (getFocusableComponent key st);
    simpl in H; congruence.
Qed.

Lemma sameTree_isParticipating : forall st st' key,
  sameTree st st' ->
  isParticipatingFocusableComponent key st'
  = isParticipatingFocusableComponent key st.
Proof.
  intros st st' key H. apply (sameTree_lookup _ _ key) in H.
  unfold isParticipatingFocusableComponent.
  destruct (getFocusableComponent key st') as [c'|],
           (getFocusableComponent key st) as [c|];
    simpl in H; try congruence.
  apply focusable_eraseLayout. congruence.
Qed.

Lemma map_filter_invariant : forall (g : FocusableComponent -> FocusableComponent)
    (p : FocusableComponent -> bool) cs,
  (forall c, p (g c) = p c) -> filter p (map g cs) = map g (filter p cs).
Proof.
  intros g p cs Hp. induction cs as [|h t IH]; simpl; [reflexivity|].
  rewrite Hp. destruct (p h); simpl; rewrite IH; reflexivity.
Qed.

Lemma sameTree_focusableChildren : forall st st' target,
  sameTree st st' ->
  map eraseLayout (focusableChildren target st')
  = map eraseLayout (focusableChildren target st).
Proof.
  intros st st' target [[g [Hg Hc]] _]. unfold focusableChildren.
  rewrite Hc, map_filter_invariant.
  - rewrite map_map. apply map_ext. exact Hg.
  - intro c. rewrite (parentFocusKey_eraseLayout _ _ (Hg c)),
               (focusable_eraseLayout _ _ (Hg c)). reflexivity.
Qed.

Lemma sameTree_children_keys : forall st st' target,
  sameTree st st' ->
  map focusKey (focusableChildren target st')
  = map focusKey (focusableChildren target st).
Proof.
  intros st st' target H. apply (sameTree_focusableChildren _ _ target) in H.
  apply (f_equal (map focusKey)) in H. rewrite !map_map in H. exact H.
Qed.

Lemma sameTree_children_length : forall st st' target,
  sameTree st st' ->
  List.length (focusableChildren target st')
  = List.length (focusableChildren target st).
Proof.
  intros st st' target H. apply (sameTree_children_keys _ _ target) in H.
  apply (f_equal (@List.length string)) in H. rewrite !length_map in H. exact H.
Qed.

Lemma sameTree_keys : forall st st',
  sameTree st st' ->
  map focusKey (focusableComponents st') = map focusKey (focusableComponents st).
Proof.
  intros st st' [[g [Hg Hc]] _]. rewrite Hc, map_map.
  apply map_ext. intro c. apply focusKey_eraseLayout, Hg.
Qed.

Lemma sameTree_uniqueKeys : forall st st',
  sameTree st st' -> uniqueKeys st' = uniqueKeys st.
Proof. intros st st' H. unfold uniqueKeys. rewrite (sameTree_keys _ _ H). reflexivity. Qed.

Lemma sameTree_followsLast : forall st st' c c',
  sameTree st st' -> eraseLayout c' = eraseLayout c ->
  followsLast c' st' = followsLast c st.
Proof.
  intros st st' c c' H Hc. unfold followsLast.
  rewrite (f_equal lastFocusedChildKey Hc : lastFocusedChildKey c' = lastFocusedChildKey c).
  rewrite (f_equal saveLastFocusedChild Hc : saveLastFocusedChild c' = saveLastFocusedChild c).
  rewrite (sameTree_isParticipating _ _ _ H). reflexivity.
Qed.

Lemma sameTree_followsPreferred : forall st st' c c',
  sameTree st st' -> eraseLayout c' = eraseLayout c ->
  followsPreferred c' st' = followsPreferred c st.
Proof.
  intros st st' c c' H Hc. unfold followsPreferred.
  rewrite (f_equal preferredChildFocusKey Hc
           : preferredChildFocusKey c' = preferredChildFocusKey c).
  rewrite (sameTree_isParticipating _ _ _ H). reflexivity.
Qed.

Lemma sameTree_descentLinks : forall st st' c c',
  sameTree st st' -> eraseLayout c' = eraseLayout c ->
  descentLinks (focusKey c') c' st' = descentLinks (focusKey c) c st.
Proof.
  intros st st' c c' H Hc. unfold descentLinks.
  rewrite (f_equal focusKey Hc : focusKey c' = focusKey c).
  rewrite (sameTree_children_length _ _ _ H), (sameTree_children_keys _ _ _ H).
  rewrite (sameTree_followsLast _ _ _ _ H Hc), (sameTree_followsPreferred _ _ _ _ H Hc).
  rewrite (f_equal lastFocusedChildKey Hc : lastFocusedChildKey c' = lastFocusedChildKey c).
  rewrite (f_equal preferredChildFocusKey Hc
           : preferredChildFocusKey c' = preferredChildFocusKey c).
  reflexivity.
Qed.

Lemma forallb_map_ext : forall (g : FocusableComponent -> FocusableComponent)
    (p q : FocusableComponent -> bool) cs,
  (forall c, p (g c) = q c) -> forallb p (map g cs) = forallb q cs.
Proof.
  intros g p q cs H. induction cs as [|h t IH]; simpl; [reflexivity|].
  rewrite H, IH. reflexivity.
Qed.

Lemma sameTree_descending : forall rank st st',
  sameTree st st' -> descending rank st' = descending rank st.
Proof.
  intros rank st st' H. unfold descending.
  destruct H as [[g [Hg Hc]] Hrest].
  assert (Hs : sameTree st st') by (split; [exists g; split; assumption | exact Hrest]).
  rewrite Hc. apply forallb_map_ext. intro c.
  rewrite (sameTree_descentLinks _ _ c (g c) Hs (Hg c)).
  rewrite (focusKey_eraseLayout _ _ (Hg c)). reflexivity.
Qed.

(** ** [getNextFocusKey] *)

Lemma getNextFocusKey_descent : forall fuel target st,
  getNextFocusKey fuel target st
  = match descent target st with
    | AtLeaf => Some (target, st)
    | Into k st1 =>
      match fuel with
      | O => None
      | S fuel' => getNextFocusKey fuel' k st1
      end
    | NoClosestChild => None
    end.
Proof.
  intros fuel target st.
  destruct fuel; simpl; unfold descent, followsLast, followsPreferred, refreshChildren;
    destruct (getFocusableComponent target st) as [c|]; try reflexivity;
    destruct (0 <? List.length (focusableChildren target st))%nat; try reflexivity;
    destruct (_ && _); try reflexivity;
    destruct (_ && _); try reflexivity;
    destruct (getChildClosestToOrigin _); reflexivity.
Qed.

Lemma distinct_lookup : forall cs c,
  distinct (map focusKey cs) = true -> In c cs -> lookup (focusKey c) cs = Some c.
Proof.
  induction cs as [|h t IH]; intros c Hd Hin; [contradiction|].
  simpl in Hd. apply andb_true_iff in Hd. destruct Hd as [Hh Ht].
  unfold lookup; simpl.
  destruct Hin as [-> | Hin]; [rewrite String.eqb_refl; reflexivity|].
  destruct (String.eqb_spec (focusKey h) (focusKey c)) as [E|E].
  - apply negb_true_iff in Hh.
    assert (Hex : existsb (String.eqb (focusKey h)) (map focusKey t) = true).
    { apply existsb_exists. exists (focusKey c). split.
      - apply in_map, Hin.
      - apply String.eqb_eq, E. }
    congruence.
  - apply IH; assumption.
Qed.

Lemma uniqueKeys_lookup : forall st c,
  uniqueKeys st = true -> In c (focusableComponents st) ->
  getFocusableComponent (focusKey c) st = Some c.
Proof. intros st c Hu Hin. apply distinct_lookup; assumption. Qed.

Lemma focusableChildren_In : forall target st child,
  In child (focusableChildren target st) ->
  In child (focusableComponents st)
  /\ parentFocusKey child = target
  /\ focusable child = true.
Proof.
  intros target st child H. unfold focusableChildren in H.
  apply filter_In in H. destruct H as [Hin Hp].
  apply andb_true_iff in Hp. destruct Hp as [Hp Hf].
  apply String.eqb_eq in Hp. auto.
Qed.

Lemma child_isParticipating : forall target st child,
  uniqueKeys st = true ->
  In child (focusableChildren target st) ->
  isParticipatingFocusableComponent (focusKey child) st = true.
Proof.
  intros target st child Hu Hin.
  apply focusableChildren_In in Hin. destruct Hin as (Hin & _ & Hf).
  unfold isParticipatingFocusableComponent.
  rewrite (uniqueKeys_lookup st child Hu Hin). exact Hf.
Qed.

Lemma children_nonempty : forall target st,
  (0 <? List.length (focusableChildren target st))%nat = true
  <-> focusableChildren target st <> [].
Proof.
  intros target st. destruct (focusableChildren target st); simpl; split;
    intro H; try discriminate; try reflexivity; congruence.
Qed.

Lemma closest_child_exists : forall target st,
  focusableChildren target st <> [] ->
  exists child,
    getChildClosestToOrigin
      (focusableChildren target (refreshChildren target st)) = Some child
    /\ In child (focusableChildren target (refreshChildren target st)).
Proof.
  intros target st Hne. unfold getChildClosestToOrigin.
  destruct (first _) as [child|] eqn:Hfirst.
  - exists child. split; [reflexivity|]. eapply first_sortBy_In; exact Hfirst.
  - apply first_sortBy_None in Hfirst.
    pose proof (sameTree_children_length st (refreshChildren target st) target
                  (sameTree_refresh _ st)) as Hlen.
    rewrite Hfirst in Hlen. simpl in Hlen.
    destruct (focusableChildren target st); [congruence | discriminate].
Qed.

(** One level of leaf resolution on a registered target with focusable
    children: which key it moves to, and in which state. *)
Lemma descent_Into : forall target st c,
  uniqueKeys st = true ->
  getFocusableComponent target st = Some c ->
  focusableChildren target st <> [] ->
  exists k st1,
    descent target st = Into k st1
    /\ sameTree st st1
    /\ isParticipatingFocusableComponent k st1 = true
    /\ In k (descentLinks target c st)
    /\ ((followsLast c st = true
         /\ k = propertyKey (lastFocusedChildKey c) /\ st1 = st)
        \/ (followsLast c st = false /\ followsPreferred c st = true
            /\ k = propertyKey (preferredChildFocusKey c) /\ st1 = st)
        \/ (followsLast c st = false /\ followsPreferred c st = false
            /\ st1 = refreshChildren target st
            /\ exists child,
                 getChildClosestToOrigin (focusableChildren target st1) = Some child
                 /\ parentFocusKey child = target
                 /\ k = focusKey child)).
Proof.
  intros target st c Hu Hc Hne.
  pose proof (proj2 (children_nonempty target st) Hne) as Hlen.
  unfold descent, descentLinks. rewrite Hc, Hlen.
  destruct (followsLast c st) eqn:Hlast.
  - exists (propertyKey (lastFocusedChildKey c)), st.
    split; [reflexivity|]. split; [apply sameTree_refl|].
    split. { unfold followsLast in Hlast. apply andb_true_iff in Hlast. tauto. }
    split. { apply in_or_app; right. apply in_or_app; left. left; reflexivity. }
    left. auto.
  - destruct (followsPreferred c st) eqn:Hpref.
    + exists (propertyKey (preferredChildFocusKey c)), st.
      split; [reflexivity|]. split; [apply sameTree_refl|].
      split. { unfold followsPreferred in Hpref. apply andb_true_iff in Hpref. tauto. }
      split. { apply in_or_app; right. apply in_or_app; right. left; reflexivity. }
      right; left. auto.
    + destruct (closest_child_exists target st Hne) as (child & Hclosest & Hin).
      pose proof (sameTree_refresh (focusableChildren target st) st) as Hsame.
      fold (refreshChildren target st) in Hsame.
      exists (focusKey child), (refreshChildren target st).
      rewrite Hclosest.
      split; [reflexivity|]. split; [exact Hsame|].
      split.
      { eapply child_isParticipating; [|exact Hin].
        rewrite (sameTree_uniqueKeys _ _ Hsame). exact Hu. }
      split.
      { apply in_or_app; left.
        rewrite <- (sameTree_children_keys _ _ target Hsame).
        apply in_map, Hin. }
      right; right. repeat split; try reflexivity.
      exists child. split; [reflexivity|].
      apply focusableChildren_In in Hin. tauto.
Qed.

Lemma descent_AtLeaf : forall target st,
  getFocusableComponent target st = None \/ focusableChildren target st = [] ->
  descent target st = AtLeaf.
Proof.
  intros target st [H|H]; unfold descent; rewrite H; [reflexivity|].
  destruct (getFocusableComponent target st); reflexivity.
Qed.

Lemma descending_rank : forall rank st target c k,
  descending rank st = true ->
  getFocusableComponent target st = Some c ->
  In k (descentLinks target c st) ->
  (rank k < rank target)%nat.
Proof.
  intros rank st target c k Hd Hc Hk.
  unfold descending in Hd. rewrite forallb_forall in Hd.
  pose proof (lookup_focusKey _ _ _ Hc) as Hkey.
  specialize (Hd c (lookup_In _ _ _ Hc)).
  rewrite Hkey in Hd. rewrite forallb_forall in Hd.
  apply Nat.ltb_lt, Hd, Hk.
Qed.

(** With the links descending, fuel at least the rank of the target is
    enough, and resolution ends at a component without focusable children. *)
Lemma getNextFocusKey_enough_fuel : forall rank fuel target st,
  uniqueKeys st = true ->
  descending rank st = true ->
  (rank target <= fuel)%nat ->
  exists leaf st',
    getNextFocusKey fuel target st = Some (leaf, st')
    /\ sameTree st st'
    /\ (getFocusableComponent target st = None -> leaf = target /\ st' = st)
    /\ (getFocusableComponent target st <> None ->
          isFocusableComponent leaf st' = true
          /\ focusableChildren leaf st' = []
          /\ (leaf = target \/ isParticipatingFocusableComponent leaf st' = true)).
Proof.
  intros rank fuel. induction fuel as [|fuel IH]; intros target st Hu Hd Hr;
    rewrite getNextFocusKey_descent;
    destruct (getFocusableComponent target st) as [c|] eqn:Hc;
    try (rewrite (descent_AtLeaf target st (or_introl Hc));
         exists target, st; split; [reflexivity|]; split; [apply sameTree_refl|];
         split; [auto | congruence]);
    (destruct (focusableChildren target st) as [|child rest] eqn:Hch;
     [ rewrite (descent_AtLeaf target st (or_intror Hch));
       exists target, st; split; [reflexivity|]; split; [apply sameTree_refl|];
       split; [congruence|]; intros _;
       split; [unfold isFocusableComponent; rewrite Hc; reflexivity|];
       split; [exact Hch | left; reflexivity]
     | ]);
    (assert (Hne : focusableChildren target st <> []) by (rewrite Hch; discriminate));
    destruct (descent_Into target st c Hu Hc Hne)
      as (k & st1 & Hdesc & Hsame & Hpart & Hlink & _);
    pose proof (descending_rank rank st target c k Hd Hc Hlink) as Hlt;
    rewrite Hdesc.
  - lia.
  - destruct (IH k st1) as (leaf & st' & Hres & Hsame' & _ & Hlive).
    + rewrite (sameTree_uniqueKeys _ _ Hsame). exact Hu.
    + rewrite (sameTree_descending _ _ _ Hsame). exact Hd.
    + lia.
    + exists leaf, st'. split; [exact Hres|].
      split; [eapply sameTree_trans; eassumption|].
      split; [congruence|]. intros _.
      assert (Hk : getFocusableComponent k st1 <> None).
      { unfold isParticipatingFocusableComponent in Hpart.
        destruct (getFocusableComponent k st1); [discriminate | discriminate]. }
      destruct (Hlive Hk) as (Hl1 & Hl2 & Hl3).
      split; [exact Hl1|]. split; [exact Hl2|]. right.
      destruct Hl3 as [-> | Hl3]; [|exact Hl3].
      rewrite (sameTree_isParticipating _ _ _ Hsame'). exact Hpart.
Qed.

(** C4 as stated fails: leaf resolution need not terminate.  The group "P"
    of [selfPreferredGroup] was registered with its own key as preferred
    child; "P" is live and focusable, so [getNextFocusKey] called on "P"
    calls itself on "P" in the same state, whatever the fuel. *)
Lemma getNextFocusKey_self_preferred_counterexample :
  uniqueKeys selfPreferredGroup = true
  /\ (exists c, getFocusableComponent "P" selfPreferredGroup = Some c
                /\ parentFocusKey c = ROOT_FOCUS_KEY
                /\ preferredChildFocusKey c = Some "P")
  /\ (forall fuel,
        getNextFocusKey (S fuel) "P" selfPreferredGroup
        = getNextFocusKey fuel "P" selfPreferredGroup)
  /\ (forall fuel, getNextFocusKey fuel "P" selfPreferredGroup = None).
Proof.
  assert (Hd : descent "P" selfPreferredGroup = Into "P" selfPreferredGroup)
    by (vm_compute; reflexivity).
  split; [reflexivity|].
  split; [eexists; split; [vm_compute; reflexivity | split; reflexivity]|].
  split.
  - intro fuel. rewrite getNextFocusKey_descent, Hd. reflexivity.
  - induction fuel as [|fuel IH]; rewrite getNextFocusKey_descent, Hd;
      [reflexivity | exact IH].
Qed.

(** C4, as amended.  In every tree (with one component per key):
    - on an unregistered target, or one without focusable children,
      [getNextFocusKey] returns the target and leaves the state alone;
    - on a registered target with focusable children it calls itself, on a
      key that is a live focusable participant: the [lastFocusedChildKey] if
      it is set, [saveLastFocusedChild] holds and it names such a
      participant; else the [preferredChildFocusKey] if it names one; else,
      both being unset or stale, the focusable child closest to the origin,
      after refreshing the children's layouts;
    - when the links it may follow (focusable children, live last-focused
      and preferred keys) all lead to keys of smaller rank, it terminates
      with fuel at least the rank of the target: on the target itself if
      that is unregistered, otherwise on a registered component without
      focusable children, which is the target or a live focusable
      participant; the tree is the same up to refreshed layouts. *)
Theorem getNextFocusKey_resolves_leaf :
  forall st,
    uniqueKeys st = true ->
    (forall fuel target,
        getFocusableComponent target st = None
        \/ focusableChildren target st = [] ->
        getNextFocusKey fuel target st = Some (target, st))
    /\ (forall fuel target c,
          getFocusableComponent target st = Some c ->
          focusableChildren target st <> [] ->
          exists k st1,
            getNextFocusKey (S fuel) target st = getNextFocusKey fuel k st1
            /\ sameTree st st1
            /\ isParticipatingFocusableComponent k st1 = true
            /\ ((followsLast c st = true
                 /\ k = propertyKey (lastFocusedChildKey c) /\ st1 = st)
                \/ (followsLast c st = false /\ followsPreferred c st = true
                    /\ k = propertyKey (preferredChildFocusKey c) /\ st1 = st)
                \/ (followsLast c st = false /\ followsPreferred c st = false
                    /\ st1 = refreshChildren target st
                    /\ exists child,
                         getChildClosestToOrigin (focusableChildren target st1)
                         = Some child
                         /\ parentFocusKey child = target
                         /\ k = focusKey child)))
    /\ (forall rank fuel target,
          descending rank st = true ->
          (rank target <= fuel)%nat ->
          exists leaf st',
            getNextFocusKey fuel target st = Some (leaf, st')
            /\ sameTree st st'
            /\ (getFocusableComponent target st = None ->
                  leaf = target /\ st' = st)
            /\ (getFocusableComponent target st <> None ->
                  isFocusableComponent leaf st' = true
                  /\ focusableChildren leaf st' = []
                  /\ (leaf = target
                      \/ isParticipatingFocusableComponent leaf st' = true))).
Proof.
  intros st Hu. split; [|split].
  - intros fuel target H.
    rewrite getNextFocusKey_descent, (descent_AtLeaf target st H). reflexivity.
  - intros fuel target c Hc Hne.
    destruct (descent_Into target st c Hu Hc Hne)
      as (k & st1 & Hdesc & Hsame & Hpart & _ & Hwhich).
    exists k, st1.
    split; [rewrite getNextFocusKey_descent, Hdesc; reflexivity|].
    auto.
  - intros rank fuel target Hd Hr.
    apply (getNextFocusKey_enough_fuel rank); assumption.
Qed.

Lemma getNextFocusKey_resolves_leaf_witness :
  uniqueKeys threeSiblings = true
  /\ descending groupRank threeSiblings = true
  /\ (groupRank "P" <= 1)%nat
  /\ exists leaf st',
       getNextFocusKey 1 "P" threeSiblings = Some (leaf, st')
       /\ sameTree threeSiblings st'
       /\ focusableChildren leaf st' = [].
Proof.
  split; [reflexivity|]. split; [reflexivity|]. split; [apply Nat.le_refl|].
  destruct (getNextFocusKey_resolves_leaf threeSiblings eq_refl) as (_ & _ & H).
  destruct (H groupRank 1%nat "P" eq_refl (Nat.le_refl _))
    as (leaf & st' & Hres & Hsame & _ & Hlive).
  exists leaf, st'. split; [exact Hres|]. split; [exact Hsame|].
  apply Hlive. discriminate.
Defined.

(** ** Callbacks and the focus key along [setFocus] *)

Lemma firesOnly_refl : forall allowed st, firesOnly allowed st st.
Proof. intros allowed st. split; [reflexivity|]. exists []. split; reflexivity. Qed.

Lemma firesOnly_trans : forall allowed st1 st2 st3,
  firesOnly allowed st1 st2 -> firesOnly allowed st2 st3 ->
  firesOnly allowed st1 st3.
Proof.
  intros allowed st1 st2 st3 [Hk (evs & He & Ha)] [Hk' (evs' & He' & Ha')].
  split; [congruence|].
  exists (evs' ++ evs)%list. split.
  - rewrite He', He. apply app_assoc.
  - rewrite forallb_app, Ha, Ha'. reflexivity.
Qed.

Lemma firesOnly_weaken : forall (allowed allowed' : Event -> bool) st st',
  (forall e, allowed e = true -> allowed' e = true) ->
  firesOnly allowed st st' -> firesOnly allowed' st st'.
Proof.
  intros allowed allowed' st st' Himp [Hk (evs & He & Ha)].
  split; [exact Hk|]. exists evs. split; [exact He|].
  rewrite forallb_forall in *. auto.
Qed.

Lemma firesOnly_fire : forall (allowed : Event -> bool) e st,
  allowed e = true -> firesOnly allowed st (fire e st).
Proof.
  intros allowed e st Ha. split; [reflexivity|].
  exists [e]. split; [reflexivity|]. simpl. rewrite Ha. reflexivity.
Qed.

Lemma firesOnly_sameTree : forall allowed st st',
  sameTree st st' -> firesOnly allowed st st'.
Proof.
  intros allowed st st' (_ & Hk & _ & _ & Hcb).
  split; [exact Hk|]. exists []. split; [exact Hcb | reflexivity].
Qed.

Lemma firesOnly_with_components : forall allowed cs st,
  firesOnly allowed st (with_components cs st).
Proof. intros. split; [reflexivity|]. exists []. split; reflexivity. Qed.

Lemma firesOnly_saveLastFocusedChildKey : forall allowed pc v st,
  firesOnly allowed st (saveLastFocusedChildKey pc v st).
Proof.
  intros allowed [p|] v st; [apply firesOnly_with_components | apply firesOnly_refl].
Qed.

Lemma sameTree_getNodeLayoutByFocusKey : forall key st,
  sameTree st (snd (getNodeLayoutByFocusKey key st)).
Proof.
  intros key st. unfold getNodeLayoutByFocusKey.
  destruct (getFocusableComponent key st); simpl;
    [apply sameTree_updateLayout | apply sameTree_refl].
Qed.

Lemma firesOnly_intermediateBlurred : forall key st,
  firesOnly (fun e => negb (isUnfocus e)) st (onIntermediateNodeBecameBlurred key st).
Proof.
  intros key st. unfold onIntermediateNodeBecameBlurred.
  destruct (isParticipatingFocusableComponent key st); [|apply firesOnly_refl].
  pose proof (sameTree_getNodeLayoutByFocusKey key st) as Hs.
  destruct (getNodeLayoutByFocusKey key st) as [l st1]; simpl in Hs.
  eapply firesOnly_trans; [apply firesOnly_sameTree, Hs|].
  apply firesOnly_fire. reflexivity.
Qed.

Lemma firesOnly_intermediateFocused : forall key st,
  firesOnly (fun e => negb (isUnfocus e)) st (onIntermediateNodeBecameFocused key st).
Proof.
  intros key st. unfold onIntermediateNodeBecameFocused.
  destruct (isParticipatingFocusableComponent key st); [|apply firesOnly_refl].
  pose proof (sameTree_getNodeLayoutByFocusKey key st) as Hs.
  destruct (getNodeLayoutByFocusKey key st) as [l st1]; simpl in Hs.
  eapply firesOnly_trans; [apply firesOnly_sameTree, Hs|].
  apply firesOnly_fire. reflexivity.
Qed.

Lemma firesOnly_flagParent : forall b st key,
  firesOnly (fun e => negb (isUnfocus e)) st (flagParent b st key).
Proof.
  intros b st key. unfold flagParent.
  eapply firesOnly_trans.
  - instantiate (1 := match getFocusableComponent key st with
                      | Some parentComponent =>
                        if trackChildren parentComponent
                        then fire (EvUpdateHasFocusedChild
                                     (focusKey parentComponent) b) st
                        else st
                      | None => st
                      end).
    destruct (getFocusableComponent key st) as [p|]; [|apply firesOnly_refl].
    destruct (trackChildren p); [|apply firesOnly_refl].
    apply firesOnly_fire. reflexivity.
  - destruct b; [apply firesOnly_intermediateFocused
                | apply firesOnly_intermediateBlurred].
Qed.

Lemma firesOnly_flagParents : forall b keys st,
  firesOnly (fun e => negb (isUnfocus e)) st (fold_left (flagParent b) keys st).
Proof.
  intros b keys. induction keys as [|k t IH]; intro st; simpl;
    [apply firesOnly_refl|].
  eapply firesOnly_trans; [apply firesOnly_flagParent | apply IH].
Qed.

Lemma firesOnly_updateParentsHasFocusedChild : forall fuel key st st',
  updateParentsHasFocusedChild fuel key st = Some st' ->
  firesOnly (fun e => negb (isUnfocus e)) st st'.
Proof.
  intros fuel key st st' H. unfold updateParentsHasFocusedChild in H.
  destruct (collectParents fuel (getFocusableComponent key st) st) as [parents|];
    [|discriminate].
  injection H as <-.
  eapply firesOnly_trans; [apply firesOnly_flagParents|].
  eapply firesOnly_trans; [apply firesOnly_flagParents|].
  split; [reflexivity|]. exists []. split; reflexivity.
Qed.

Lemma firesOnly_saveLastFocusedChain : forall allowed fuel key st st',
  saveLastFocusedChain fuel key st = Some st' -> firesOnly allowed st st'.
Proof.
  intros allowed fuel. induction fuel as [|fuel IH]; intros key st st' H;
    simpl in H;
    destruct (getFocusableComponent key st) as [c|];
    try discriminate;
    try (injection H as <-; apply firesOnly_refl).
  destruct (getFocusableComponent (parentFocusKey c) st) as [p|] eqn:Hp;
    [|injection H as <-; apply firesOnly_refl].
  apply IH in H.
  eapply firesOnly_trans; [|exact H].
  apply firesOnly_saveLastFocusedChildKey.
Qed.

Lemma descent_sameTree : forall target st k st1,
  descent target st = Into k st1 -> sameTree st st1.
Proof.
  intros target st k st1 H. unfold descent in H.
  destruct (getFocusableComponent target st); [|discriminate].
  destruct (0 <? _)%nat; [|discriminate].
  destruct (followsLast _ _); [injection H as _ <-; apply sameTree_refl|].
  destruct (followsPreferred _ _); [injection H as _ <-; apply sameTree_refl|].
  destruct (getChildClosestToOrigin _); [|discriminate].
  injection H as _ <-. apply sameTree_refresh.
Qed.

(** Leaf resolution touches nothing but cached layouts. *)
Lemma getNextFocusKey_sameTree : forall fuel target st leaf st',
  getNextFocusKey fuel target st = Some (leaf, st') -> sameTree st st'.
Proof.
  induction fuel as [|fuel IH]; intros target st leaf st' H;
    rewrite getNextFocusKey_descent in H;
    destruct (descent target st) as [|k st1|] eqn:Hd; try discriminate;
    try (injection H as _ <-; apply sameTree_refl).
  eapply sameTree_trans; [eapply descent_sameTree; exact Hd | eapply IH; exact H].
Qed.

Lemma keyEq_eq : forall k1 k2, keyEq k1 k2 = true <-> k1 = k2.
Proof.
  intros [s1|] [s2|]; simpl; split; intro H; try discriminate; try reflexivity.
  - apply String.eqb_eq in H. congruence.
  - injection H as ->. apply String.eqb_refl.
Qed.

(** The second half of [setCurrentFocusedKey]: the focus callbacks of the
    new component. *)
Lemma firesOnly_focus_half : forall key st,
  firesOnly (fun e => negb (isUnfocus e) && negb (isBlur e)) st
    match getFocusableComponent key st with
    | Some newComponent =>
      let st_updated := fire (EvUpdateFocus (focusKey newComponent) true) st in
      let '(l, st_measured) := getNodeLayoutByFocusKey key st_updated in
      fire (EvFocus (focusKey newComponent) l) st_measured
    | None => st
    end.
Proof.
  intros key st.
  destruct (getFocusableComponent key st) as [c|]; [|apply firesOnly_refl].
  cbv zeta.
  pose proof (sameTree_getNodeLayoutByFocusKey key
                (fire (EvUpdateFocus (focusKey c) true) st)) as Hs.
  destruct (getNodeLayoutByFocusKey key _) as [l st1]; simpl in Hs.
  eapply firesOnly_trans;
    [exact (firesOnly_fire _ (EvUpdateFocus (focusKey c) true) st eq_refl)|].
  eapply firesOnly_trans; [apply firesOnly_sameTree, Hs|].
  apply firesOnly_fire. reflexivity.
Qed.

Lemma with_currentFocusKey_same : forall st k,
  currentFocusKey st = k -> with_currentFocusKey k st = st.
Proof. intros [] k H; simpl in H; subst; reflexivity. Qed.

(** Committing the key that is already current skips the blur half. *)
Lemma setCurrentFocusedKey_same : forall key st,
  currentFocusKey st = Some key ->
  firesOnly (fun e => negb (isUnfocus e) && negb (isBlur e)) st
    (setCurrentFocusedKey key st).
Proof.
  intros key st Hk. unfold setCurrentFocusedKey.
  rewrite Hk. rewrite (proj2 (keyEq_eq (Some key) (Some key)) eq_refl).
  rewrite andb_false_r.
  rewrite (with_currentFocusKey_same st (Some key) Hk).
  apply firesOnly_focus_half.
Qed.

Lemma setCurrentFocusedKey_currentFocusKey : forall key st,
  currentFocusKey (setCurrentFocusedKey key st) = Some key.
Proof.
  intros key st. unfold setCurrentFocusedKey.
  match goal with
  | |- context [with_currentFocusKey (Some key) ?s] => generalize s
  end.
  intro s.
  destruct (firesOnly_focus_half key (with_currentFocusKey (Some key) s)) as [H _].
  exact H.
Qed.

(** ** The loops of [setFocus] end on a parent chain that ends *)

Lemma sameParents_refl : forall st, sameParents st st.
Proof. intros st k. reflexivity. Qed.

Lemma sameParents_trans : forall st1 st2 st3,
  sameParents st1 st2 -> sameParents st2 st3 -> sameParents st1 st3.
Proof. intros st1 st2 st3 H12 H23 k. rewrite H23. apply H12. Qed.

Lemma sameParents_sameTree : forall st st', sameTree st st' -> sameParents st st'.
Proof.
  intros st st' H k. apply (sameTree_lookup _ _ k) in H.
  destruct (getFocusableComponent k st') as [c'|],
           (getFocusableComponent k st) as [c|]; simpl in *; try congruence.
  f_equal. apply parentFocusKey_eraseLayout. congruence.
Qed.

Lemma sameParents_fire : forall e st, sameParents st (fire e st).
Proof. intros e st k. reflexivity. Qed.

Lemma sameParents_saveLastFocusedChildKey : forall pc v st,
  sameParents st (saveLastFocusedChildKey pc v st).
Proof. intros pc v st k. apply parent_saveLastFocusedChildKey. Qed.

Lemma sameParents_getNodeLayoutByFocusKey : forall key st,
  sameParents st (snd (getNodeLayoutByFocusKey key st)).
Proof. intros. apply sameParents_sameTree, sameTree_getNodeLayoutByFocusKey. Qed.

Lemma sameParents_focus_half : forall key st,
  sameParents st
    match getFocusableComponent key st with
    | Some newComponent =>
      let st_updated := fire (EvUpdateFocus (focusKey newComponent) true) st in
      let '(l, st_measured) := getNodeLayoutByFocusKey key st_updated in
      fire (EvFocus (focusKey newComponent) l) st_measured
    | None => st
    end.
Proof.
  intros key st.
  destruct (getFocusableComponent key st) as [c|]; [|apply sameParents_refl].
  cbv zeta.
  pose proof (sameParents_getNodeLayoutByFocusKey key
                (fire (EvUpdateFocus (focusKey c) true) st)) as Hs.
  destruct (getNodeLayoutByFocusKey key _) as [l st1]; simpl in Hs.
  eapply sameParents_trans; [apply sameParents_fire|].
  eapply sameParents_trans; [exact Hs | apply sameParents_fire].
Qed.

Lemma sameParents_setCurrentFocusedKey : forall key st,
  sameParents st (setCurrentFocusedKey key st).
Proof.
  intros key st. unfold setCurrentFocusedKey.
  match goal with
  | |- context [with_currentFocusKey (Some key) ?s] =>
    assert (H1 : sameParents st s); [|generalize dependent s]
  end.
  - destruct (_ && _); [|apply sameParents_refl].
    destruct (getFocusableComponent (propertyKey (currentFocusKey st)) st)
      as [old|]; [|apply sameParents_refl].
    cbv zeta.
    match goal with
    | |- context [getNodeLayoutByFocusKey ?k ?s] =>
      pose proof (sameParents_getNodeLayoutByFocusKey k s) as Hs;
      destruct (getNodeLayoutByFocusKey k s) as [l st1]
    end.
    simpl in Hs.
    eapply sameParents_trans; [apply sameParents_saveLastFocusedChildKey|].
    eapply sameParents_trans; [apply sameParents_fire|].
    eapply sameParents_trans; [exact Hs | apply sameParents_fire].
  - intros s H1.
    eapply sameParents_trans; [exact H1|].
    apply (sameParents_focus_half key (with_currentFocusKey (Some key) s)).
Qed.

Lemma sameParents_flagParent : forall b st key, sameParents st (flagParent b st key).
Proof.
  intros b st key. unfold flagParent.
  match goal with
  | |- sameParents st (if b then ?f key ?s else ?g key ?s) =>
    assert (H1 : sameParents st s); [|generalize dependent s]
  end.
  - destruct (getFocusableComponent key st) as [p|]; [|apply sameParents_refl].
    destruct (trackChildren p); [apply sameParents_fire | apply sameParents_refl].
  - intros s H1. eapply sameParents_trans; [exact H1|].
    destruct b; [unfold onIntermediateNodeBecameFocused
                | unfold onIntermediateNodeBecameBlurred];
      (destruct (isParticipatingFocusableComponent key s);
       [|apply sameParents_refl]);
      pose proof (sameParents_getNodeLayoutByFocusKey key s) as Hs;
      destruct (getNodeLayoutByFocusKey key s) as [l st1]; simpl in Hs;
      (eapply sameParents_trans; [exact Hs | apply sameParents_fire]).
Qed.

Lemma sameParents_flagParents : forall b keys st,
  sameParents st (fold_left (flagParent b) keys st).
Proof.
  intros b keys. induction keys as [|k t IH]; intro st; simpl;
    [apply sameParents_refl|].
  eapply sameParents_trans; [apply sameParents_flagParent | apply IH].
Qed.

Lemma sameParents_updateParentsHasFocusedChild : forall fuel key st st',
  updateParentsHasFocusedChild fuel key st = Some st' -> sameParents st st'.
Proof.
  intros fuel key st st' H. unfold updateParentsHasFocusedChild in H.
  destruct (collectParents fuel (getFocusableComponent key st) st) as [parents|];
    [|discriminate].
  injection H as <-.
  eapply sameParents_trans; [apply sameParents_flagParents|].
  eapply sameParents_trans; [apply sameParents_flagParents|].
  intro k. reflexivity.
Qed.

Lemma chainEnds_sameParents : forall fuel key st st',
  sameParents st st' -> chainEnds fuel key st' = chainEnds fuel key st.
Proof.
  induction fuel as [|fuel IH]; intros key st st' H; simpl;
    pose proof (H key) as Hk;
    destruct (getFocusableComponent key st') as [c'|],
             (getFocusableComponent key st) as [c|];
    simpl in Hk; try congruence; try reflexivity.
  injection Hk as ->. apply IH, H.
Qed.

Lemma collectParents_returns : forall fuel key st,
  chainEnds fuel key st = true ->
  exists parents,
    collectParents fuel (getFocusableComponent key st) st = Some parents.
Proof.
  induction fuel as [|fuel IH]; intros key st H; simpl in H;
    destruct (getFocusableComponent key st) as [c|] eqn:Hc;
    try discriminate; try (exists []; reflexivity).
  simpl. destruct (IH _ _ H) as [rest Hrest]. rewrite Hrest.
  eexists. reflexivity.
Qed.

Lemma saveLastFocusedChain_returns : forall fuel key st,
  chainEnds fuel key st = true ->
  exists st', saveLastFocusedChain fuel key st = Some st'.
Proof.
  induction fuel as [|fuel IH]; intros key st H; simpl in H; simpl;
    destruct (getFocusableComponent key st) as [c|] eqn:Hc;
    try discriminate; try (exists st; reflexivity).
  destruct (getFocusableComponent (parentFocusKey c) st) as [p|] eqn:Hp;
    [|exists st; reflexivity].
  apply IH.
  rewrite (lookup_focusKey _ _ _ Hp).
  rewrite (chainEnds_sameParents fuel (parentFocusKey c) st _
             (sameParents_saveLastFocusedChildKey (Some p) (Some (focusKey c)) st)).
  exact H.
Qed.

(** [setFocus] returns once leaf resolution does, if the parent chains of
    the resolved leaf and of the previous focus end. *)
Lemma setFocus_returns : forall fuel x st leaf st1,
  getNextFocusKey fuel x st = Some (leaf, st1) ->
  chainEnds fuel leaf st = true ->
  chainEnds fuel (propertyKey (currentFocusKey st)) st = true ->
  exists st', setFocus fuel x st = Some st'.
Proof.
  intros fuel x st leaf st1 Hres Hleaf Hold. unfold setFocus.
  destruct (enabled st); simpl; [|exists st; reflexivity].
  rewrite Hres.
  pose proof (sameParents_sameTree _ _ (getNextFocusKey_sameTree _ _ _ _ _ Hres))
    as H1.
  pose proof (sameParents_setCurrentFocusedKey leaf st1) as H2.
  pose proof (sameParents_trans _ _ _ H1 H2) as H12.
  destruct (collectParents_returns fuel leaf (setCurrentFocusedKey leaf st1))
    as [parents Hparents].
  { rewrite (chainEnds_sameParents _ _ _ _ H12). exact Hleaf. }
  destruct (updateParentsHasFocusedChild fuel leaf (setCurrentFocusedKey leaf st1))
    as [st3|] eqn:Hupd.
  - apply saveLastFocusedChain_returns.
    rewrite (chainEnds_sameParents _ _ _ _
               (sameParents_trans _ _ _ H12
                  (sameParents_updateParentsHasFocusedChild _ _ _ _ Hupd))).
    exact Hold.
  - unfold updateParentsHasFocusedChild in Hupd. rewrite Hparents in Hupd.
    discriminate.
Qed.

(** C5 as stated fails, on both counts.  In [focusOnB] the group "X" holds
    the leaves "a" and "b" and the focus is on "b".
    - [setFocus("b")] resolves to "b", the current focus, and yet invokes
      [onUpdateFocus(true)] and [onFocus] of "b": [setCurrentFocusedKey]
      guards its blur half only.
    - [setFocus("X")] resolves to the child closest to the origin, "a", and
      in moving there records "b" as the last focused child of "X"; the same
      call once more resolves to that remembered child: the second of two
      calls in a row moves the focus from "a" to "b" and fires blur and
      focus callbacks. *)
Lemma setFocus_twice_counterexample :
  exists st0 l0 st1 st2 la lb,
    enabled focusOnB = true
    /\ currentFocusKey focusOnB = Some "b"
    /\ getNextFocusKey 4 "b" focusOnB = Some ("b", focusOnB)
    /\ setFocus 4 "b" focusOnB = Some st0
    /\ callbacks st0
       = EvFocus "b" l0 :: EvUpdateFocus "b" true :: callbacks focusOnB
    /\ setFocus 4 "X" focusOnB = Some st1
    /\ currentFocusKey st1 = Some "a"
    /\ setFocus 4 "X" st1 = Some st2
    /\ currentFocusKey st2 = Some "b"
    /\ callbacks st2
       = EvFocus "b" lb :: EvUpdateFocus "b" true
         :: EvBlur "a" la :: EvUpdateFocus "a" false :: callbacks st1.
Proof.
  do 6 eexists.
  split; [reflexivity|]. split; [reflexivity|]. split; [reflexivity|].
  split; [vm_compute; reflexivity|]. split; [reflexivity|].
  split; [vm_compute; reflexivity|]. split; [reflexivity|].
  split; [vm_compute; reflexivity|]. split; [reflexivity|].
  reflexivity.
Qed.

(** C5, as amended.  If the leaf that [setFocus(x)] resolves to is the
    current focus key (and its parent chain ends, so that the call returns),
    then the focus key is that leaf afterwards as well, the commit
    ([setCurrentFocusedKey]) invokes no [onUpdateFocus(false)] and no
    [onBlur], and the whole call invokes no [onUpdateFocus(false)]. *)
Theorem setFocus_on_resolved_current_focus :
  forall fuel x st leaf st1,
    enabled st = true ->
    getNextFocusKey fuel x st = Some (leaf, st1) ->
    currentFocusKey st = Some leaf ->
    chainEnds fuel leaf st = true ->
    exists st',
      setFocus fuel x st = Some st'
      /\ currentFocusKey st' = Some leaf
      /\ firesOnly (fun e => negb (isUnfocus e) && negb (isBlur e))
           st1 (setCurrentFocusedKey leaf st1)
      /\ firesOnly (fun e => negb (isUnfocus e)) st st'.
Proof.
  intros fuel x st leaf st1 Hen Hres Hcur Hchain.
  destruct (setFocus_returns fuel x st leaf st1 Hres Hchain) as [st' Hset].
  { rewrite Hcur. exact Hchain. }
  exists st'. split; [exact Hset|].
  unfold setFocus in Hset. rewrite Hen, Hres in Hset. simpl in Hset.
  pose proof (getNextFocusKey_sameTree _ _ _ _ _ Hres) as Hsame.
  assert (Hcur1 : currentFocusKey st1 = Some leaf).
  { destruct Hsame as (_ & Hk & _). congruence. }
  pose proof (setCurrentFocusedKey_same leaf st1 Hcur1) as Hcommit.
  destruct (updateParentsHasFocusedChild fuel leaf (setCurrentFocusedKey leaf st1))
    as [st3|] eqn:Hparents; [|discriminate].
  apply firesOnly_updateParentsHasFocusedChild in Hparents.
  apply (firesOnly_saveLastFocusedChain (fun e => negb (isUnfocus e))) in Hset.
  assert (Hall : firesOnly (fun e => negb (isUnfocus e)) st st').
  { eapply firesOnly_trans; [apply firesOnly_sameTree, Hsame|].
    eapply firesOnly_trans;
      [eapply firesOnly_weaken; [|exact Hcommit];
       intros e He; apply andb_true_iff in He; tauto|].
    eapply firesOnly_trans; eassumption. }
  split; [|split; assumption].
  destruct Hall as [Hk _]. congruence.
Qed.

Lemma setFocus_on_resolved_current_focus_witness :
  exists st',
    enabled focusOnB = true
    /\ getNextFocusKey 4 "b" focusOnB = Some ("b", focusOnB)
    /\ currentFocusKey focusOnB = Some "b"
    /\ chainEnds 4 "b" focusOnB = true
    /\ setFocus 4 "b" focusOnB = Some st'
    /\ currentFocusKey st' = Some "b"
    /\ firesOnly (fun e => negb (isUnfocus e)) focusOnB st'.
Proof.
  assert (Hen : enabled focusOnB = true) by (vm_compute; reflexivity).
  assert (Hres : getNextFocusKey 4 "b" focusOnB = Some ("b", focusOnB))
    by (vm_compute; reflexivity).
  assert (Hcur : currentFocusKey focusOnB = Some "b") by (vm_compute; reflexivity).
  assert (Hchain : chainEnds 4 "b" focusOnB = true) by (vm_compute; reflexivity).
  destruct (setFocus_on_resolved_current_focus 4 "b" focusOnB "b" focusOnB
              Hen Hres Hcur Hchain) as (st' & Hset & Hk & _ & Hall).
  exists st'.
  split; [exact Hen|]. split; [exact Hres|]. split; [exact Hcur|].
  split; [exact Hchain|]. split; [exact Hset|]. split; [exact Hk | exact Hall].
Defined.

(** The blur half of [setCurrentFocusedKey], when the focus sits on a
    registered component other than the new key. *)
Lemma setCurrentFocusedKey_blurs : forall x st k c,
  currentFocusKey st = Some k ->
  k <> x ->
  getFocusableComponent k st = Some c ->
  exists evs l,
    callbacks (setCurrentFocusedKey x st)
    = (evs ++ EvBlur (focusKey c) l :: EvUpdateFocus (focusKey c) false
           :: callbacks st)%list.
Proof.
  intros x st k c Hcur Hne Hc. unfold setCurrentFocusedKey.
  rewrite Hcur. cbn [propertyKey keyEq]. unfold isFocusableComponent.
  rewrite Hc.
  destruct (String.eqb_spec x k) as [E|_]; [congruence|]. cbn [negb andb].
  match goal with
  | |- context [getNodeLayoutByFocusKey k ?s] =>
    pose proof (sameTree_getNodeLayoutByFocusKey k s) as Hs;
    destruct (getNodeLayoutByFocusKey k s) as [l st1]
  end.
  simpl in Hs. destruct Hs as (_ & _ & _ & _ & Hcb). simpl in Hcb.
  match goal with
  | |- context [with_currentFocusKey (Some x) ?s] =>
    destruct (firesOnly_focus_half x (with_currentFocusKey (Some x) s))
      as [_ (evs & He & _)]
  end.
  cbv zeta in He. exists evs, l. rewrite He. simpl. rewrite Hcb.
  destruct (getFocusableComponent (parentFocusKey c) st); reflexivity.
Qed.

(** C6: what [setFocus] does with a key that is not registered (the parent
    chain of the previous focus ending, so that the call returns).
    [getNextFocusKey] returns the unknown key itself, the commit makes it
    the current focus key, and a registered component that held the focus
    gets [onUpdateFocus(false)] and [onBlur]. *)
Theorem setFocus_unknown_key_takes_focus :
  forall fuel x st,
    enabled st = true ->
    getFocusableComponent x st = None ->
    chainEnds fuel (propertyKey (currentFocusKey st)) st = true ->
    exists st',
      setFocus fuel x st = Some st'
      /\ getNextFocusKey fuel x st = Some (x, st)
      /\ currentFocusKey st' = Some x
      /\ (forall k c,
            currentFocusKey st = Some k ->
            k <> x ->
            getFocusableComponent k st = Some c ->
            exists evs l,
              callbacks st'
              = (evs ++ EvBlur (focusKey c) l
                     :: EvUpdateFocus (focusKey c) false :: callbacks st)%list).
Proof.
  intros fuel x st Hen Hx Hold.
  assert (Hres : getNextFocusKey fuel x st = Some (x, st)).
  { rewrite getNextFocusKey_descent, (descent_AtLeaf x st (or_introl Hx)).
    reflexivity. }
  assert (Hxchain : chainEnds fuel x st = true).
  { destruct fuel; simpl; rewrite Hx; reflexivity. }
  destruct (setFocus_returns fuel x st x st Hres Hxchain Hold) as [st' Hset].
  exists st'. split; [exact Hset|]. split; [exact Hres|].
  unfold setFocus in Hset. rewrite Hen, Hres in Hset. simpl in Hset.
  destruct (updateParentsHasFocusedChild fuel x (setCurrentFocusedKey x st))
    as [st3|] eqn:Hparents; [|discriminate].
  apply firesOnly_updateParentsHasFocusedChild in Hparents.
  apply (firesOnly_saveLastFocusedChain (fun e => negb (isUnfocus e))) in Hset.
  pose proof (firesOnly_trans _ _ _ _ Hparents Hset) as [Hk (evs & He & _)].
  split; [rewrite Hk; apply setCurrentFocusedKey_currentFocusKey|].
  intros k c Hcur Hne Hc.
  destruct (setCurrentFocusedKey_blurs x st k c Hcur Hne Hc) as (evs' & l & He').
  exists (evs ++ evs')%list, l. rewrite He, He'. apply app_assoc.
Qed.

Lemma Some_inj : forall (s1 s2 : State), Some s1 = Some s2 -> s1 = s2.
Proof. intros s1 s2 H. injection H as H. exact H. Qed.

(** In [focusOnB], where the leaf "b" is focused, [setFocus("unknown-id")]
    makes "unknown-id" the current focus key and blurs "b". *)
Lemma setFocus_unknown_key_takes_focus_witness :
  exists st' lb lx,
    enabled focusOnB = true
    /\ getFocusableComponent "unknown-id" focusOnB = None
    /\ currentFocusKey focusOnB = Some "b"
    /\ chainEnds 4 "b" focusOnB = true
    /\ setFocus 4 "unknown-id" focusOnB = Some st'
    /\ currentFocusKey st' = Some "unknown-id"
    /\ callbacks st'
       = EvBlur "X" lx :: EvBlur "b" lb :: EvUpdateFocus "b" false
         :: callbacks focusOnB.
Proof.
  assert (Hen : enabled focusOnB = true) by (vm_compute; reflexivity).
  assert (Hx : getFocusableComponent "unknown-id" focusOnB = None)
    by (vm_compute; reflexivity).
  assert (Hcur : currentFocusKey focusOnB = Some "b") by (vm_compute; reflexivity).
  assert (Hchain : chainEnds 4 "b" focusOnB = true) by (vm_compute; reflexivity).
  destruct (setFocus_unknown_key_takes_focus 4 "unknown-id" focusOnB Hen Hx)
    as (st' & Hset & _ & Hk & _).
  { rewrite Hcur. exact Hchain. }
  assert (Hcomputed : setFocus 4 "unknown-id" focusOnB
                      = Some (orInitial (setFocus 4 "unknown-id" focusOnB)))
    by (vm_compute; reflexivity).
  exists st'. do 2 eexists.
  split; [exact Hen|]. split; [exact Hx|]. split; [exact Hcur|].
  split; [exact Hchain|]. split; [exact Hset|]. split; [exact Hk|].
  rewrite Hcomputed in Hset. apply Some_inj in Hset. rewrite <- Hset.
  vm_compute. reflexivity.
Defined.

(** The refactored [focus] on the same input: [getValidLeafFocusKey]
    returns the current focus key for an unregistered target, both callback
    blocks are skipped and the focus key stays. *)
Lemma keyEq_refl : forall k, keyEq k k = true.
Proof. intro k. apply keyEq_eq. reflexivity. Qed.

Lemma focus_unknown_key_keeps_focus : forall fuel x st,
  enabled st = true ->
  getFocusableComponent x st = None ->
  focus fuel x st
  = match updateParentsHasFocusedChild fuel
            (propertyKey (currentFocusKey st)) st with
    | None => None
    | Some st' => updateParentsLastFocusedChild fuel (currentFocusKey st) st'
    end.
Proof.
  intros fuel x st Hen Hx. unfold focus. rewrite Hen. cbn [negb].
  assert (Hres : getValidLeafFocusKey fuel x st = Some (currentFocusKey st, st)).
  { destruct fuel; simpl; rewrite Hx; reflexivity. }
  rewrite Hres. cbv zeta. rewrite keyEq_refl. cbn [negb].
  destruct (getFocusableComponent (propertyKey (currentFocusKey st)) st);
    rewrite (with_currentFocusKey_same st _ eq_refl); reflexivity.
Qed.

(** The refactored [focus] guards both callback blocks: resolving to the
    key already in focus leaves out the focus callbacks as well. *)
Lemma focus_on_resolved_current_focus : forall fuel x st leaf st1,
  enabled st = true ->
  getValidLeafFocusKey fuel x st = Some (Some leaf, st1) ->
  currentFocusKey st = Some leaf ->
  currentFocusKey st1 = Some leaf ->
  focus fuel x st
  = match updateParentsHasFocusedChild fuel leaf st1 with
    | None => None
    | Some st' => updateParentsLastFocusedChild fuel (Some leaf) st'
    end.
Proof.
  intros fuel x st leaf st1 Hen Hres Hcur Hcur1. unfold focus.
  rewrite Hen, Hres, Hcur. cbn [negb]. cbv zeta. rewrite keyEq_refl. cbn [negb].
  cbn [propertyKey].
  destruct (getFocusableComponent leaf st1);
    rewrite (with_currentFocusKey_same st1 _ Hcur1); reflexivity.
Qed.

Example focus_unknown_key_scenario :
  exists st',
    focus 4 "unknown-id" focusOnB = Some st'
    /\ currentFocusKey st' = currentFocusKey focusOnB
    /\ callbacks st' = callbacks focusOnB.
Proof.
  eexists. split; [vm_compute; reflexivity|]. split; reflexivity.
Qed.

(** The other operations that take a key are no-ops on an unknown one. *)
Lemma unknown_key_is_noop : forall climb fuel key direction p st,
  getFocusableComponent key st = None ->
  updateFocusable key p st = st
  /\ removeFocusable fuel key st = Some st
  /\ updateLayout key st = st
  /\ smartNavigate climb fuel key direction st = Some st.
Proof.
  intros climb fuel key direction p st H.
  split; [unfold updateFocusable; rewrite H; reflexivity|].
  split; [unfold removeFocusable; rewrite H; reflexivity|].
  split; [apply updateLayout_unknown, H|].
  unfold smartNavigate.
  rewrite (smartNavigateWalk_unknown climb key direction st H). reflexivity.
Qed.

(** * Further properties of the code *)

(** ** Ties in the ranking *)

Section SortByStable.

Context {A : Type} (key : A -> Q).

Lemma first_insertBy : forall e l,
  first (insertBy key e l)
  = Some match first l with
         | Some h => if Qle_bool (key e) (key h) then e else h
         | None => e
         end.
Proof.
  intros e [|h t]; simpl; [reflexivity|].
  destruct (Qle_bool (key e) (key h)); reflexivity.
Qed.

(** [first (sortBy l key)] is the earliest element of [l] among those of
    least key: [sortBy] is a stable sort. *)
Lemma first_sortBy_earliest : forall l e,
  first (sortBy l key) = Some e ->
  exists before after,
    l = (before ++ e :: after)%list
    /\ (forall d, In d before -> (key e < key d)%Q)
    /\ (forall d, In d after -> (key e <= key d)%Q).
Proof.
  induction l as [|h t IH]; intros e H; [discriminate|].
  simpl in H. rewrite first_insertBy in H.
  destruct (first (sortBy t key)) as [m|] eqn:Hm.
  - destruct (Qle_bool (key h) (key m)) eqn:Hcmp; injection H as <-.
    + exists [], t. split; [reflexivity|]. split; [intros d []|].
      intros d Hd. apply Qle_bool_iff in Hcmp.
      eapply Qle_trans; [exact Hcmp|].
      apply (first_sortBy_least key t m Hm d Hd).
    + destruct (IH m eq_refl) as (before & after & -> & Hb & Ha).
      exists (h :: before), after. split; [reflexivity|]. split; [|exact Ha].
      intros d [<- | Hd]; [|apply Hb, Hd].
      apply Qnot_le_lt. intro Hle. apply Qle_bool_iff in Hle. congruence.
  - injection H as <-. apply first_sortBy_None in Hm. subst t.
    exists [], []. split; [reflexivity|]. split; intros d [].
Qed.

End SortByStable.

(** X1.  [getChildClosestToOrigin] returns nothing exactly on the empty
    list.  Otherwise it returns a child whose distance
    [|left| + |top|] from the origin is the least; among several children
    at that distance it returns the one that comes first in the list: every
    child before it is strictly farther, every child after it at least as
    far. *)
Theorem getChildClosestToOrigin_earliest_closest : forall children,
  match getChildClosestToOrigin children with
  | None => children = []
  | Some child =>
    exists before after,
      children = (before ++ child :: after)%list
      /\ (forall d, In d before -> originDistance child < originDistance d)
      /\ (forall d, In d after -> originDistance child <= originDistance d)
  end.
Proof.
  intro children. unfold getChildClosestToOrigin.
  destruct (first _) as [child|] eqn:H.
  - destruct (first_sortBy_earliest _ _ _ H) as (before & after & -> & Hb & Ha).
    exists before, after. split; [reflexivity|]. split; intros d Hd.
    + apply Hb in Hd. rewrite <- Zlt_Qlt in Hd. exact Hd.
    + apply Ha in Hd. rewrite <- Zle_Qle in Hd. exact Hd.
  - apply first_sortBy_None in H. exact H.
Qed.

(** X2.  The component that [smartNavigate] hands to [svc.setFocus] is,
    among the candidates of the component the walk is rooted at (the
    registered components that pass [isNodeFocusable], in the enumeration
    order of the store), the earliest one of least priority value: every
    candidate before it has a strictly greater value, every candidate after
    it a value at least as great. *)
Theorem smartNavigate_selects_earliest_of_least_priority :
  forall climb key direction st fromComponent nextComponent st',
    smartNavigateWalk climb key direction st
    = Some (CallSetFocus fromComponent nextComponent st') ->
    exists before after,
      filter (fun c => isNodeFocusable direction fromComponent c)
        (focusableComponents st')
      = (before ++ nextComponent :: after)%list
      /\ (forall d, In d before ->
            (priority direction (layout fromComponent) (layout nextComponent)
             < priority direction (layout fromComponent) (layout d))%Q)
      /\ (forall d, In d after ->
            (priority direction (layout fromComponent) (layout nextComponent)
             <= priority direction (layout fromComponent) (layout d))%Q).
Proof.
  induction climb as [|climb IH]; intros key direction st from next st' H;
    simpl in H;
    destruct (getFocusableComponent key st) as [c|]; try discriminate;
    destruct (isFocusBoundary c); try discriminate;
    destruct (first _) as [n|] eqn:Hfirst; try discriminate.
  - injection H as <- <- <-.
    apply (first_sortBy_earliest
             (fun sibling => priority direction (layout c) (layout sibling))).
    exact Hfirst.
  - injection H as <- <- <-.
    apply (first_sortBy_earliest
             (fun sibling => priority direction (layout c) (layout sibling))).
    exact Hfirst.
  - eapply IH. exact H.
Qed.

(** In [tiedSiblings], "B" and "B2" lie in the same box; moving right from
    "A" selects "B", which was registered first. *)
Lemma smartNavigate_selects_earliest_of_least_priority_witness :
  exists fromComponent nextComponent before after,
    smartNavigateWalk 0 "A" DIRECTION_RIGHT tiedSiblings
    = Some (CallSetFocus fromComponent nextComponent tiedSiblings)
    /\ focusKey nextComponent = "B"
    /\ filter (fun c => isNodeFocusable DIRECTION_RIGHT fromComponent c)
         (focusableComponents tiedSiblings)
       = (before ++ nextComponent :: after)%list
    /\ (forall d, In d after ->
          (priority DIRECTION_RIGHT (layout fromComponent) (layout nextComponent)
           <= priority DIRECTION_RIGHT (layout fromComponent) (layout d))%Q).
Proof.
  assert (H : smartNavigateWalk 0 "A" DIRECTION_RIGHT tiedSiblings
              = Some (CallSetFocus
                        (with_layout (layoutOf (mkRect 0 0 10 10 0 0)
                                        (elementAt 1 0 0 10 10))
                           (descriptor "A" "P" (elementAt 1 0 0 10 10)))
                        (with_layout (layoutOf (mkRect 20 0 10 10 20 0)
                                        (elementAt 2 20 0 10 10))
                           (descriptor "B" "P" (elementAt 2 20 0 10 10)))
                        tiedSiblings)) by (vm_compute; reflexivity).
  destruct (smartNavigate_selects_earliest_of_least_priority _ _ _ _ _ _ _ H)
    as (before & after & Hsplit & _ & Hafter).
  do 2 eexists. exists before, after.
  split; [exact H|]. split; [reflexivity|]. split; [exact Hsplit | exact Hafter].
Defined.

(** ** The candidate filter *)

Lemma geb_leb_swap : forall n m : Z, (n >=? m)%Z = (m <=? n)%Z.
Proof. intros n m. apply Z.geb_leb. Qed.

(** X3.  Between two focusable components, eligibility is symmetric under
    reversal of the direction: [to] is a candidate for a move left from
    [from] exactly when [from] is a candidate for a move right from [to],
    and likewise for up and down. *)
Theorem isNodeFocusable_opposite_directions : forall from to,
  focusable from = true ->
  focusable to = true ->
  isNodeFocusable DIRECTION_LEFT from to = isNodeFocusable DIRECTION_RIGHT to from
  /\ isNodeFocusable DIRECTION_UP from to = isNodeFocusable DIRECTION_DOWN to from.
Proof.
  intros from to Hf Ht. unfold isNodeFocusable. rewrite Hf, Ht. cbn [negb].
  rewrite (String.eqb_sym (focusKey to) (focusKey from)).
  rewrite (String.eqb_sym (parentFocusKey to) (parentFocusKey from)).
  destruct (focusKey from =? focusKey to); [split; reflexivity|].
  destruct (parentFocusKey from =? parentFocusKey to); [|split; reflexivity].
  cbn. split; [apply geb_leb_swap | reflexivity].
Qed.

Lemma isNodeFocusable_opposite_directions_witness :
  exists a b,
    getFocusableComponent "A" threeSiblings = Some a
    /\ getFocusableComponent "B" threeSiblings = Some b
    /\ isNodeFocusable DIRECTION_LEFT b a = true
    /\ isNodeFocusable DIRECTION_RIGHT a b = true.
Proof.
  do 2 eexists.
  split; [vm_compute; reflexivity|]. split; [vm_compute; reflexivity|].
  match goal with
  | |- isNodeFocusable _ ?b ?a = _ /\ _ =>
    destruct (isNodeFocusable_opposite_directions b a eq_refl eq_refl) as [H _]
  end.
  split; [reflexivity|]. rewrite <- H. reflexivity.
Defined.

(** X4.  Two components whose boxes overlap on a non-empty area are
    candidates for each other in no direction, whatever string the
    direction is. *)
Theorem isNodeFocusable_overlapping : forall direction from to,
  overlapping (layout from) (layout to) ->
  isNodeFocusable direction from to = false.
Proof.
  intros direction from to (H1 & H2 & H3 & H4). unfold isNodeFocusable.
  destruct (negb (focusable to)); [reflexivity|].
  destruct (focusKey from =? focusKey to); [reflexivity|].
  destruct (negb (parentFocusKey from =? parentFocusKey to)); [reflexivity|].
  destruct (direction =? DIRECTION_LEFT);
    [cbv zeta; rewrite geb_leb_swap; apply Z.leb_gt; lia|].
  destruct (direction =? DIRECTION_RIGHT); [cbv zeta; apply Z.leb_gt; lia|].
  destruct (direction =? DIRECTION_DOWN);
    [cbv zeta; rewrite geb_leb_swap; apply Z.leb_gt; lia|].
  destruct (direction =? DIRECTION_UP);
    [cbv zeta; rewrite geb_leb_swap; apply Z.leb_gt; lia|].
  reflexivity.
Qed.

(** In [twoGroups] the leaf "A" (0,0,30,10) overlaps the group "P1"
    (0,0,10,10). *)
Lemma isNodeFocusable_overlapping_witness :
  let a := with_layout (layoutOf (mkRect 0 0 30 10 0 0) (elementAt 3 0 0 30 10))
             (descriptor "A" "P1" (elementAt 3 0 0 30 10)) in
  let p := with_layout (layoutOf (mkRect 0 0 10 10 0 0) (elementAt 1 0 0 10 10))
             (descriptor "P1" ROOT_FOCUS_KEY (elementAt 1 0 0 10 10)) in
  getFocusableComponent "A" twoGroups = Some a
  /\ getFocusableComponent "P1" twoGroups = Some p
  /\ overlapping (layout a) (layout p)
  /\ isNodeFocusable DIRECTION_RIGHT a p = false.
Proof.
  intros a p.
  assert (Ho : overlapping (layout a) (layout p))
    by (unfold overlapping; cbn; lia).
  split; [vm_compute; reflexivity|]. split; [vm_compute; reflexivity|].
  split; [exact Ho|].
  exact (isNodeFocusable_overlapping DIRECTION_RIGHT a p Ho).
Defined.

(** ** What the walk of [smartNavigate] writes *)

Lemma sameButLastFocusedChild_refl : forall st, sameButLastFocusedChild st st.
Proof. intro st. repeat split. Qed.

Lemma sameButLastFocusedChild_trans : forall st1 st2 st3,
  sameButLastFocusedChild st1 st2 -> sameButLastFocusedChild st2 st3 ->
  sameButLastFocusedChild st1 st3.
Proof.
  intros st1 st2 st3 (A1 & B1 & C1 & D1 & E1 & F1) (A2 & B2 & C2 & D2 & E2 & F2).
  repeat split; congruence.
Qed.

Lemma sameButLastFocusedChild_save : forall pc v st,
  sameButLastFocusedChild st (saveLastFocusedChildKey pc v st).
Proof.
  intros [p|] v st; [|apply sameButLastFocusedChild_refl].
  repeat split. simpl. unfold mutate. rewrite map_map. apply map_ext.
  intro c. destruct (focusKey c =? focusKey p); reflexivity.
Qed.

Lemma smartNavigateWalk_sameButLastFocusedChild : forall climb key direction st w,
  smartNavigateWalk climb key direction st = Some w ->
  sameButLastFocusedChild st (stateOf w).
Proof.
  induction climb as [|climb IH]; intros key direction st w H; simpl in H;
    destruct (getFocusableComponent key st) as [c|];
    try (injection H as <-; apply sameButLastFocusedChild_refl);
    destruct (isFocusBoundary c);
    try (injection H as <-; apply sameButLastFocusedChild_refl);
    destruct (first _) as [n|];
    try (injection H as <-; apply sameButLastFocusedChild_refl);
    try discriminate.
  eapply sameButLastFocusedChild_trans;
    [apply sameButLastFocusedChild_save | eapply IH; exact H].
Qed.

Lemma isNodeFocusable_no_direction : forall direction from to,
  isDirection direction = false -> isNodeFocusable direction from to = false.
Proof.
  intros direction from to H. unfold isDirection in H.
  repeat (apply orb_false_iff in H; destruct H as [H ?]).
  unfold isNodeFocusable.
  destruct (negb (focusable to)); [reflexivity|].
  destruct (focusKey from =? focusKey to); [reflexivity|].
  destruct (negb (parentFocusKey from =? parentFocusKey to)); [reflexivity|].
  rewrite H.
  repeat match goal with
         | E : (direction =? _) = false |- _ => rewrite E; clear E
         end.
  reflexivity.
Qed.

Lemma filter_none : forall (A : Type) (f : A -> bool) l,
  (forall e, f e = false) -> filter f l = [].
Proof.
  intros A f l H. induction l as [|h t IH]; simpl; [reflexivity|].
  rewrite H. exact IH.
Qed.

(** A walk in no direction climbs until the parent chain ends. *)
Lemma smartNavigateWalk_no_direction : forall climb key direction st,
  isDirection direction = false ->
  chainEnds climb key st = true ->
  exists st', smartNavigateWalk climb key direction st = Some (Return st').
Proof.
  induction climb as [|climb IH]; intros key direction st Hd Hc;
    simpl in Hc; simpl;
    destruct (getFocusableComponent key st) as [c|] eqn:Hk;
    try discriminate; try (exists st; reflexivity).
  destruct (isFocusBoundary c); [exists st; reflexivity|].
  erewrite filter_none
    by (intro; apply isNodeFocusable_no_direction; exact Hd).
  simpl. apply IH; [exact Hd|].
  rewrite (chainEnds_sameParents climb (parentFocusKey c) st _
             (sameParents_saveLastFocusedChildKey _ _ st)).
  exact Hc.
Qed.

(** X5.  Up to its call of [svc.setFocus], [smartNavigate] writes nothing
    but [lastFocusedChildKey] fields: the state in which the walk ends has
    the same components in the same order with all their other fields, the
    same focus key, the same flagged parents; no callback was invoked and
    no layout measured. *)
Theorem smartNavigate_walk_writes_only_lastFocusedChild :
  forall climb key direction st w,
    smartNavigateWalk climb key direction st = Some w ->
    sameButLastFocusedChild st (stateOf w).
Proof. exact smartNavigateWalk_sameButLastFocusedChild. Qed.

(** Moving left from the only leaf of [boundaryGroup] climbs once and ends
    at the boundary. *)
Lemma smartNavigate_walk_writes_only_lastFocusedChild_witness :
  exists st',
    smartNavigateWalk 1 "A" DIRECTION_LEFT boundaryGroup = Some (Return st')
    /\ sameButLastFocusedChild boundaryGroup st'.
Proof.
  assert (H : smartNavigateWalk 1 "A" DIRECTION_LEFT boundaryGroup
              = Some (Return
                        (orInitial (smartNavigate 1 1 "A" DIRECTION_LEFT
                                      boundaryGroup))))
    by (vm_compute; reflexivity).
  eexists. split; [exact H|].
  exact (smartNavigate_walk_writes_only_lastFocusedChild _ _ _ _ _ H).
Defined.

(** X6.  With a direction that is none of "left", "right", "up" and "down",
    [smartNavigate] never calls [svc.setFocus]: when the parent chain of the
    origin ends it returns, having changed nothing but [lastFocusedChildKey]
    fields. *)
Theorem smartNavigate_without_direction_never_focuses :
  forall climb fuel key direction st,
    isDirection direction = false ->
    chainEnds climb key st = true ->
    exists st',
      smartNavigateWalk climb key direction st = Some (Return st')
      /\ smartNavigate climb fuel key direction st = Some st'
      /\ sameButLastFocusedChild st st'.
Proof.
  intros climb fuel key direction st Hd Hc.
  destruct (smartNavigateWalk_no_direction climb key direction st Hd Hc)
    as [st' Hw].
  exists st'. split; [exact Hw|]. split.
  - unfold smartNavigate. rewrite Hw. reflexivity.
  - apply (smartNavigateWalk_sameButLastFocusedChild _ _ _ _ _ Hw).
Qed.

Lemma smartNavigate_without_direction_never_focuses_witness :
  isDirection KEY_ENTER = false
  /\ chainEnds 2 "b" focusOnB = true
  /\ exists st',
       smartNavigate 2 4 "b" KEY_ENTER focusOnB = Some st'
       /\ sameButLastFocusedChild focusOnB st'.
Proof.
  assert (Hd : isDirection KEY_ENTER = false) by reflexivity.
  assert (Hc : chainEnds 2 "b" focusOnB = true) by (vm_compute; reflexivity).
  split; [exact Hd|]. split; [exact Hc|].
  destruct (smartNavigate_without_direction_never_focuses 2 4 "b" KEY_ENTER
              focusOnB Hd Hc) as (st' & _ & Hnav & Hsame).
  exists st'. split; [exact Hnav | exact Hsame].
Defined.

(** ** The parent chain of the focus *)

Lemma sameParents_sym : forall st st', sameParents st st' -> sameParents st' st.
Proof. intros st st' H k. symmetry. apply H. Qed.

Lemma sameParents_isFocusableComponent : forall st st' k,
  sameParents st st' ->
  isFocusableComponent k st' = isFocusableComponent k st.
Proof.
  intros st st' k H. unfold isFocusableComponent. specialize (H k).
  destruct (getFocusableComponent k st'), (getFocusableComponent k st);
    simpl in H; congruence.
Qed.

Lemma ancestorOrSelf_sameParents : forall st st' k k',
  sameParents st st' -> ancestorOrSelf st k k' -> ancestorOrSelf st' k k'.
Proof.
  intros st st' k k' H Ha. induction Ha as [k|k c k' Hc _ IH].
  - constructor.
  - pose proof (H k) as Hk. rewrite Hc in Hk.
    destruct (getFocusableComponent k st') as [c'|] eqn:Hc'; [|discriminate].
    simpl in Hk. injection Hk as Hk.
    eapply ancestorOrSelf_parent; [exact Hc'|]. rewrite Hk. exact IH.
Qed.

Lemma properAncestor_sameParents : forall st st' k p,
  sameParents st st' -> properAncestor st k p -> properAncestor st' k p.
Proof.
  intros st st' k p H (c & Hc & Ha & Hp).
  pose proof (H k) as Hk. rewrite Hc in Hk.
  destruct (getFocusableComponent k st') as [c'|] eqn:Hc'; [|discriminate].
  simpl in Hk. injection Hk as Hk.
  exists c'. split; [exact Hc'|]. split.
  - rewrite Hk. eapply ancestorOrSelf_sameParents; eassumption.
  - rewrite (sameParents_isFocusableComponent _ _ _ H). exact Hp.
Qed.

Lemma collectParents_sameParents : forall fuel k st st',
  sameParents st st' ->
  collectParents fuel (getFocusableComponent k st') st'
  = collectParents fuel (getFocusableComponent k st) st.
Proof.
  induction fuel as [|fuel IH]; intros k st st' H;
    pose proof (H k) as Hk;
    destruct (getFocusableComponent k st') as [c'|] eqn:Hc',
             (getFocusableComponent k st) as [c|] eqn:Hc;
    simpl in Hk; try discriminate; try reflexivity.
  injection Hk as Hk. simpl. rewrite Hk.
  rewrite (IH (parentFocusKey c) st st' H).
  pose proof (H (parentFocusKey c)) as Hp.
  destruct (getFocusableComponent (parentFocusKey c) st') as [p'|] eqn:Hp',
           (getFocusableComponent (parentFocusKey c) st) as [p|] eqn:Hp0;
    simpl in Hp; try discriminate; try reflexivity.
  rewrite (lookup_focusKey _ _ _ Hp'), (lookup_focusKey _ _ _ Hp0).
  reflexivity.
Qed.

Lemma ancestorOrSelf_unregistered : forall st k k',
  getFocusableComponent k st = None -> ancestorOrSelf st k k' -> k' = k.
Proof.
  intros st k k' Hk Ha. destruct Ha as [k|k c k' Hc _]; [reflexivity|congruence].
Qed.

(** What the loop of [updateParentsHasFocusedChild] collects: the
    registered proper ancestors. *)
Lemma collectParents_In : forall fuel k st parents p,
  collectParents fuel (getFocusableComponent k st) st = Some parents ->
  In p parents <-> properAncestor st k p.
Proof.
  induction fuel as [|fuel IH]; intros k st parents p H;
    destruct (getFocusableComponent k st) as [c|] eqn:Hc; simpl in H;
    try discriminate;
    try (injection H as <-; split; [intros [] | intros (c & Hc' & _); congruence]).
  destruct (collectParents fuel (getFocusableComponent (parentFocusKey c) st) st)
    as [rest|] eqn:Hrest; [|discriminate].
  specialize (IH (parentFocusKey c) st rest p Hrest).
  destruct (getFocusableComponent (parentFocusKey c) st) as [q|] eqn:Hq;
    injection H as <-.
  - rewrite (lookup_focusKey _ _ _ Hq). split.
    + intros [<- | Hin].
      * exists c. split; [exact Hc|]. split; [constructor|].
        unfold isFocusableComponent. rewrite Hq. reflexivity.
      * apply IH in Hin. destruct Hin as (q' & Hq' & Ha & Hp).
        exists c. split; [exact Hc|]. split; [|exact Hp].
        eapply ancestorOrSelf_parent; [exact Hq|].
        rewrite Hq in Hq'. injection Hq' as <-. exact Ha.
    + intros (c' & Hc' & Ha & Hp). rewrite Hc in Hc'. injection Hc' as <-.
      inversion Ha as [|k0 q' k0' Hq' Ha']; subst.
      * left. reflexivity.
      * right. apply IH. exists q'. split; [exact Hq'|]. split; assumption.
  - split.
    + intro Hin. apply IH in Hin. destruct Hin as (q' & Hq' & _). congruence.
    + intros (c' & Hc' & Ha & Hp). rewrite Hc in Hc'. injection Hc' as <-.
      apply (ancestorOrSelf_unregistered _ _ _ Hq) in Ha. subst p.
      unfold isFocusableComponent in Hp. rewrite Hq in Hp. discriminate.
Qed.

Lemma sameParents_saveLastFocusedChain : forall fuel key st st',
  saveLastFocusedChain fuel key st = Some st' -> sameParents st st'.
Proof.
  induction fuel as [|fuel IH]; intros key st st' H; simpl in H;
    destruct (getFocusableComponent key st) as [c|];
    try discriminate; try (injection H as <-; apply sameParents_refl).
  destruct (getFocusableComponent (parentFocusKey c) st) as [p|];
    [|injection H as <-; apply sameParents_refl].
  eapply sameParents_trans;
    [apply sameParents_saveLastFocusedChildKey | eapply IH; exact H].
Qed.

Lemma saveLastFocusedChain_parentsHavingFocusedChild : forall fuel key st st',
  saveLastFocusedChain fuel key st = Some st' ->
  parentsHavingFocusedChild st' = parentsHavingFocusedChild st.
Proof.
  induction fuel as [|fuel IH]; intros key st st' H; simpl in H;
    destruct (getFocusableComponent key st) as [c|];
    try discriminate; try (injection H as <-; reflexivity).
  destruct (getFocusableComponent (parentFocusKey c) st) as [p|];
    [|injection H as <-; reflexivity].
  apply IH in H. rewrite H. reflexivity.
Qed.

Section ParentCallbacks.

Variable allowed : Event -> bool.
Hypothesis allowed_others : forall e, isUpdateFocus e = false -> allowed e = true.

Lemma firesOnly_intermediate : forall (blurred : bool) key st,
  firesOnly allowed st
    (if blurred then onIntermediateNodeBecameBlurred key st
     else onIntermediateNodeBecameFocused key st).
Proof.
  intros blurred key st.
  destruct blurred;
    [unfold onIntermediateNodeBecameBlurred
    | unfold onIntermediateNodeBecameFocused];
    (destruct (isParticipatingFocusableComponent key st);
     [|apply firesOnly_refl]);
    pose proof (sameTree_getNodeLayoutByFocusKey key st) as Hs;
    destruct (getNodeLayoutByFocusKey key st) as [l st1]; simpl in Hs;
    (eapply firesOnly_trans; [apply firesOnly_sameTree, Hs|]);
    apply firesOnly_fire, allowed_others; reflexivity.
Qed.

Lemma firesOnly_flagParent_others : forall b st key,
  firesOnly allowed st (flagParent b st key).
Proof.
  intros b st key. unfold flagParent.
  eapply firesOnly_trans.
  - instantiate (1 := match getFocusableComponent key st with
                      | Some parentComponent =>
                        if trackChildren parentComponent
                        then fire (EvUpdateHasFocusedChild
                                     (focusKey parentComponent) b) st
                        else st
                      | None => st
                      end).
    destruct (getFocusableComponent key st) as [p|]; [|apply firesOnly_refl].
    destruct (trackChildren p); [|apply firesOnly_refl].
    apply firesOnly_fire, allowed_others. reflexivity.
  - destruct b; [apply (firesOnly_intermediate false)
                | apply (firesOnly_intermediate true)].
Qed.

Lemma firesOnly_flagParents_others : forall b keys st,
  firesOnly allowed st (fold_left (flagParent b) keys st).
Proof.
  intros b keys. induction keys as [|k t IH]; intro st; simpl;
    [apply firesOnly_refl|].
  eapply firesOnly_trans; [apply firesOnly_flagParent_others | apply IH].
Qed.

Lemma firesOnly_updateParents_others : forall fuel key st st',
  updateParentsHasFocusedChild fuel key st = Some st' ->
  firesOnly allowed st st'.
Proof.
  intros fuel key st st' H. unfold updateParentsHasFocusedChild in H.
  destruct (collectParents fuel (getFocusableComponent key st) st) as [parents|];
    [|discriminate].
  injection H as <-.
  eapply firesOnly_trans; [apply firesOnly_flagParents_others|].
  eapply firesOnly_trans; [apply firesOnly_flagParents_others|].
  split; [reflexivity|]. exists []. split; reflexivity.
Qed.

End ParentCallbacks.

(** X8.  When [setFocus] returns on an enabled service, the focus key is
    set and [parentsHavingFocusedChild] holds exactly the registered proper
    ancestors of that key, nearest first: it is what the ancestor loop of
    [updateParentsHasFocusedChild] collects in the final state. *)

Theorem setFocus_flags_the_ancestors : forall fuel x st st',
  enabled st = true ->
  setFocus fuel x st = Some st' ->
  exists leaf,
    currentFocusKey st' = Some leaf
    /\ collectParents fuel (getFocusableComponent leaf st') st'
       = Some (parentsHavingFocusedChild st')
    /\ (forall p, In p (parentsHavingFocusedChild st')
                  <-> properAncestor st' leaf p).
Proof.
  intros fuel x st st' Hen H. unfold setFocus in H. rewrite Hen in H.
  cbn [negb] in H.
  destruct (getNextFocusKey fuel x st) as [[leaf st1]|]; [|discriminate].
  destruct (updateParentsHasFocusedChild fuel leaf (setCurrentFocusedKey leaf st1))
    as [st3|] eqn:Hupd; [|discriminate].
  unfold updateParentsLastFocusedChild in H.
  exists leaf.
  assert (Hk : currentFocusKey st' = Some leaf).
  { destruct (firesOnly_saveLastFocusedChain (fun _ => true) _ _ _ _ H) as [-> _].
    destruct (firesOnly_updateParentsHasFocusedChild _ _ _ _ Hupd) as [-> _].
    apply setCurrentFocusedKey_currentFocusKey. }
  assert (Hc : collectParents fuel (getFocusableComponent leaf st') st'
               = Some (parentsHavingFocusedChild st')).
  { rewrite (saveLastFocusedChain_parentsHavingFocusedChild _ _ _ _ H).
    rewrite (collectParents_sameParents fuel leaf _ _
               (sameParents_trans _ _ _
                  (sameParents_updateParentsHasFocusedChild _ _ _ _ Hupd)
                  (sameParents_saveLastFocusedChain _ _ _ _ H))).
    unfold updateParentsHasFocusedChild in Hupd.
    destruct (collectParents fuel _ _) as [parents|]; [|discriminate].
    injection Hupd as <-. reflexivity. }
  split; [exact Hk|]. split; [exact Hc|].
  intro p. apply (collectParents_In _ _ _ _ _ Hc).
Qed.


Lemma setFocus_flags_the_ancestors_witness :
  enabled focusOnB = true
  /\ exists st' leaf,
       setFocus 4 "a" focusOnB = Some st'
       /\ currentFocusKey st' = Some leaf
       /\ collectParents 4 (getFocusableComponent leaf st') st'
          = Some (parentsHavingFocusedChild st')
       /\ parentsHavingFocusedChild st' = ["X"].
Proof.
  assert (Hen : enabled focusOnB = true) by reflexivity.
  assert (Hset : setFocus 4 "a" focusOnB
                 = Some (orInitial (setFocus 4 "a" focusOnB)))
    by (vm_compute; reflexivity).
  split; [exact Hen|].
  destruct (setFocus_flags_the_ancestors 4 "a" focusOnB _ Hen Hset)
    as (leaf & Hk & Hc & _).
  eexists. exists leaf.
  split; [exact Hset|]. split; [exact Hk|]. split; [exact Hc|].
  vm_compute. reflexivity.
Defined.

(** ** The path that the focus left *)

Lemma chainEnds_S : forall fuel key st,
  chainEnds fuel key st = true -> chainEnds (S fuel) key st = true.
Proof.
  induction fuel as [|fuel IH]; intros key st H.
  - simpl in *. destruct (getFocusableComponent key st); [discriminate|reflexivity].
  - change (chainEnds (S (S fuel)) key st)
      with (match getFocusableComponent key st with
            | None => true
            | Some c => chainEnds (S fuel) (parentFocusKey c) st
            end).
    simpl in H. destruct (getFocusableComponent key st); [|reflexivity].
    apply IH, H.
Qed.

Lemma chainEnds_ancestor : forall st a b,
  ancestorOrSelf st a b ->
  forall fuel, chainEnds fuel a st = true -> chainEnds fuel b st = true.
Proof.
  intros st a b Ha. induction Ha as [k|k c k' Hc _ IH]; intros fuel H;
    [exact H|].
  destruct fuel as [|fuel]; simpl in H; rewrite Hc in H; [discriminate|].
  apply chainEnds_S, IH, H.
Qed.

(** A parent chain that ends passes through no key twice. *)
Lemma chainEnds_not_own_ancestor : forall fuel key st,
  chainEnds fuel key st = true -> ~ properAncestor st key key.
Proof.
  induction fuel as [|fuel IH]; intros key st H (c & Hc & Ha & _);
    simpl in H; rewrite Hc in H; [discriminate|].
  apply (IH key st).
  - apply (chainEnds_ancestor _ _ _ Ha), H.
  - exists c. split; [exact Hc|]. split; [exact Ha|].
    unfold isFocusableComponent. rewrite Hc. reflexivity.
Qed.

Lemma saveLastFocusedChain_chainEnds : forall fuel key st st',
  saveLastFocusedChain fuel key st = Some st' -> chainEnds fuel key st = true.
Proof.
  induction fuel as [|fuel IH]; intros key st st' H; simpl in H; simpl;
    destruct (getFocusableComponent key st) as [c|]; try discriminate;
    try reflexivity.
  destruct (getFocusableComponent (parentFocusKey c) st) as [p|] eqn:Hp.
  - apply IH in H. rewrite (lookup_focusKey _ _ _ Hp) in H.
    rewrite (chainEnds_sameParents fuel (parentFocusKey c) st _
               (sameParents_saveLastFocusedChildKey _ _ st)) in H.
    exact H.
  - destruct fuel; simpl; rewrite Hp; reflexivity.
Qed.

(** The loop of [updateParentsLastFocusedChild] writes to proper ancestors
    only. *)
Lemma saveLastFocusedChain_untouched : forall fuel key st st',
  saveLastFocusedChain fuel key st = Some st' ->
  forall r, ~ properAncestor st key r ->
            getFocusableComponent r st' = getFocusableComponent r st.
Proof.
  induction fuel as [|fuel IH]; intros key st st' H r Hr; simpl in H;
    destruct (getFocusableComponent key st) as [c|] eqn:Hc;
    try discriminate; try (injection H as <-; reflexivity).
  destruct (getFocusableComponent (parentFocusKey c) st) as [p|] eqn:Hp;
    [|injection H as <-; reflexivity].
  pose proof (sameParents_saveLastFocusedChildKey (Some p)
                (Some (focusKey c)) st) as Hsame.
  rewrite (IH _ _ _ H r).
  - apply getFocusableComponent_saveLastFocusedChildKey_other.
    intros ->. apply Hr. exists c. split; [exact Hc|].
    rewrite (lookup_focusKey _ _ _ Hp). split; [constructor|].
    unfold isFocusableComponent. rewrite Hp. reflexivity.
  - intro Hpa. apply Hr.
    apply (properAncestor_sameParents _ _ _ _ (sameParents_sym _ _ Hsame)) in Hpa.
    destruct Hpa as (q & Hq & Ha & Hreg).
    rewrite (lookup_focusKey _ _ _ Hp) in Hq.
    exists c. split; [exact Hc|]. split; [|exact Hreg].
    eapply ancestorOrSelf_parent; [exact Hq | exact Ha].
Qed.

Lemma saveLastFocusedChain_remembers : forall fuel key st st',
  saveLastFocusedChain fuel key st = Some st' ->
  forall k c,
    ancestorOrSelf st key k ->
    getFocusableComponent k st = Some c ->
    isFocusableComponent (parentFocusKey c) st = true ->
    option_map lastFocusedChildKey (getFocusableComponent (parentFocusKey c) st')
    = Some (Some k).
Proof.
  induction fuel as [|fuel IH]; intros key st st' H k c Ha Hk Hreg; simpl in H.
  - destruct (getFocusableComponent key st) as [c0|] eqn:Hc0; [discriminate|].
    apply (ancestorOrSelf_unregistered _ _ _ Hc0) in Ha. congruence.
  - destruct (getFocusableComponent key st) as [c0|] eqn:Hc0.
    2:{ apply (ancestorOrSelf_unregistered _ _ _ Hc0) in Ha. congruence. }
    destruct (getFocusableComponent (parentFocusKey c0) st) as [p0|] eqn:Hp0.
    2:{ inversion Ha as [|k0 c0' k0' Hc0' Ha']; subst.
        - rewrite Hc0 in Hk. injection Hk as <-.
          unfold isFocusableComponent in Hreg. rewrite Hp0 in Hreg. discriminate.
        - rewrite Hc0 in Hc0'. injection Hc0' as <-.
          apply (ancestorOrSelf_unregistered _ _ _ Hp0) in Ha'. congruence. }
    pose proof (sameParents_saveLastFocusedChildKey (Some p0)
                  (Some (focusKey c0)) st) as Hsame.
    inversion Ha as [|k0 c0' k0' Hc0' Ha']; subst;
      pose proof (lookup_focusKey _ _ _ Hp0) as Ep0;
      pose proof (lookup_focusKey _ _ _ Hc0) as Ec0.
    + rewrite Hc0 in Hk. injection Hk as <-.
      rewrite (saveLastFocusedChain_untouched _ _ _ _ H).
      * rewrite getFocusableComponent_saveLastFocusedChildKey, Hp0. simpl.
        rewrite String.eqb_refl. simpl. rewrite Ec0. reflexivity.
      * rewrite Ep0. apply (chainEnds_not_own_ancestor fuel).
        rewrite <- Ep0. apply (saveLastFocusedChain_chainEnds _ _ _ _ H).
    + rewrite Hc0 in Hc0'. injection Hc0' as <-.
      pose proof (Hsame k) as Hk1. rewrite Hk in Hk1.
      destruct (getFocusableComponent k
                  (saveLastFocusedChildKey (Some p0) (Some (focusKey c0)) st))
        as [c1|] eqn:Hc1; [|discriminate].
      simpl in Hk1. injection Hk1 as Hk1. rewrite <- Hk1.
      apply (IH _ _ _ H k c1).
      * rewrite Ep0. apply (ancestorOrSelf_sameParents _ _ _ _ Hsame), Ha'.
      * exact Hc1.
      * rewrite (sameParents_isFocusableComponent _ _ _ Hsame), Hk1. exact Hreg.
Qed.

(** X9.  When [setFocus] returns on an enabled service, every registered
    component on the parent chain of the previous focus key, that key
    included, is remembered by its registered parent: the parent's
    [lastFocusedChildKey] is the component's key. *)

Theorem setFocus_remembers_the_path_left : forall fuel x st st' old,
  enabled st = true ->
  currentFocusKey st = Some old ->
  setFocus fuel x st = Some st' ->
  forall k c,
    ancestorOrSelf st old k ->
    getFocusableComponent k st = Some c ->
    isFocusableComponent (parentFocusKey c) st = true ->
    exists p,
      getFocusableComponent (parentFocusKey c) st' = Some p
      /\ lastFocusedChildKey p = Some k.
Proof.
  intros fuel x st st' old Hen Hold H k c Ha Hk Hreg.
  unfold setFocus in H. rewrite Hen, Hold in H. cbn [negb] in H.
  destruct (getNextFocusKey fuel x st) as [[leaf st1]|] eqn:Hres; [|discriminate].
  destruct (updateParentsHasFocusedChild fuel leaf (setCurrentFocusedKey leaf st1))
    as [st3|] eqn:Hupd; [|discriminate].
  unfold updateParentsLastFocusedChild in H. cbn [propertyKey] in H.
  assert (Hsame : sameParents st st3).
  { eapply sameParents_trans;
      [apply sameParents_sameTree, (getNextFocusKey_sameTree _ _ _ _ _ Hres)|].
    eapply sameParents_trans; [apply sameParents_setCurrentFocusedKey|].
    apply (sameParents_updateParentsHasFocusedChild _ _ _ _ Hupd). }
  pose proof (Hsame k) as Hk3. rewrite Hk in Hk3.
  destruct (getFocusableComponent k st3) as [c3|] eqn:Hc3; [|discriminate].
  simpl in Hk3. injection Hk3 as Hk3.
  pose proof (saveLastFocusedChain_remembers _ _ _ _ H k c3
                (ancestorOrSelf_sameParents _ _ _ _ Hsame Ha) Hc3) as Hr.
  rewrite Hk3 in Hr.
  rewrite (sameParents_isFocusableComponent _ _ _ Hsame) in Hr.
  specialize (Hr Hreg).
  destruct (getFocusableComponent (parentFocusKey c) st') as [p|]; [|discriminate].
  simpl in Hr. injection Hr as Hr. exists p. split; [reflexivity | exact Hr].
Qed.


(** In [focusOnB], moving the focus from "b" to "a" leaves "b" as the last
    focused child of the group "X". *)
Lemma setFocus_remembers_the_path_left_witness :
  enabled focusOnB = true
  /\ currentFocusKey focusOnB = Some "b"
  /\ exists st' p,
       setFocus 4 "a" focusOnB = Some st'
       /\ getFocusableComponent "X" st' = Some p
       /\ lastFocusedChildKey p = Some "b".
Proof.
  assert (Hen : enabled focusOnB = true) by reflexivity.
  assert (Hcur : currentFocusKey focusOnB = Some "b") by reflexivity.
  assert (Hset : setFocus 4 "a" focusOnB
                 = Some (orInitial (setFocus 4 "a" focusOnB)))
    by (vm_compute; reflexivity).
  assert (Hb : getFocusableComponent "b" focusOnB
               = Some (with_layout (layoutOf (mkRect 20 0 10 10 20 0)
                                      (elementAt 3 20 0 10 10))
                         (descriptor "b" "X" (elementAt 3 20 0 10 10))))
    by (vm_compute; reflexivity).
  split; [exact Hen|]. split; [exact Hcur|].
  destruct (setFocus_remembers_the_path_left 4 "a" focusOnB _ "b" Hen Hcur Hset
              "b" _ (ancestorOrSelf_self focusOnB "b") Hb)
    as (p & Hp & Hlast).
  { vm_compute. reflexivity. }
  eexists. exists p. split; [exact Hset|]. split; [exact Hp | exact Hlast].
Defined.

(** ** The callbacks of a focus change *)

Lemma getNodeLayoutByFocusKey_reports : forall key st c,
  getFocusableComponent key st = Some c ->
  fst (getNodeLayoutByFocusKey key st) = Some (reportedLayout c).
Proof.
  intros key st c H. unfold getNodeLayoutByFocusKey. rewrite H. cbn [fst].
  rewrite (lookup_focusKey _ _ _ H). unfold updateLayout, reportedLayout.
  rewrite H. destruct (layoutUpdated c); [rewrite H; reflexivity|].
  unfold getFocusableComponent. cbn [focusableComponents with_components].
  rewrite lookup_mutate_same by reflexivity.
  unfold getFocusableComponent in H. rewrite H. reflexivity.
Qed.

(** Committing the key that is already current: the focus callbacks of its
    component, and no others. *)
Lemma setCurrentFocusedKey_refocus : forall key st c,
  currentFocusKey st = Some key ->
  getFocusableComponent key st = Some c ->
  callbacks (setCurrentFocusedKey key st)
  = EvFocus key (Some (reportedLayout c)) :: EvUpdateFocus key true
      :: callbacks st.
Proof.
  intros key st c Hk Hc. unfold setCurrentFocusedKey.
  rewrite Hk. rewrite keyEq_refl. rewrite andb_false_r.
  rewrite (with_currentFocusKey_same st (Some key) Hk). rewrite Hc.
  pose proof (getNodeLayoutByFocusKey_reports key
                (fire (EvUpdateFocus (focusKey c) true) st) c Hc) as Hl.
  pose proof (sameTree_getNodeLayoutByFocusKey key
                (fire (EvUpdateFocus (focusKey c) true) st)) as Hs.
  destruct (getNodeLayoutByFocusKey key _) as [l st1]. simpl in Hl, Hs.
  destruct Hs as (_ & _ & _ & _ & Hcb). simpl. rewrite Hcb, Hl.
  rewrite (lookup_focusKey _ _ _ Hc). reflexivity.
Qed.

(** [setFocus] on a key that leaf resolution returns as it is. *)
Lemma setFocus_commits : forall fuel key st,
  enabled st = true ->
  getNextFocusKey fuel key st = Some (key, st) ->
  chainEnds fuel key st = true ->
  chainEnds fuel (propertyKey (currentFocusKey st)) st = true ->
  exists st',
    setFocus fuel key st = Some st'
    /\ currentFocusKey st' = Some key
    /\ firesOnly (fun e => negb (isUpdateFocus e))
         (setCurrentFocusedKey key st) st'.
Proof.
  intros fuel key st Hen Hres Hchain Hold.
  destruct (setFocus_returns fuel key st key st Hres Hchain Hold) as [st' Hset].
  exists st'. split; [exact Hset|].
  unfold setFocus in Hset. rewrite Hen, Hres in Hset. cbn [negb] in Hset.
  destruct (updateParentsHasFocusedChild fuel key (setCurrentFocusedKey key st))
    as [st3|] eqn:Hupd; [|discriminate].
  apply (firesOnly_updateParents_others (fun e => negb (isUpdateFocus e))) in Hupd;
    [|intros e He; rewrite He; reflexivity].
  apply (firesOnly_saveLastFocusedChain (fun e => negb (isUpdateFocus e))) in Hset.
  pose proof (firesOnly_trans _ _ _ _ Hupd Hset) as Hall.
  split; [|exact Hall].
  destruct Hall as [-> _]. apply setCurrentFocusedKey_currentFocusKey.
Qed.

Lemma reportedLayout_with_lastFocusedChildKey : forall v c,
  reportedLayout (with_lastFocusedChildKey v c) = reportedLayout c.
Proof. reflexivity. Qed.

Lemma reportedLayout_saveLastFocusedChildKey : forall key pc v st,
  option_map reportedLayout
    (getFocusableComponent key (saveLastFocusedChildKey pc v st))
  = option_map reportedLayout (getFocusableComponent key st).
Proof.
  intros key [p|] v st; [|reflexivity].
  rewrite getFocusableComponent_saveLastFocusedChildKey.
  destruct (getFocusableComponent key st) as [c|]; simpl; [|reflexivity].
  destruct (focusKey c =? focusKey p); reflexivity.
Qed.

Lemma getFocusableComponent_updateLayout_other : forall key key' st,
  key <> key' ->
  getFocusableComponent key (updateLayout key' st) = getFocusableComponent key st.
Proof.
  intros key key' st Hne. unfold updateLayout.
  destruct (getFocusableComponent key' st) as [c|]; [|reflexivity].
  destruct (layoutUpdated c); [reflexivity|].
  unfold getFocusableComponent. cbn [focusableComponents with_components].
  apply lookup_mutate_other; [reflexivity | exact Hne].
Qed.

Lemma getNodeLayoutByFocusKey_other : forall key key' st,
  key <> key' ->
  getFocusableComponent key (snd (getNodeLayoutByFocusKey key' st))
  = getFocusableComponent key st.
Proof.
  intros key key' st Hne. unfold getNodeLayoutByFocusKey.
  destruct (getFocusableComponent key' st) as [c|] eqn:Hc; [|reflexivity].
  cbn [snd]. rewrite (lookup_focusKey _ _ _ Hc).
  apply getFocusableComponent_updateLayout_other, Hne.
Qed.

(** The callbacks of a commit that moves the focus from one registered
    component to another. *)
Lemma setCurrentFocusedKey_moves : forall x st old oc xc,
  currentFocusKey st = Some old ->
  old <> x ->
  getFocusableComponent old st = Some oc ->
  getFocusableComponent x st = Some xc ->
  callbacks (setCurrentFocusedKey x st)
  = EvFocus x (Some (reportedLayout xc)) :: EvUpdateFocus x true
      :: EvBlur old (Some (reportedLayout oc)) :: EvUpdateFocus old false
      :: callbacks st.
Proof.
  intros x st old oc xc Hcur Hne Hoc Hxc. unfold setCurrentFocusedKey.
  rewrite Hcur. cbn [propertyKey keyEq]. unfold isFocusableComponent.
  rewrite Hoc.
  destruct (String.eqb_spec x old) as [E|_]; [congruence|]. cbn [negb andb].
  pose proof (lookup_focusKey _ _ _ Hoc) as Eo.
  pose proof (lookup_focusKey _ _ _ Hxc) as Ex.
  set (st_saved := saveLastFocusedChildKey
                     (getFocusableComponent (parentFocusKey oc) st) (Some old) st).
  set (st_updated := fire (EvUpdateFocus (focusKey oc) false) st_saved).
  pose proof (reportedLayout_saveLastFocusedChildKey old
                (getFocusableComponent (parentFocusKey oc) st) (Some old) st) as Ho1.
  pose proof (reportedLayout_saveLastFocusedChildKey x
                (getFocusableComponent (parentFocusKey oc) st) (Some old) st) as Hx1.
  fold st_saved in Ho1, Hx1. rewrite Hoc in Ho1. rewrite Hxc in Hx1.
  change (getFocusableComponent old st_saved)
    with (getFocusableComponent old st_updated) in Ho1.
  change (getFocusableComponent x st_saved)
    with (getFocusableComponent x st_updated) in Hx1.
  destruct (getFocusableComponent old st_updated) as [oc1|] eqn:Hoc1;
    [|discriminate].
  simpl in Ho1. injection Ho1 as Ho1.
  pose proof (getNodeLayoutByFocusKey_reports old st_updated oc1 Hoc1) as Hl.
  pose proof (sameTree_getNodeLayoutByFocusKey old st_updated) as Hs.
  pose proof (getNodeLayoutByFocusKey_other x old st_updated
                (fun E => Hne (eq_sym E))) as Hx2.
  destruct (getNodeLayoutByFocusKey old st_updated) as [l st_measured].
  cbn [fst snd] in Hl, Hs, Hx2. rewrite Hl, Ho1.
  destruct Hs as (_ & _ & _ & _ & Hcb).
  set (st2 := with_currentFocusKey (Some x) (fire (EvBlur (focusKey oc) _) st_measured)).
  change (getFocusableComponent x st2) with (getFocusableComponent x st_measured).
  rewrite Hx2.
  destruct (getFocusableComponent x st_updated) as [xc1|] eqn:Hxc1;
    [|discriminate].
  simpl in Hx1. injection Hx1 as Hx1.
  assert (Hxc2 : getFocusableComponent x
                   (fire (EvUpdateFocus (focusKey xc1) true) st2) = Some xc1).
  { change (getFocusableComponent x (fire (EvUpdateFocus (focusKey xc1) true) st2))
      with (getFocusableComponent x st_measured).
    exact Hx2. }
  pose proof (getNodeLayoutByFocusKey_reports x _ xc1 Hxc2) as Hl2.
  pose proof (sameTree_getNodeLayoutByFocusKey x
                (fire (EvUpdateFocus (focusKey xc1) true) st2)) as Hs2.
  destruct (getNodeLayoutByFocusKey x _) as [l2 st_measured2].
  cbn [fst snd] in Hl2, Hs2. destruct Hs2 as (_ & _ & _ & _ & Hcb2).
  cbn [callbacks fire]. rewrite Hcb2, Hl2, Hx1.
  cbn [callbacks fire with_currentFocusKey st2]. rewrite Hcb.
  cbn [callbacks fire st_updated].
  rewrite (lookup_focusKey _ _ _ Hxc1), Eo.
  unfold st_saved.
  destruct (getFocusableComponent (parentFocusKey oc) st); reflexivity.
Qed.

(** X7.  [setFocus] on a registered component without focusable children,
    while another registered component holds the focus (both parent chains
    ending): the call returns with the focus on the new key, and it invokes,
    in this order, [onUpdateFocus(false)] and [onBlur] of the old component,
    then [onUpdateFocus(true)] and [onFocus] of the new one, each with the
    layout of its component; whatever it invokes after that is no
    [onUpdateFocus]. *)

Theorem setFocus_moves_focus : forall fuel x st old oc xc,
  enabled st = true ->
  currentFocusKey st = Some old ->
  old <> x ->
  getFocusableComponent old st = Some oc ->
  getFocusableComponent x st = Some xc ->
  focusableChildren x st = [] ->
  chainEnds fuel x st = true ->
  chainEnds fuel old st = true ->
  exists st' evs,
    setFocus fuel x st = Some st'
    /\ currentFocusKey st' = Some x
    /\ callbacks st'
       = (evs ++ EvFocus x (Some (reportedLayout xc)) :: EvUpdateFocus x true
              :: EvBlur old (Some (reportedLayout oc))
              :: EvUpdateFocus old false :: callbacks st)%list
    /\ forallb (fun e => negb (isUpdateFocus e)) evs = true.
Proof.
  intros fuel x st old oc xc Hen Hcur Hne Hoc Hxc Hleaf Hchain Hold.
  assert (Hres : getNextFocusKey fuel x st = Some (x, st)).
  { rewrite getNextFocusKey_descent, (descent_AtLeaf _ _ (or_intror Hleaf)).
    reflexivity. }
  destruct (setFocus_commits fuel x st Hen Hres Hchain)
    as (st' & Hset & Hk & _ & evs & He & Hall).
  { rewrite Hcur. exact Hold. }
  exists st', evs. split; [exact Hset|]. split; [exact Hk|].
  split; [|exact Hall].
  rewrite He, (setCurrentFocusedKey_moves x st old oc xc Hcur Hne Hoc Hxc).
  reflexivity.
Qed.


Lemma setFocus_moves_focus_witness :
  exists st' evs oc xc,
    getFocusableComponent "b" focusOnB = Some oc
    /\ getFocusableComponent "a" focusOnB = Some xc
    /\ focusableChildren "a" focusOnB = []
    /\ setFocus 4 "a" focusOnB = Some st'
    /\ currentFocusKey st' = Some "a"
    /\ callbacks st'
       = (evs ++ EvFocus "a" (Some (reportedLayout xc)) :: EvUpdateFocus "a" true
              :: EvBlur "b" (Some (reportedLayout oc))
              :: EvUpdateFocus "b" false :: callbacks focusOnB)%list.
Proof.
  assert (Hb : getFocusableComponent "b" focusOnB
               = Some (with_layout (layoutOf (mkRect 20 0 10 10 20 0)
                                      (elementAt 3 20 0 10 10))
                         (descriptor "b" "X" (elementAt 3 20 0 10 10))))
    by (vm_compute; reflexivity).
  assert (Ha : getFocusableComponent "a" focusOnB
               = Some (with_layout (layoutOf (mkRect 0 0 10 10 0 0)
                                      (elementAt 2 0 0 10 10))
                         (descriptor "a" "X" (elementAt 2 0 0 10 10))))
    by (vm_compute; reflexivity).
  assert (Hleaf : focusableChildren "a" focusOnB = []) by (vm_compute; reflexivity).
  assert (Hne : "b" <> "a") by discriminate.
  destruct (setFocus_moves_focus 4 "a" focusOnB "b" _ _ eq_refl eq_refl Hne
              Hb Ha Hleaf)
    as (st' & evs & Hset & Hk & Hcb & _); try (vm_compute; reflexivity).
  exists st', evs. do 2 eexists.
  split; [exact Hb|]. split; [exact Ha|]. split; [exact Hleaf|].
  split; [exact Hset|]. split; [exact Hk | exact Hcb].
Defined.

(** ** Leaf resolution, once more *)

(** X10.  Leaf resolution is idempotent: the key [getNextFocusKey] returns
    resolves to itself in the state it leaves, whatever the fuel. *)

Theorem getNextFocusKey_idempotent : forall fuel fuel' x st leaf st1,
  getNextFocusKey fuel x st = Some (leaf, st1) ->
  getNextFocusKey fuel' leaf st1 = Some (leaf, st1).
Proof.
  induction fuel as [|fuel IH]; intros fuel' x st leaf st1 H;
    rewrite getNextFocusKey_descent in H;
    destruct (descent x st) as [|k s|] eqn:Hd; try discriminate;
    try (injection H as <- <-; rewrite getNextFocusKey_descent, Hd; reflexivity).
  eapply IH. exact H.
Qed.


Lemma getNextFocusKey_idempotent_witness :
  exists leaf st1,
    getNextFocusKey 1 "P" threeSiblings = Some (leaf, st1)
    /\ leaf = "A"
    /\ getNextFocusKey 0 leaf st1 = Some (leaf, st1).
Proof.
  assert (H : getNextFocusKey 1 "P" threeSiblings
              = Some ("A", snd (match getNextFocusKey 1 "P" threeSiblings with
                                | Some r => r
                                | None => ("", threeSiblings)
                                end)))
    by (vm_compute; reflexivity).
  do 2 eexists. split; [exact H|]. split; [reflexivity|].
  exact (getNextFocusKey_idempotent 1 0 "P" threeSiblings _ _ H).
Defined.

(** ** Registration *)

Lemma lookup_assign_same : forall c cs, lookup (focusKey c) (assign c cs) = Some c.
Proof.
  intros c cs. unfold lookup. induction cs as [|h t IH]; simpl.
  - rewrite String.eqb_refl. reflexivity.
  - destruct (focusKey h =? focusKey c) eqn:Hk; simpl.
    + rewrite String.eqb_refl. reflexivity.
    + rewrite Hk. exact IH.
Qed.




Lemma assign_unregistered : forall c cs,
  lookup (focusKey c) cs = None -> assign c cs = (cs ++ [c])%list.
Proof.
  intros c cs. unfold lookup. induction cs as [|h t IH]; simpl; intro H;
    [reflexivity|].
  destruct (focusKey h =? focusKey c); [discriminate|].
  rewrite IH by exact H. reflexivity.
Qed.

Lemma mutate_unregistered : forall key f cs,
  lookup key cs = None -> mutate key f cs = cs.
Proof.
  intros key f cs. unfold lookup, mutate. induction cs as [|h t IH]; simpl;
    intro H; [reflexivity|].
  destruct (focusKey h =? key); [discriminate|].
  rewrite IH by exact H. reflexivity.
Qed.

Lemma deleteKey_unregistered : forall key cs,
  lookup key cs = None -> deleteKey key cs = cs.
Proof.
  intros key cs. unfold lookup, deleteKey. induction cs as [|h t IH]; simpl;
    intro H; [reflexivity|].
  destruct (focusKey h =? key); [discriminate|]. simpl.
  rewrite IH by exact H. reflexivity.
Qed.

Lemma addFocusable_stored : forall fuel d st,
  addFocusable fuel d st
  = if keyEq (Some (focusKey d)) (currentFocusKey st)
    then setFocus fuel (focusKey d) (stored d st) else Some (stored d st).
Proof.
  intros fuel d st. unfold addFocusable. fold (asStored d).
  unfold updateLayout, getFocusableComponent.
  cbn [focusableComponents with_components].
  rewrite (lookup_assign_same (asStored d) (focusableComponents st)
           : lookup (focusKey d) _ = _).
  reflexivity.
Qed.

Lemma lookup_stored : forall d st,
  getFocusableComponent (focusKey d) (stored d st) = Some (asRegistered d).
Proof.
  intros d st. unfold getFocusableComponent, stored.
  cbn [focusableComponents with_components].
  rewrite lookup_mutate_same by reflexivity.
  rewrite (lookup_assign_same (asStored d) (focusableComponents st)
           : lookup (focusKey d) _ = _).
  reflexivity.
Qed.


Lemma stored_unregistered : forall d st,
  getFocusableComponent (focusKey d) st = None ->
  focusableComponents (stored d st)
  = (focusableComponents st ++ [asRegistered d])%list.
Proof.
  intros d st H. unfold getFocusableComponent in H. unfold stored.
  cbn [focusableComponents with_components].
  rewrite (assign_unregistered (asStored d)) by exact H.
  unfold mutate. rewrite map_app.
  fold (mutate (focusKey d)
          (with_layout (layoutOf (measureLayout (node d)) (node d)))
          (focusableComponents st)).
  rewrite mutate_unregistered by exact H.
  simpl. rewrite String.eqb_refl. reflexivity.
Qed.

Lemma keyEq_false : forall k1 k2, k1 <> k2 -> keyEq k1 k2 = false.
Proof.
  intros k1 k2 H. destruct (keyEq k1 k2) eqn:E; [|reflexivity].
  apply keyEq_eq in E. contradiction.
Qed.

(** X11.  [addFocusable] of a key other than the current focus key returns,
    with the component of the descriptor stored under its key: the fields of
    the descriptor, no last focused child, the layout just measured, the
    flag off; this also when the key was registered before.  Every other
    key reads as before; a new key goes last in the enumeration order and a
    registered one keeps its place; one layout query is logged, no callback
    is invoked and the focus key stays. *)




Lemma with_components_logMeasure : forall n st,
  with_components (focusableComponents st) (logMeasure n st) = logMeasure n st.
Proof. intros n []. reflexivity. Qed.

Lemma map_unchanged : forall (A : Type) (g : A -> A) (p : A -> bool) l,
  existsb p l = false ->
  map (fun e => if p e then g e else e) l = l.
Proof.
  intros A g p l. induction l as [|h t IH]; simpl; intro H; [reflexivity|].
  apply orb_false_iff in H. destruct H as [Hh Ht].
  rewrite Hh, IH by exact Ht. reflexivity.
Qed.

(** X13.  [removeFocusable] undoes [addFocusable]: for a key that is not
    registered and is not the focus key, when no focusable component names
    the key as its parent and the descriptor's parent does not hold the key
    as last focused child, adding the component and removing it again gives
    back the state, with one more layout query in its log. *)

Theorem removeFocusable_undoes_addFocusable : forall fuel d st,
  getFocusableComponent (focusKey d) st = None ->
  currentFocusKey st <> Some (focusKey d) ->
  existsb (fun c => (parentFocusKey c =? focusKey d) && focusable c)
    (focusableComponents st) = false ->
  (forall p, getFocusableComponent (parentFocusKey d) st = Some p ->
             lastFocusedChildKey p <> Some (focusKey d)) ->
  exists st1,
    addFocusable fuel d st = Some st1
    /\ removeFocusable fuel (focusKey d) st1 = Some (logMeasure (node d) st).
Proof.
  intros fuel d st Hnew Hne Horphans Hlast.
  rewrite addFocusable_stored. rewrite keyEq_false by congruence.
  exists (stored d st). split; [reflexivity|].
  unfold removeFocusable. rewrite lookup_stored.
  change (parentFocusKey (asRegistered d)) with (parentFocusKey d).
  assert (Hdel : with_components
                   (deleteKey (focusKey d) (focusableComponents (stored d st)))
                   (stored d st)
                 = logMeasure (node d) st).
  { rewrite stored_unregistered by exact Hnew.
    unfold deleteKey. rewrite filter_app.
    fold (deleteKey (focusKey d) (focusableComponents st)).
    rewrite deleteKey_unregistered by exact Hnew.
    simpl. rewrite String.eqb_refl. simpl. rewrite app_nil_r.
    apply with_components_logMeasure. }
  rewrite Hdel.
  change (currentFocusKey (logMeasure (node d) st)) with (currentFocusKey st).
  rewrite (keyEq_false (Some (focusKey d)) (currentFocusKey st)) by congruence.
  change (getFocusableComponent (parentFocusKey d) (logMeasure (node d) st))
    with (getFocusableComponent (parentFocusKey d) st).
  assert (Hst2 :
    match getFocusableComponent (parentFocusKey d) st with
    | Some p =>
      if keyEq (lastFocusedChildKey p) (Some (focusKey d))
      then with_components
             (mutate (focusKey p) (with_lastFocusedChildKey None)
                (focusableComponents (logMeasure (node d) st)))
             (logMeasure (node d) st)
      else logMeasure (node d) st
    | None => logMeasure (node d) st
    end = logMeasure (node d) st).
  { destruct (getFocusableComponent (parentFocusKey d) st) as [p|] eqn:Hp;
      [|reflexivity].
    rewrite keyEq_false by (apply Hlast; reflexivity). reflexivity. }
  cbv zeta. rewrite Hst2.
  change (focusableComponents (logMeasure (node d) st))
    with (focusableComponents st).
  rewrite (map_unchanged _ (with_parentFocusKey (parentFocusKey d)) _ _ Horphans).
  rewrite with_components_logMeasure.
  destruct (getFocusableComponent (parentFocusKey d) st); reflexivity.
Qed.


Lemma removeFocusable_undoes_addFocusable_witness :
  getFocusableComponent "n" focusOnB = None
  /\ currentFocusKey focusOnB <> Some "n"
  /\ exists st1,
       addFocusable 4 (descriptor "n" "X" (elementAt 7 40 0 10 10)) focusOnB
       = Some st1
       /\ removeFocusable 4 "n" st1
          = Some (logMeasure (elementAt 7 40 0 10 10) focusOnB).
Proof.
  assert (Hnew : getFocusableComponent "n" focusOnB = None)
    by (vm_compute; reflexivity).
  assert (Hne : currentFocusKey focusOnB <> Some "n") by discriminate.
  split; [exact Hnew|]. split; [exact Hne|].
  apply (removeFocusable_undoes_addFocusable 4
           (descriptor "n" "X" (elementAt 7 40 0 10 10)) focusOnB Hnew Hne).
  - vm_compute. reflexivity.
  - intros p Hp.
    assert (Hx : getFocusableComponent "X" focusOnB
                 = Some (with_layout (layoutOf (mkRect 0 0 100 10 0 0)
                                        (elementAt 1 0 0 100 10))
                           (descriptor "X" ROOT_FOCUS_KEY (elementAt 1 0 0 100 10))))
      by (vm_compute; reflexivity).
    change (parentFocusKey (descriptor "n" "X" (elementAt 7 40 0 10 10)))
      with "X" in Hp.
    rewrite Hx in Hp. injection Hp as <-. discriminate.
Defined.


Lemma mutate_assign_irrelevant : forall key f c1 c2 cs,
  focusKey c1 = key -> focusKey c2 = key -> f c1 = f c2 ->
  mutate key f (assign c1 cs) = mutate key f (assign c2 cs).
Proof.
  intros key f c1 c2 cs H1 H2 Hf. unfold mutate.
  induction cs as [|h t IH]; simpl.
  - rewrite H1, H2, String.eqb_refl, Hf. reflexivity.
  - rewrite H1, H2. destruct (focusKey h =? key) eqn:E; simpl.
    + rewrite H1, H2, String.eqb_refl, Hf. reflexivity.
    + rewrite E. f_equal. exact IH.
Qed.

Lemma sameTree_stored : forall d st, sameTree (withRegistered d st) (stored d st).
Proof.
  intros d st. split; [|repeat split].
  exists (fun c => if focusKey c =? focusKey d
                   then with_layout (layoutOf (measureLayout (node d)) (node d)) c
                   else c).
  split.
  - intro c. destruct (focusKey c =? focusKey d); reflexivity.
  - unfold stored, withRegistered. cbn [focusableComponents with_components].
    apply (mutate_assign_irrelevant (focusKey d)
             (with_layout (layoutOf (measureLayout (node d)) (node d)))
             (asStored d) (asRegistered d)); reflexivity.
Qed.

(** X12.  [addFocusable] of the key that is already the current focus key
    (the focus was set before the component was registered), on an enabled
    service, for a component that has no focusable children and whose
    parent chain ends: the call returns with the focus on the key, and it
    invokes [onUpdateFocus(true)] and then [onFocus] of the new component
    with its measured layout; whatever it invokes after that is no
    [onUpdateFocus]. *)

Theorem addFocusable_of_the_focused_key : forall fuel d st,
  enabled st = true ->
  currentFocusKey st = Some (focusKey d) ->
  focusableChildren (focusKey d) (withRegistered d st) = [] ->
  chainEnds fuel (focusKey d) (withRegistered d st) = true ->
  exists st' evs,
    addFocusable fuel d st = Some st'
    /\ currentFocusKey st' = Some (focusKey d)
    /\ callbacks st'
       = (evs ++ EvFocus (focusKey d)
                   (Some (layoutOf (measureLayout (node d)) (node d)))
              :: EvUpdateFocus (focusKey d) true :: callbacks st)%list
    /\ forallb (fun e => negb (isUpdateFocus e)) evs = true.
Proof.
  intros fuel d st Hen Hcur Hleaf Hchain.
  rewrite addFocusable_stored, Hcur, keyEq_refl.
  pose proof (sameTree_stored d st) as Hsame.
  assert (Hleaf' : focusableChildren (focusKey d) (stored d st) = []).
  { pose proof (sameTree_children_length _ _ (focusKey d) Hsame) as Hl.
    rewrite Hleaf in Hl. apply length_zero_iff_nil, Hl. }
  assert (Hchain' : chainEnds fuel (focusKey d) (stored d st) = true).
  { rewrite (chainEnds_sameParents _ _ _ _ (sameParents_sameTree _ _ Hsame)).
    exact Hchain. }
  assert (Hres : getNextFocusKey fuel (focusKey d) (stored d st)
                 = Some (focusKey d, stored d st)).
  { rewrite getNextFocusKey_descent,
      (descent_AtLeaf _ _ (or_intror Hleaf')). reflexivity. }
  assert (Hcur' : currentFocusKey (stored d st) = Some (focusKey d)) by exact Hcur.
  destruct (setFocus_returns fuel (focusKey d) (stored d st) _ _ Hres Hchain')
    as [st' Hset].
  { rewrite Hcur'. exact Hchain'. }
  exists st'. 
  pose proof Hset as Hset'.
  unfold setFocus in Hset'.
  change (enabled (stored d st)) with (enabled st) in Hset'.
  rewrite Hen, Hres in Hset'. cbn [negb] in Hset'.
  destruct (updateParentsHasFocusedChild fuel (focusKey d)
              (setCurrentFocusedKey (focusKey d) (stored d st)))
    as [st3|] eqn:Hupd; [|discriminate].
  apply (firesOnly_updateParents_others (fun e => negb (isUpdateFocus e))) in Hupd;
    [|intros e He; rewrite He; reflexivity].
  apply (firesOnly_saveLastFocusedChain (fun e => negb (isUpdateFocus e))) in Hset'.
  destruct (firesOnly_trans _ _ _ _ Hupd Hset') as [Hk (evs & He & Hall)].
  exists evs. split; [exact Hset|]. split.
  - rewrite Hk. apply setCurrentFocusedKey_currentFocusKey.
  - split; [|exact Hall].
    rewrite He.
    rewrite (setCurrentFocusedKey_refocus _ _ _ Hcur' (lookup_stored d st)).
    reflexivity.
Qed.


(** In [focusOnLate] the focus key is "late"; registering "late" under "X"
    gives it its focus callbacks. *)
Lemma addFocusable_of_the_focused_key_witness :
  enabled focusOnLate = true
  /\ currentFocusKey focusOnLate = Some "late"
  /\ getFocusableComponent "late" focusOnLate = None
  /\ exists st' evs,
       addFocusable 4 (descriptor "late" "X" (elementAt 7 40 0 10 10)) focusOnLate
       = Some st'
       /\ currentFocusKey st' = Some "late"
       /\ callbacks st'
          = (evs ++ EvFocus "late"
                      (Some (layoutOf (measureLayout (elementAt 7 40 0 10 10))
                               (elementAt 7 40 0 10 10)))
                 :: EvUpdateFocus "late" true :: callbacks focusOnLate)%list.
Proof.
  assert (Hen : enabled focusOnLate = true) by (vm_compute; reflexivity).
  assert (Hcur : currentFocusKey focusOnLate = Some "late")
    by (vm_compute; reflexivity).
  split; [exact Hen|]. split; [exact Hcur|].
  split; [vm_compute; reflexivity|].
  destruct (addFocusable_of_the_focused_key 4
              (descriptor "late" "X" (elementAt 7 40 0 10 10)) focusOnLate
              Hen Hcur)
    as (st' & evs & Hadd & Hk & Hcb & _); try (vm_compute; reflexivity).
  exists st', evs. split; [exact Hadd|]. split; [exact Hk | exact Hcb].
Defined.

(** ** Removal and the focus *)


Lemma getNextFocusKey_registered : forall fuel x st leaf st1,
  getNextFocusKey fuel x st = Some (leaf, st1) ->
  isFocusableComponent x st = true ->
  isFocusableComponent leaf st1 = true.
Proof.
  induction fuel as [|fuel IH]; intros x st leaf st1 H Hx;
    rewrite getNextFocusKey_descent in H;
    destruct (descent x st) as [|k s|] eqn:Hd; try discriminate;
    try (injection H as <- <-; exact Hx).
  apply (IH _ _ _ _ H).
  unfold descent in Hd.
  destruct (getFocusableComponent x st) as [c|]; [|discriminate].
  destruct (0 <? _)%nat; [|discriminate].
  destruct (followsLast c st) eqn:Hl.
  { injection Hd as <- <-. unfold followsLast in Hl.
    apply andb_true_iff in Hl. destruct Hl as [_ Hl].
    unfold isParticipatingFocusableComponent in Hl. unfold isFocusableComponent.
    destruct (getFocusableComponent _ st); [reflexivity | discriminate]. }
  destruct (followsPreferred c st) eqn:Hp.
  { injection Hd as <- <-. unfold followsPreferred in Hp.
    apply andb_true_iff in Hp. destruct Hp as [_ Hp].
    unfold isParticipatingFocusableComponent in Hp. unfold isFocusableComponent.
    destruct (getFocusableComponent _ st); [reflexivity | discriminate]. }
  destruct (getChildClosestToOrigin _) as [child|] eqn:Hc; [|discriminate].
  injection Hd as <- <-.
  unfold getChildClosestToOrigin in Hc. apply first_sortBy_In in Hc.
  apply focusableChildren_In in Hc. destruct Hc as (Hin & _).
  unfold isFocusableComponent, getFocusableComponent, lookup.
  destruct (find _ _) eqn:Hf; [reflexivity|].
  apply (find_none _ _ Hf) in Hin. rewrite String.eqb_refl in Hin. discriminate.
Qed.

(** [removeFocusable] on a registered key: the store it leaves, and whether
    it goes on to [setFocus]. *)
Lemma removeFocusable_store : forall fuel key st c,
  getFocusableComponent key st = Some c ->
  exists st3,
    getFocusableComponent key st3 = None
    /\ (forall k, k <> key ->
          getFocusableComponent k st3
          = option_map (afterRemoval key c) (getFocusableComponent k st))
    /\ currentFocusKey st3 = currentFocusKey st
    /\ enabled st3 = enabled st
    /\ removeFocusable fuel key st
       = if restoresFocus key c st
         then setFocus fuel (parentFocusKey c) st3
         else Some st3.
Proof.
  intros fuel key st c Hc.
  unfold removeFocusable. rewrite Hc. cbv zeta.
  set (cs := focusableComponents st).
  pose proof (lookup_after_removal key c cs) as Hother.
  pose proof (lookup_removed key c cs) as Hgone.
  assert (Hrestore :
            restoresFocus key c st
            = keyEq (Some key) (currentFocusKey st)
              && match lookup (parentFocusKey c) (deleteKey key cs) with
                 | Some p => autoRestoreFocus p
                 | None => false
                 end).
  { unfold restoresFocus, getFocusableComponent. fold cs.
    destruct (String.eqb_spec (parentFocusKey c) key) as [E|E].
    - rewrite E, lookup_deleteKey_same. cbn [negb]. rewrite andb_false_r. reflexivity.
    - rewrite (lookup_deleteKey_other _ _ cs E). cbn [negb].
      rewrite andb_true_r. reflexivity. }
  rewrite Hrestore.
  change (getFocusableComponent (parentFocusKey c)
            (with_components (deleteKey key cs) st))
    with (lookup (parentFocusKey c) (deleteKey key cs)).
  set (reparent := fun component =>
                      if (parentFocusKey component =? key) && focusable component
                      then with_parentFocusKey (parentFocusKey c) component
                      else component) in *.
  destruct (lookup (parentFocusKey c) (deleteKey key cs)) as [p|];
    [destruct (keyEq (lastFocusedChildKey p) (Some key))|].
  - exists (with_components
              (map reparent
                 (mutate (focusKey p) (with_lastFocusedChildKey None)
                    (deleteKey key cs))) st).
    split; [exact Hgone|]. split; [exact Hother|].
    do 2 (split; [reflexivity|]). reflexivity.
  - exists (with_components (map reparent (deleteKey key cs)) st).
    split; [exact Hgone|]. split; [exact Hother|].
    do 2 (split; [reflexivity|]). reflexivity.
  - exists (with_components (map reparent (deleteKey key cs)) st).
    split; [exact Hgone|]. split; [exact Hother|].
    do 2 (split; [reflexivity|]). rewrite andb_false_r. reflexivity.
Qed.

Lemma setFocus_sameParents : forall fuel x st st',
  setFocus fuel x st = Some st' -> sameParents st st'.
Proof.
  intros fuel x st st' H. unfold setFocus in H.
  destruct (enabled st); cbn [negb] in H;
    [|injection H as <-; apply sameParents_refl].
  destruct (getNextFocusKey fuel x st) as [[leaf st1]|] eqn:Hres; [|discriminate].
  destruct (updateParentsHasFocusedChild fuel leaf (setCurrentFocusedKey leaf st1))
    as [st3|] eqn:Hupd; [|discriminate].
  eapply sameParents_trans;
    [apply sameParents_sameTree, (getNextFocusKey_sameTree _ _ _ _ _ Hres)|].
  eapply sameParents_trans; [apply sameParents_setCurrentFocusedKey|].
  eapply sameParents_trans;
    [apply (sameParents_updateParentsHasFocusedChild _ _ _ _ Hupd)|].
  apply (sameParents_saveLastFocusedChain _ _ _ _ H).
Qed.

(** [setFocus] on a registered key leaves the focus on a registered one. *)
Lemma setFocus_registered : forall fuel x st st',
  enabled st = true ->
  isFocusableComponent x st = true ->
  setFocus fuel x st = Some st' ->
  exists leaf,
    currentFocusKey st' = Some leaf /\ isFocusableComponent leaf st' = true.
Proof.
  intros fuel x st st' Hen Hx H. pose proof H as Hset.
  unfold setFocus in H. rewrite Hen in H. cbn [negb] in H.
  destruct (getNextFocusKey fuel x st) as [[leaf st1]|] eqn:Hres; [|discriminate].
  destruct (updateParentsHasFocusedChild fuel leaf (setCurrentFocusedKey leaf st1))
    as [st3|] eqn:Hupd; [|discriminate].
  exists leaf. split.
  - destruct (firesOnly_saveLastFocusedChain (fun _ => true) _ _ _ _ H) as [-> _].
    destruct (firesOnly_updateParentsHasFocusedChild _ _ _ _ Hupd) as [-> _].
    apply setCurrentFocusedKey_currentFocusKey.
  - pose proof (getNextFocusKey_registered _ _ _ _ _ Hres Hx) as Hleaf.
    rewrite (sameTree_isFocusableComponent _ _ leaf
                  (getNextFocusKey_sameTree _ _ _ _ _ Hres)) in Hleaf.
    rewrite (sameParents_isFocusableComponent _ _ leaf
               (setFocus_sameParents _ _ _ _ Hset)).
    exact Hleaf.
Qed.

(** X14.  When [removeFocusable] removes the component that holds the
    focus and goes on to restore the focus (the former parent is registered
    with [autoRestoreFocus]), and returns, the focus key afterwards names a
    registered component, which is not the removed one: the removed key is
    no longer registered. *)

Theorem removeFocusable_restores_focus_to_a_registered_component :
  forall fuel key st c st',
    enabled st = true ->
    getFocusableComponent key st = Some c ->
    restoresFocus key c st = true ->
    removeFocusable fuel key st = Some st' ->
    exists leaf,
      currentFocusKey st' = Some leaf
      /\ isFocusableComponent leaf st' = true
      /\ leaf <> key
      /\ getFocusableComponent key st' = None.
Proof.
  intros fuel key st c st' Hen Hc Hrestore H.
  destruct (removeFocusable_store fuel key st c Hc)
    as (st3 & Hgone & Hother & _ & Hen3 & Hrem).
  rewrite Hrestore, H in Hrem. symmetry in Hrem.
  assert (Hparent : isFocusableComponent (parentFocusKey c) st3 = true).
  { unfold restoresFocus in Hrestore.
    apply andb_true_iff in Hrestore. destruct Hrestore as [Hr Hp].
    apply andb_true_iff in Hr. destruct Hr as [_ Hne].
    apply negb_true_iff in Hne. apply String.eqb_neq in Hne.
    unfold isFocusableComponent. rewrite (Hother _ Hne).
    destruct (getFocusableComponent (parentFocusKey c) st); [reflexivity|discriminate]. }
  destruct (setFocus_registered fuel _ st3 st' (eq_trans Hen3 Hen) Hparent Hrem)
    as (leaf & Hk & Hleaf).
  pose proof (sameParents_isFocusableComponent _ _ key
                (setFocus_sameParents _ _ _ _ Hrem)) as Hkey.
  unfold isFocusableComponent at 2 in Hkey. rewrite Hgone in Hkey.
  exists leaf. split; [exact Hk|]. split; [exact Hleaf|]. split.
  - intros ->. congruence.
  - unfold isFocusableComponent in Hkey.
    destruct (getFocusableComponent key st'); [discriminate | reflexivity].
Qed.


(** Removing the focused leaf "b" of [focusOnB] moves the focus to "a". *)
Lemma removeFocusable_restores_focus_to_a_registered_component_witness :
  exists c st' leaf,
    enabled focusOnB = true
    /\ getFocusableComponent "b" focusOnB = Some c
    /\ restoresFocus "b" c focusOnB = true
    /\ removeFocusable 4 "b" focusOnB = Some st'
    /\ currentFocusKey st' = Some leaf
    /\ isFocusableComponent leaf st' = true
    /\ leaf <> "b".
Proof.
  assert (Hen : enabled focusOnB = true) by reflexivity.
  assert (Hb : getFocusableComponent "b" focusOnB
               = Some (with_layout (layoutOf (mkRect 20 0 10 10 20 0)
                                      (elementAt 3 20 0 10 10))
                         (descriptor "b" "X" (elementAt 3 20 0 10 10))))
    by (vm_compute; reflexivity).
  assert (Hrest : restoresFocus "b"
                    (with_layout (layoutOf (mkRect 20 0 10 10 20 0)
                                    (elementAt 3 20 0 10 10))
                       (descriptor "b" "X" (elementAt 3 20 0 10 10)))
                    focusOnB = true)
    by (vm_compute; reflexivity).
  assert (Hrem : removeFocusable 4 "b" focusOnB
                 = Some (orInitial (removeFocusable 4 "b" focusOnB)))
    by (vm_compute; reflexivity).
  destruct (removeFocusable_restores_focus_to_a_registered_component
              4 "b" focusOnB _ _ Hen Hb Hrest Hrem)
    as (leaf & Hk & Hreg & Hne & _).
  do 2 eexists. exists leaf.
  split; [exact Hen|]. split; [exact Hb|]. split; [exact Hrest|].
  split; [exact Hrem|]. split; [exact Hk|]. split; [exact Hreg | exact Hne].
Defined.

(** ** Updates in a row *)


Lemma mutate_mutate : forall key f g cs,
  (forall c, focusKey (f c) = focusKey c) ->
  mutate key g (mutate key f cs) = mutate key (fun c => g (f c)) cs.
Proof.
  intros key f g cs Hf. unfold mutate. rewrite map_map. apply map_ext.
  intro c. destruct (focusKey c =? key) eqn:E; [|rewrite E; reflexivity].
  rewrite Hf, E. reflexivity.
Qed.

Lemma mutate_ext : forall key f g cs,
  (forall c, f c = g c) -> mutate key f cs = mutate key g cs.
Proof.
  intros key f g cs H. unfold mutate. apply map_ext. intro c. rewrite H.
  reflexivity.
Qed.

(** X15.  Two [updateFocusable] calls on one key have the effect of one:
    the fields of the second payload win, but a second payload without
    [node] leaves the node of the first in place.  A payload applied twice
    has the effect of applying it once. *)

Theorem updateFocusable_twice : forall key p1 p2 st,
  updateFocusable key p2 (updateFocusable key p1 st)
  = updateFocusable key (thenUpdate p1 p2) st
  /\ updateFocusable key p1 (updateFocusable key p1 st)
     = updateFocusable key p1 st.
Proof.
  assert (H : forall key p1 p2 st,
             updateFocusable key p2 (updateFocusable key p1 st)
             = updateFocusable key (thenUpdate p1 p2) st).
  { intros key p1 p2 st. unfold updateFocusable.
    destruct (getFocusableComponent key st) as [c|] eqn:Hc.
    - unfold getFocusableComponent in *.
      cbn [focusableComponents with_components].
      rewrite lookup_mutate_same, Hc by apply focusKey_applyUpdate.
      cbn [option_map]. unfold with_components. cbn. f_equal.
      rewrite mutate_mutate by apply focusKey_applyUpdate.
      apply mutate_ext. intro e. unfold applyUpdate, thenUpdate. cbn.
      destruct (upd_node p2), (upd_node p1); reflexivity.
    - rewrite Hc. reflexivity. }
  intros key p1 p2 st. split; [apply H|].
  rewrite H. unfold updateFocusable.
  destruct (getFocusableComponent key st); [|reflexivity].
  f_equal. apply mutate_ext. intro e. unfold applyUpdate, thenUpdate. cbn.
  destruct (upd_node p1); reflexivity.
Qed.

(** ** Refreshing all layouts *)


Lemma distinct_app : forall l1 l2,
  distinct (l1 ++ l2) = true ->
  distinct l2 = true
  /\ forall k, In k l1 -> In k l2 -> False.
Proof.
  induction l1 as [|h t IH]; intros l2 H; simpl in H.
  - split; [exact H | intros k []].
  - apply andb_true_iff in H. destruct H as [Hh Ht].
    destruct (IH _ Ht) as [Hd Hdis]. split; [exact Hd|].
    intros k [<- | Hin] Hin2; [|eapply Hdis; eassumption].
    apply negb_true_iff in Hh.
    assert (Hex : existsb (String.eqb h) (t ++ l2) = true).
    { apply existsb_exists. exists h. split;
        [apply in_or_app; right; exact Hin2 | apply String.eqb_refl]. }
    congruence.
Qed.

Lemma mutate_absent : forall key f cs,
  ~ In key (map focusKey cs) -> mutate key f cs = cs.
Proof.
  intros key f cs. unfold mutate. induction cs as [|h t IH]; simpl; intro H;
    [reflexivity|].
  destruct (String.eqb_spec (focusKey h) key) as [E|E]; [tauto|].
  rewrite IH by tauto. reflexivity.
Qed.

Lemma lookup_absent_app : forall key l1 l2,
  ~ In key (map focusKey l1) -> lookup key (l1 ++ l2) = lookup key l2.
Proof.
  intros key l1 l2. unfold lookup. induction l1 as [|h t IH]; simpl; intro H;
    [reflexivity|].
  destruct (String.eqb_spec (focusKey h) key) as [E|E]; [tauto|].
  apply IH. tauto.
Qed.

Lemma focusKey_remeasured : forall c, focusKey (remeasured c) = focusKey c.
Proof. intro c. unfold remeasured. destruct (layoutUpdated c); reflexivity. Qed.

Lemma updateLayouts_fold : forall todo done st,
  focusableComponents st = (done ++ todo)%list ->
  distinct (map focusKey (done ++ todo)) = true ->
  let st' := fold_left (fun s k => updateLayout k s) (map focusKey todo) st in
  focusableComponents st' = (done ++ map remeasured todo)%list
  /\ measured st'
     = (rev (map node (filter (fun c => negb (layoutUpdated c)) todo))
          ++ measured st)%list
  /\ currentFocusKey st' = currentFocusKey st
  /\ parentsHavingFocusedChild st' = parentsHavingFocusedChild st
  /\ enabled st' = enabled st
  /\ callbacks st' = callbacks st.
Proof.
  induction todo as [|c t IH]; intros done st Hcs Hd; cbv zeta.
  - simpl. rewrite Hcs. repeat split.
  - cbn [map fold_left].
    rewrite map_app in Hd. pose proof (distinct_app _ _ Hd) as [Hd2 Hdis].
    cbn [map] in Hd2, Hdis.
    pose proof Hd2 as Hd2'. simpl in Hd2'. apply andb_true_iff in Hd2'.
    destruct Hd2' as [Hct _].
    assert (Hnot_done : ~ In (focusKey c) (map focusKey done)).
    { intro Hin. apply (Hdis _ Hin). left. reflexivity. }
    assert (Hnot_t : ~ In (focusKey c) (map focusKey t)).
    { intro Hin. apply negb_true_iff in Hct.
      assert (Hex : existsb (String.eqb (focusKey c)) (map focusKey t) = true).
      { apply existsb_exists. exists (focusKey c).
        split; [exact Hin | apply String.eqb_refl]. }
      congruence. }
    assert (Hlook : getFocusableComponent (focusKey c) st = Some c).
    { unfold getFocusableComponent. rewrite Hcs.
      rewrite lookup_absent_app by exact Hnot_done.
      unfold lookup. simpl. rewrite String.eqb_refl. reflexivity. }
    assert (Hcs' : focusableComponents (updateLayout (focusKey c) st)
                   = ((done ++ [remeasured c]) ++ t)%list).
    { unfold updateLayout, remeasured. rewrite Hlook.
      destruct (layoutUpdated c).
      - rewrite Hcs, <- app_assoc. reflexivity.
      - cbn [focusableComponents with_components]. rewrite Hcs.
        unfold mutate. rewrite map_app. cbn [map].
        rewrite String.eqb_refl.
        fold (mutate (focusKey c)
                (with_layout (layoutOf (measureLayout (node c)) (node c))) done).
        fold (mutate (focusKey c)
                (with_layout (layoutOf (measureLayout (node c)) (node c))) t).
        rewrite !mutate_absent by assumption.
        rewrite <- app_assoc. reflexivity. }
    assert (Hd' : distinct (map focusKey ((done ++ [remeasured c]) ++ t)) = true).
    { rewrite <- app_assoc, map_app. cbn [map app].
      rewrite focusKey_remeasured. exact Hd. }
    destruct (IH _ _ Hcs' Hd') as (A & B & C & D & E & F).
    split; [rewrite A, <- app_assoc; reflexivity|].
    split; [|unfold updateLayout in *; rewrite Hlook in *;
             destruct (layoutUpdated c); repeat split; assumption].
    rewrite B. unfold updateLayout. rewrite Hlook. cbn [filter].
    destruct (layoutUpdated c); cbn [negb]; [reflexivity|].
    cbn [map rev measured with_components logMeasure].
    rewrite <- app_assoc. reflexivity.
Qed.

(** X16.  On a store with one component per key, [updateAllLayouts]
    replaces the layout of every component whose [layoutUpdated] flag is off
    by a fresh measurement of its node, and leaves the flagged ones alone;
    it queries the layout provider once per unflagged component, in the
    enumeration order of the store, and changes nothing else. *)

Theorem updateAllLayouts_remeasures_every_component : forall st,
  uniqueKeys st = true ->
  focusableComponents (updateAllLayouts st)
  = map remeasured (focusableComponents st)
  /\ measured (updateAllLayouts st)
     = (rev (map node (filter (fun c => negb (layoutUpdated c))
                         (focusableComponents st)))
          ++ measured st)%list
  /\ currentFocusKey (updateAllLayouts st) = currentFocusKey st
  /\ parentsHavingFocusedChild (updateAllLayouts st) = parentsHavingFocusedChild st
  /\ enabled (updateAllLayouts st) = enabled st
  /\ callbacks (updateAllLayouts st) = callbacks st.
Proof.
  intros st Hu. apply (updateLayouts_fold (focusableComponents st) [] st);
    [reflexivity | exact Hu].
Qed.


Lemma updateAllLayouts_remeasures_every_component_witness :
  uniqueKeys threeSiblings = true
  /\ focusableComponents (updateAllLayouts threeSiblings)
     = map remeasured (focusableComponents threeSiblings)
  /\ map elementId (measured (updateAllLayouts threeSiblings))
     = ([3; 2; 1; 0]%nat ++ map elementId (measured threeSiblings))%list.
Proof.
  assert (Hu : uniqueKeys threeSiblings = true) by reflexivity.
  destruct (updateAllLayouts_remeasures_every_component threeSiblings Hu)
    as (Hcs & Hm & _).
  split; [exact Hu|]. split; [exact Hcs|].
  rewrite Hm. vm_compute. reflexivity.
Defined.

(** ** The pointer *)


Lemma filter_nil_weaken : forall (A : Type) (p q : A -> bool) l,
  (forall e, q e = true -> p e = true) -> filter p l = [] -> filter q l = [].
Proof.
  intros A p q l H. induction l as [|h t IH]; simpl; [reflexivity|].
  destruct (p h) eqn:Hp; [discriminate|]. intro Ht.
  destruct (q h) eqn:Hq; [apply H in Hq; congruence | apply IH, Ht].
Qed.

Lemma isParticipatingFocusableChild_leaf : forall key st,
  isParticipatingFocusableChild key st = true ->
  focusableChildren key st = [].
Proof.
  intros key st H. unfold isParticipatingFocusableChild in H.
  apply andb_true_iff in H. destruct H as [_ H]. apply Nat.eqb_eq in H.
  apply length_zero_iff_nil in H. unfold focusableChildren.
  eapply filter_nil_weaken; [|exact H].
  intros e He. apply andb_true_iff in He. tauto.
Qed.

(** X17.  On an enabled service (the parent chains of the key and of the
    current focus ending), the mouse-enter handler of a component returns;
    it moves the focus, to the key of that component itself, exactly when
    the component is registered and focusable and no registered component,
    focusable or not, names it as parent; otherwise it changes nothing. *)

Theorem onmouseenter_focuses_childless_participants_only :
  forall fuel key st,
    enabled st = true ->
    chainEnds fuel key st = true ->
    chainEnds fuel (propertyKey (currentFocusKey st)) st = true ->
    exists st',
      onmouseenter fuel key st = Some st'
      /\ if isParticipatingFocusableChild key st
         then currentFocusKey st' = Some key
         else st' = st.
Proof.
  intros fuel key st Hen Hchain Hold. unfold onmouseenter.
  destruct (isParticipatingFocusableChild key st) eqn:Hp;
    [|exists st; split; reflexivity].
  assert (Hres : getNextFocusKey fuel key st = Some (key, st)).
  { rewrite getNextFocusKey_descent,
      (descent_AtLeaf _ _ (or_intror (isParticipatingFocusableChild_leaf _ _ Hp))).
    reflexivity. }
  destruct (setFocus_commits fuel key st Hen Hres Hchain Hold)
    as (st' & Hset & Hk & _).
  exists st'. split; assumption.
Qed.


(** In [focusOnB] the pointer moves the focus to the leaf "a", and leaves it
    where it is on the group "X". *)
Lemma onmouseenter_focuses_childless_participants_only_witness :
  isParticipatingFocusableChild "a" focusOnB = true
  /\ isParticipatingFocusableChild "X" focusOnB = false
  /\ (exists st', onmouseenter 4 "a" focusOnB = Some st'
                  /\ currentFocusKey st' = Some "a")
  /\ onmouseenter 4 "X" focusOnB = Some focusOnB.
Proof.
  assert (Ha : isParticipatingFocusableChild "a" focusOnB = true)
    by (vm_compute; reflexivity).
  assert (Hx : isParticipatingFocusableChild "X" focusOnB = false)
    by (vm_compute; reflexivity).
  split; [exact Ha|]. split; [exact Hx|]. split.
  - destruct (onmouseenter_focuses_childless_participants_only 4 "a" focusOnB)
      as (st' & Hm & Hk); try (vm_compute; reflexivity).
    rewrite Ha in Hk. exists st'. split; [exact Hm | exact Hk].
  - vm_compute. reflexivity.
Defined.

(** ** The key map *)


Section Objects.

Context {V : Type}.

Lemma objGet_objSet : forall k k' (v : V) o,
  objGet k (objSet k' v o) = if k' =? k then Some v else objGet k o.
Proof.
  intros k k' v o. induction o as [|[k0 v0] t IH]; simpl.
  - reflexivity.
  - destruct (String.eqb_spec k0 k') as [E|E]; simpl.
    + subst k0. destruct (k' =? k); reflexivity.
    + destruct (String.eqb_spec k0 k) as [E'|E'].
      * subst k0. destruct (String.eqb_spec k' k); [congruence|reflexivity].
      * exact IH.
Qed.

Lemma objGet_snoc : forall k k0 (v0 : V) (r : Obj V),
  objGet k (r ++ [(k0, v0)])%list
  = match objGet k r with
    | Some v => Some v
    | None => if k0 =? k then Some v0 else None
    end.
Proof.
  intros k k0 v0 r. induction r as [|[k1 v1] r IHr]; simpl; [reflexivity|].
  destruct (k1 =? k); [reflexivity | exact IHr].
Qed.

Lemma objGet_assign_all : forall k (o2 o1 : Obj V),
  objGet k (fold_left (fun acc kv => objSet (fst kv) (snd kv) acc) o2 o1)
  = match objGet k (rev o2) with
    | Some v => Some v
    | None => objGet k o1
    end.
Proof.
  intros k o2. induction o2 as [|[k2 v2] t IH]; intro o1; simpl; [reflexivity|].
  rewrite IH, objGet_objSet, objGet_snoc.
  destruct (objGet k (rev t)); [reflexivity|].
  destruct (k2 =? k); reflexivity.
Qed.

Lemma objGet_rev : forall k (o : Obj V),
  distinct (map fst o) = true -> objGet k (rev o) = objGet k o.
Proof.
  intros k o. induction o as [|[k0 v0] t IH]; intro Hd; [reflexivity|].
  simpl in Hd. apply andb_true_iff in Hd. destruct Hd as [Hh Ht].
  simpl. rewrite objGet_snoc, (IH Ht).
  destruct (String.eqb_spec k0 k) as [E|E].
  - subst k0.
    destruct (objGet k t) as [v|] eqn:Hg; [|reflexivity].
    exfalso. apply negb_true_iff in Hh.
    assert (Hex : existsb (String.eqb k) (map fst t) = true).
    { clear - Hg. induction t as [|[k1 v1] t IHt]; simpl in *; [discriminate|].
      destruct (String.eqb_spec k1 k) as [E|E].
      - subst k1. rewrite String.eqb_refl. reflexivity.
      - rewrite (IHt Hg). apply orb_true_r. }
    congruence.
  - destruct (objGet k t); reflexivity.
Qed.

End Objects.

Lemma objGet_normalizeKeyMap : forall k keyMap,
  distinct (map fst keyMap) = true ->
  objGet k (normalizeKeyMap keyMap) = option_map codesOf (objGet k keyMap).
Proof.
  intros k keyMap Hd. unfold normalizeKeyMap.
  assert (Hfold : forall km acc,
            fold_left
              (fun newKeyMap entry =>
                 match snd entry with
                 | inl value => objSet (fst entry) [value] newKeyMap
                 | inr value => objSet (fst entry) value newKeyMap
                 end) km acc
            = fold_left (fun acc kv => objSet (fst kv) (snd kv) acc)
                (map (fun entry => (fst entry, codesOf (snd entry))) km) acc).
  { induction km as [|[k0 [n|l]] t IH]; intro acc; simpl; [reflexivity| |];
      apply IH. }
  rewrite Hfold, objGet_assign_all. cbn [objGet].
  rewrite <- map_rev.
  assert (Hmap : forall (o : Obj (Z + list Z)),
            objGet k (map (fun entry => (fst entry, codesOf (snd entry))) o)
            = option_map codesOf (objGet k o)).
  { induction o as [|[k0 v0] t IH]; simpl; [reflexivity|].
    destruct (k0 =? k); [reflexivity | exact IH]. }
  rewrite Hmap, (objGet_rev k keyMap Hd).
  destruct (objGet k keyMap); reflexivity.
Qed.

Lemma distinct_fst_objSet : forall (V : Type) k (v : V) o,
  distinct (map fst o) = true -> distinct (map fst (objSet k v o)) = true.
Proof.
  intros V k v o. induction o as [|[k0 v0] t IH]; simpl; intro Hd; [reflexivity|].
  apply andb_true_iff in Hd. destruct Hd as [Hh Ht].
  destruct (String.eqb_spec k0 k) as [E|E]; simpl.
  - subst k0. rewrite Hh, Ht. reflexivity.
  - rewrite (IH Ht), andb_true_r.
    apply negb_true_iff. apply negb_true_iff in Hh.
    destruct (existsb (String.eqb k0) (map fst (objSet k v t))) eqn:Hex;
      [|reflexivity].
    apply existsb_exists in Hex. destruct Hex as (x & Hin & Hx).
    apply String.eqb_eq in Hx. subst x.
    assert (Hin' : In k0 (map fst t)).
    { clear - Hin E. induction t as [|[k1 v1] t IHt]; simpl in *.
      - destruct Hin as [H|[]]. congruence.
      - destruct (k1 =? k); simpl in Hin.
        + destruct Hin as [H|H]; [congruence | right; exact H].
        + destruct Hin as [H|H]; [left; exact H | right; apply IHt, H]. }
    assert (Hex' : existsb (String.eqb k0) (map fst t) = true).
    { apply existsb_exists. exists k0. split; [exact Hin' | apply String.eqb_refl]. }
    congruence.
Qed.

Lemma distinct_normalizeKeyMap : forall newKeyMap,
  distinct (map fst (normalizeKeyMap newKeyMap)) = true.
Proof.
  intro newKeyMap. unfold normalizeKeyMap.
  assert (Hacc : forall (km : BackwardsCompatibleKeyMap) (acc : KeyMap),
            distinct (map fst acc) = true ->
            distinct
              (map fst
                 (fold_left
                    (fun (m : KeyMap) (entry : string * (Z + list Z)) =>
                       match snd entry with
                       | inl value => objSet (fst entry) [value] m
                       | inr value => objSet (fst entry) value m
                       end) km acc)) = true).
  { induction km as [|[k0 [n|l]] t IH]; intros acc Ha; simpl;
      [exact Ha | |]; apply IH, distinct_fst_objSet, Ha. }
  apply Hacc. reflexivity.
Qed.

(** X18.  [setKeyMap] merges by key: a key that the new map names gets the
    codes of the new map (a single number counting as the list of that
    number) in place of the codes it had, and every other key keeps its
    codes.  Both maps hold one entry per key, as objects do. *)

Theorem setKeyMap_overrides_by_key : forall newKeyMap svc k,
  distinct (map fst newKeyMap) = true ->
  distinct (map fst (getKeyMap svc)) = true ->
  objGet k (getKeyMap (setKeyMap newKeyMap svc))
  = match objGet k newKeyMap with
    | Some value => Some (codesOf value)
    | None => objGet k (getKeyMap svc)
    end.
Proof.
  intros newKeyMap svc k Hd Hs. unfold setKeyMap, getKeyMap in *.
  cbn [keyMap with_keyMap].
  unfold objSpread. rewrite !objGet_assign_all. cbn [objGet].
  rewrite (objGet_rev k (keyMap svc) Hs).
  rewrite (objGet_rev k _ (distinct_normalizeKeyMap newKeyMap)).
  rewrite (objGet_normalizeKeyMap k newKeyMap Hd).
  destruct (objGet k newKeyMap); [reflexivity|]. cbn [option_map].
  destruct (objGet k (keyMap svc)); reflexivity.
Qed.


(** Giving "left" the code 65 takes the code 37 away from it, and leaves
    "right" at 39. *)
Lemma setKeyMap_overrides_by_key_witness :
  distinct (map fst leftIs65) = true
  /\ objGet DIRECTION_LEFT (getKeyMap (setKeyMap leftIs65 constructed))
     = Some [65]
  /\ objGet DIRECTION_RIGHT (getKeyMap (setKeyMap leftIs65 constructed))
     = Some [39]
  /\ getEventType 37 (setKeyMap leftIs65 constructed) = None.
Proof.
  assert (Hd : distinct (map fst leftIs65) = true) by reflexivity.
  assert (Hs : distinct (map fst (getKeyMap constructed)) = true) by reflexivity.
  split; [exact Hd|]. split; [|split].
  - rewrite (setKeyMap_overrides_by_key _ constructed DIRECTION_LEFT Hd Hs).
    reflexivity.
  - rewrite (setKeyMap_overrides_by_key _ constructed DIRECTION_RIGHT Hd Hs).
    reflexivity.
  - reflexivity.
Defined.

(** ** Key events *)


Lemma keyDown_mapped : forall arrow nav code svc eventType,
  paused svc = false ->
  getEventType code svc = Some eventType ->
  eventType <> "" ->
  keyDown arrow nav code svc
  = let svc0 := if debug svc then with_logIndex (S (logIndex svc)) svc else svc in
    let svc1 :=
      with_pressedKeys
        (objSet eventType (nextCount (objGet eventType (pressedKeys svc)))
           (pressedKeys svc)) svc0 in
    if (eventType =? KEY_ENTER) && truthy (currentFocusKey (engine svc))
    then Some (Normal (KeyHandling.onEnterPress svc1))
    else
      let '(answer, svc2) := KeyHandling.onArrowPress arrow eventType svc1 in
      match answer with
      | Some false => Some (Normal svc2)
      | _ => KeyHandling.onKeyEvent nav code svc2
      end.
Proof.
  intros arrow nav code svc eventType Hp He Hne. unfold keyDown. rewrite Hp.
  assert (He0 : getEventType code
                  (if debug svc then with_logIndex (S (logIndex svc)) svc else svc)
                = Some eventType).
  { destruct (debug svc); exact He. }
  cbv zeta. rewrite He0.
  destruct (String.eqb_spec eventType "") as [E|_]; [contradiction|].
  destruct (debug svc); reflexivity.
Qed.

(** X19.  A [keydown] whose code the key map lists, on a service that is
    not paused, while the focus key names no registered component (and the
    event is not an Enter on a truthy focus key): the listener counts the
    key as pressed and then throws a [TypeError], [onKeyEvent] calling
    [onNavigate] on [undefined]; no callback is invoked and the engine is
    as before. *)

Theorem keyDown_throws_when_the_focus_is_not_registered :
  forall arrow nav code svc eventType,
    paused svc = false ->
    getEventType code svc = Some eventType ->
    eventType <> "" ->
    (eventType =? KEY_ENTER) && truthy (currentFocusKey (engine svc)) = false ->
    getFocusableComponent (propertyKey (currentFocusKey (engine svc)))
      (engine svc) = None ->
    exists svc',
      keyDown arrow nav code svc = Some (TypeError svc')
      /\ engine svc' = engine svc
      /\ keyCallbacks svc' = keyCallbacks svc
      /\ objGet eventType (pressedKeys svc')
         = Some (nextCount (objGet eventType (pressedKeys svc))).
Proof.
  intros arrow nav code svc eventType Hp He Hne Henter Hfocus.
  rewrite (keyDown_mapped arrow nav code svc eventType Hp He Hne).
  cbv zeta. rewrite Henter.
  unfold KeyHandling.onArrowPress.
  assert (Hf : forall s, engine s = engine svc ->
                 getFocusableComponent (propertyKey (currentFocusKey (engine s)))
                   (engine s) = None).
  { intros s ->. exact Hfocus. }
  rewrite Hf by (destruct (debug svc); reflexivity).
  unfold KeyHandling.onKeyEvent. rewrite Hf by (destruct (debug svc); reflexivity).
  eexists. split; [reflexivity|].
  split; [destruct (debug svc); reflexivity|].
  split; [destruct (debug svc); reflexivity|].
  cbn [pressedKeys with_pressedKeys]. rewrite objGet_objSet, String.eqb_refl.
  reflexivity.
Qed.


(** An arrow key on a running service with nothing focused. *)
Lemma keyDown_throws_when_the_focus_is_not_registered_witness :
  paused (serving initialState) = false
  /\ getEventType 39 (serving initialState) = Some DIRECTION_RIGHT
  /\ getFocusableComponent (propertyKey (currentFocusKey initialState))
       initialState = None
  /\ exists svc',
       keyDown arrowPressGoesOn (smartNavigateHandler 4 4) 39
         (serving initialState) = Some (TypeError svc')
       /\ objGet DIRECTION_RIGHT (pressedKeys svc') = Some 1%nat.
Proof.
  split; [reflexivity|]. split; [reflexivity|]. split; [reflexivity|].
  destruct (keyDown_throws_when_the_focus_is_not_registered arrowPressGoesOn
              (smartNavigateHandler 4 4) 39 (serving initialState)
              DIRECTION_RIGHT eq_refl eq_refl)
    as (svc' & Hdown & _ & _ & Hcount);
    try reflexivity; try discriminate.
  exists svc'. split; [exact Hdown | exact Hcount].
Defined.


Lemma getEventType_keyMap : forall code s svc,
  keyMap s = keyMap svc -> getEventType code s = getEventType code svc.
Proof. intros code s svc H. unfold getEventType, getKeyMap. rewrite H. reflexivity. Qed.




(** X20.  Holding the Enter key on a registered, focusable focus, on a
    service without throttle that is not paused and does not yet count the
    key: [n] runs of the [keydown] listener in a row invoke [onEnterPress]
    of the focused component [n] times and nothing else, the call number
    [i] being handed the count [i] for the key; the engine is untouched.
    The [keyup] listener, run after them, returns, having cleared the count
    and invoked [onEnterRelease] once. *)





Lemma sameTree_updateAllLayouts : forall st, sameTree st (updateAllLayouts st).
Proof.
  intro st. unfold updateAllLayouts.
  generalize (map focusKey (focusableComponents st)). intro keys.
  revert st. induction keys as [|k t IH]; intro st; simpl;
    [apply sameTree_refl|].
  eapply sameTree_trans; [apply sameTree_updateLayout | apply IH].
Qed.

(** X21.  A [keydown] of a key that the key map lists under a name that is
    none of the four directions, with [smartNavigate] as [onNavigate]
    handler, on a registered focus whose parent chain ends (the service not
    paused, the event not an Enter on a truthy focus key): the listener
    returns, [onArrowPress] of the focused component was invoked, and
    whatever it answered the focus key is as before and no focus or blur
    callback was invoked. *)

Theorem keyDown_of_a_key_that_names_no_direction_keeps_the_focus :
  forall arrow climb fuel code svc eventType c,
    paused svc = false ->
    getEventType code svc = Some eventType ->
    eventType <> "" ->
    isDirection eventType = false ->
    (eventType =? KEY_ENTER) && truthy (currentFocusKey (engine svc)) = false ->
    getFocusableComponent (propertyKey (currentFocusKey (engine svc)))
      (engine svc) = Some c ->
    chainEnds climb (propertyKey (currentFocusKey (engine svc))) (engine svc)
    = true ->
    exists svc',
      keyDown arrow (smartNavigateHandler climb fuel) code svc
      = Some (Normal svc')
      /\ currentFocusKey (engine svc') = currentFocusKey (engine svc)
      /\ callbacks (engine svc') = callbacks (engine svc)
      /\ keyCallbacks svc'
         = KcArrowPress (focusKey c) eventType (pressedKeys svc')
             :: keyCallbacks svc.
Proof.
  intros arrow climb fuel code svc eventType c Hp He Hne Hd Henter Hc Hchain.
  rewrite (keyDown_mapped arrow _ code svc eventType Hp He Hne).
  cbv zeta. rewrite Henter. unfold KeyHandling.onArrowPress.
  assert (Hl : forall s, engine s = engine svc ->
                 getFocusableComponent (propertyKey (currentFocusKey (engine s)))
                   (engine s) = Some c).
  { intros s ->. exact Hc. }
  rewrite Hl by (destruct (debug svc); reflexivity).
  destruct (arrow (onArrowPress c) eventType _) eqn:Hanswer.
  - unfold KeyHandling.onKeyEvent. rewrite Hl by (destruct (debug svc); reflexivity).
    unfold smartNavigateHandler.
    assert (Hdir : getEventType code
                     (fireKey
                        (KcArrowPress (focusKey c) eventType
                           (pressedKeys
                              (with_pressedKeys
                                 (objSet eventType
                                    (nextCount (objGet eventType (pressedKeys svc)))
                                    (pressedKeys svc))
                                 (if debug svc
                                  then with_logIndex (S (logIndex svc)) svc
                                  else svc))))
                        (with_pressedKeys
                           (objSet eventType
                              (nextCount (objGet eventType (pressedKeys svc)))
                              (pressedKeys svc))
                           (if debug svc
                            then with_logIndex (S (logIndex svc)) svc
                            else svc)))
                   = Some eventType).
    { rewrite <- He. apply getEventType_keyMap. destruct (debug svc); reflexivity. }
    rewrite Hdir.
    assert (Heng : engine
                     (fireKey
                        (KcArrowPress (focusKey c) eventType
                           (pressedKeys
                              (with_pressedKeys
                                 (objSet eventType
                                    (nextCount (objGet eventType (pressedKeys svc)))
                                    (pressedKeys svc))
                                 (if debug svc
                                  then with_logIndex (S (logIndex svc)) svc
                                  else svc))))
                        (with_pressedKeys
                           (objSet eventType
                              (nextCount (objGet eventType (pressedKeys svc)))
                              (pressedKeys svc))
                           (if debug svc
                            then with_logIndex (S (logIndex svc)) svc
                            else svc)))
                   = engine svc).
    { destruct (debug svc); reflexivity. }
    rewrite Heng.
    destruct (smartNavigateWalk_no_direction climb
                (propertyKey (currentFocusKey (engine svc))) eventType
                (engine svc) Hd Hchain) as [st' Hw].
    pose proof (smartNavigateWalk_sameButLastFocusedChild _ _ _ _ _ Hw) as Hsame.
    cbn [stateOf] in Hsame. destruct Hsame as (_ & Hk & _ & _ & Hcb & _).
    unfold smartNavigate. rewrite Hw.
    pose proof (sameTree_updateAllLayouts st') as (_ & Hk2 & _ & _ & Hcb2).
    eexists. split; [reflexivity|].
    cbn [engine with_engine]. split; [congruence|]. split; [congruence|].
    destruct (debug svc); reflexivity.
  - eexists. split; [reflexivity|].
    destruct (debug svc); repeat split; reflexivity.
Qed.


(** A key "back" with code 8, pressed while "b" is focused. *)
Lemma keyDown_of_a_key_that_names_no_direction_keeps_the_focus_witness :
  let svc := setKeyMap backIs8 (serving focusOnB) in
  getEventType 8 svc = Some "back"
  /\ isDirection "back" = false
  /\ exists svc',
       keyDown arrowPressGoesOn (smartNavigateHandler 4 4) 8 svc
       = Some (Normal svc')
       /\ currentFocusKey (engine svc') = Some "b"
       /\ callbacks (engine svc') = callbacks focusOnB.
Proof.
  intro svc.
  assert (Hb : getFocusableComponent (propertyKey (currentFocusKey (engine svc)))
                 (engine svc)
               = Some (with_layout (layoutOf (mkRect 20 0 10 10 20 0)
                                      (elementAt 3 20 0 10 10))
                         (descriptor "b" "X" (elementAt 3 20 0 10 10))))
    by (vm_compute; reflexivity).
  assert (Hne : "back" <> "") by discriminate.
  split; [reflexivity|]. split; [reflexivity|].
  destruct (keyDown_of_a_key_that_names_no_direction_keeps_the_focus
              arrowPressGoesOn 4 4 8 svc "back" _
              eq_refl eq_refl Hne eq_refl eq_refl Hb)
    as (svc' & Hdown & Hk & Hcb & _); [vm_compute; reflexivity|].
  exists svc'. split; [exact Hdown|].
  split; [rewrite Hk | rewrite Hcb]; vm_compute; reflexivity.
Defined.

(** ** The listeners on [window] *)

(** X22.  [init] on a disabled service in a page without key listeners
    attaches one [keyup] and one [keydown] listener, the throttled one when
    the throttle in force is not zero (a positive integer option, or else
    the throttle the service had).  [destroy] right after detaches the
    [keyup] listener, and the [keydown] listener only if it is the plain
    one: [destroy] resets the throttle before it unbinds, so that a
    throttled listener stays attached to [window], while the service has
    dropped its own listener fields and is disabled. *)

Theorem destroy_detaches_the_plain_listener_only : forall options b,
  enabled (engine (service b)) = false ->
  keydownListeners b = [] ->
  keyupListeners b = [] ->
  let b1 := init options b in
  let b2 := destroy b1 in
  let throttled := truthyNumber (throttle (service b1)) in
  throttle (service b1)
  = (if isInteger (opt_throttle options) && (0 <? Qnum (opt_throttle options))%Z
     then opt_throttle options else throttle (service b))
  /\ keydownListeners b1
     = [if throttled then Throttled (closures b) else Plain (closures b)]
  /\ keyupListeners b1 = [closures b]
  /\ keyupListeners b2 = []
  /\ keydownListeners b2 = (if throttled then [Throttled (closures b)] else [])
  /\ keyDownEventListener (service b2) = None
  /\ keyUpEventListener (service b2) = None
  /\ enabled (engine (service b2)) = false.
Proof.
  intros options b Hen Hdown Hup. cbv zeta.
  unfold init. rewrite Hen. cbn [negb].
  unfold bindEventHandlers.
  cbn [service keydownListeners keyupListeners closures throttle engine].
  rewrite Hdown, Hup. cbn [app].
  split; [reflexivity|]. split; [reflexivity|]. split; [reflexivity|].
  unfold destroy.
  cbn [service keydownListeners keyupListeners closures throttle engine enabled].
  unfold unbindEventHandlers.
  cbn [service keydownListeners keyupListeners closures throttle engine enabled
       keyDownEventListener keyUpEventListener keyDownEventListenerThrottled].
  change (truthyNumber 0) with false. cbn [option_map].
  cbn [filter]. rewrite Nat.eqb_refl. cbn [negb].
  split; [reflexivity|]. split; [|repeat split].
  destruct (truthyNumber _); cbn [filter sameListener negb];
    [reflexivity | rewrite Nat.eqb_refl; reflexivity].
Qed.


Lemma destroy_detaches_the_plain_listener_only_witness :
  keydownListeners (destroy (init (mkOptions false 100 false) freshBrowser))
  = [Throttled 0]
  /\ keyupListeners (destroy (init (mkOptions false 100 false) freshBrowser)) = []
  /\ keydownListeners (destroy (init (mkOptions false 0 false) freshBrowser)) = [].
Proof.
  destruct (destroy_detaches_the_plain_listener_only (mkOptions false 100 false)
              freshBrowser eq_refl eq_refl eq_refl)
    as (_ & _ & _ & Hup & Hdown & _).
  destruct (destroy_detaches_the_plain_listener_only (mkOptions false 0 false)
              freshBrowser eq_refl eq_refl eq_refl)
    as (_ & _ & _ & _ & Hdown0 & _).
  split; [exact Hdown|]. split; [exact Hup | exact Hdown0].
Defined.

(** ** [setThrottle] and the listeners *)

Lemma bindEventHandlers_fields : forall b,
  let b' := bindEventHandlers b in
  engine (service b') = engine (service b)
  /\ throttle (service b') = throttle (service b)
  /\ keyupListeners b' = (keyupListeners b ++ [closures b])%list
  /\ keydownListeners b'
     = (keydownListeners b
          ++ [if truthyNumber (throttle (service b))
              then Throttled (closures b) else Plain (closures b)])%list
  /\ keyUpEventListener (service b') = Some (closures b)
  /\ keyDownEventListener (service b') = Some (closures b)
  /\ keyDownEventListenerThrottled (service b')
     = (if truthyNumber (throttle (service b)) then Some (closures b)
        else keyDownEventListenerThrottled (service b))
  /\ closures b' = S (closures b).
Proof. intro b. repeat split; reflexivity. Qed.

Lemma unbindEventHandlers_fields : forall b,
  let b' := unbindEventHandlers b in
  engine (service b') = engine (service b)
  /\ throttle (service b') = throttle (service b)
  /\ keyupListeners b'
     = match keyUpEventListener (service b) with
       | Some l => filter (fun l' => negb (Nat.eqb l l')) (keyupListeners b)
       | None => keyupListeners b
       end
  /\ keydownListeners b'
     = match (if truthyNumber (throttle (service b))
              then option_map Throttled (keyDownEventListenerThrottled (service b))
              else option_map Plain (keyDownEventListener (service b))) with
       | Some l => filter (fun l' => negb (sameListener l l')) (keydownListeners b)
       | None => keydownListeners b
       end
  /\ keyUpEventListener (service b') = None
  /\ keyDownEventListener (service b') = None
  /\ keyDownEventListenerThrottled (service b')
     = keyDownEventListenerThrottled (service b)
  /\ closures b' = closures b.
Proof. intro b. repeat split; reflexivity. Qed.

(** [init] on a disabled service, and [setThrottle], as the two steps they
    take: the fields they write, then binding, or unbinding and binding. *)
Lemma init_steps : forall options b,
  enabled (engine (service b)) = false ->
  exists b0,
    init options b = bindEventHandlers b0
    /\ enabled (engine (service b0)) = true
    /\ throttle (service b0)
       = (if isInteger (opt_throttle options)
             && (0 <? Qnum (opt_throttle options))%Z
          then opt_throttle options else throttle (service b))
    /\ keyupListeners b0 = keyupListeners b
    /\ keydownListeners b0 = keydownListeners b
    /\ keyDownEventListenerThrottled (service b0)
       = keyDownEventListenerThrottled (service b)
    /\ closures b0 = closures b.
Proof.
  intros options b Hen. unfold init. rewrite Hen. cbn [negb].
  eexists. split; [reflexivity|]. repeat split; reflexivity.
Qed.

Lemma setThrottle_steps : forall options b,
  exists b0 b1,
    setThrottle options b = bindEventHandlers b1
    /\ engine (service b0) = engine (service b)
    /\ throttle (service b0) = throttle (service b)
    /\ keyupListeners b0 = keyupListeners b
    /\ keydownListeners b0 = keydownListeners b
    /\ keyUpEventListener (service b0) = keyUpEventListener (service b)
    /\ keyDownEventListener (service b0) = keyDownEventListener (service b)
    /\ keyDownEventListenerThrottled (service b0)
       = keyDownEventListenerThrottled (service b)
    /\ closures b0 = closures b
    /\ engine (service b1) = engine (service (unbindEventHandlers b0))
    /\ throttle (service b1)
       = (if isInteger (opt_throttle options) then opt_throttle options
          else throttle (service (unbindEventHandlers b0)))
    /\ keyupListeners b1 = keyupListeners (unbindEventHandlers b0)
    /\ keydownListeners b1 = keydownListeners (unbindEventHandlers b0)
    /\ keyDownEventListenerThrottled (service b1)
       = keyDownEventListenerThrottled (service (unbindEventHandlers b0))
    /\ closures b1 = closures (unbindEventHandlers b0).
Proof.
  intros options b. unfold setThrottle. cbv zeta.
  eexists. eexists. split; [reflexivity|]. repeat split; reflexivity.
Qed.

(** X25.  [setThrottle] on a service that [init] has just enabled, in a
    page without other key listeners, replaces the listeners: afterwards
    [window] holds exactly one [keyup] and one [keydown] listener, those of
    the closures [setThrottle] created, the [keydown] one throttled exactly
    when the throttle now in force is not zero; the throttle in force is the
    option when that is an integer, and the one [init] left otherwise. *)

Theorem setThrottle_replaces_the_listeners : forall o1 o2 b,
  enabled (engine (service b)) = false ->
  keydownListeners b = [] ->
  keyupListeners b = [] ->
  let b1 := init o1 b in
  let b2 := setThrottle o2 b1 in
  throttle (service b2)
  = (if isInteger (opt_throttle o2) then opt_throttle o2
     else throttle (service b1))
  /\ keyupListeners b2 = [S (closures b)]
  /\ keydownListeners b2
     = [if truthyNumber (throttle (service b2))
        then Throttled (S (closures b)) else Plain (S (closures b))]
  /\ keyUpEventListener (service b2) = Some (S (closures b))
  /\ keyDownEventListener (service b2) = Some (S (closures b)).
Proof.
  intros o1 o2 b Hen Hdown Hup. cbv zeta.
  destruct (init_steps o1 b Hen)
    as (i0 & -> & _ & Hit & Hiu & Hid & Hitt & Hic).
  destruct (bindEventHandlers_fields i0)
    as (_ & Hbt & Hbu & Hbd & Hbku & Hbkd & Hbkt & Hbc).
  destruct (setThrottle_steps o2 (bindEventHandlers i0))
    as (s0 & s1 & -> & _ & Hst & Hsu & Hsd & Hsku & Hskd & Hskt & Hsc
        & _ & Ht1 & Hu1 & Hd1 & _ & Hc1).
  destruct (unbindEventHandlers_fields s0)
    as (_ & Hut & Huu & Hud & _ & _ & _ & Huc).
  destruct (bindEventHandlers_fields s1)
    as (_ & Hft & Hfu & Hfd & Hfku & Hfkd & _ & _).
  rewrite Hft, Hfu, Hfd, Hfku, Hfkd, Ht1, Hu1, Hd1, Hc1, Hut, Huu, Hud, Huc.
  rewrite Hst, Hsu, Hsd, Hsku, Hskd, Hskt, Hsc.
  rewrite Hbu, Hbd, Hbku, Hbkd, Hbkt, Hbc, Hbt, Hiu, Hid, Hic, Hup, Hdown.
  cbn [app filter]. rewrite Nat.eqb_refl. cbn [negb app].
  split; [reflexivity|]. split; [reflexivity|]. split; [|split; reflexivity].
  destruct (truthyNumber (throttle (service i0)));
    cbn [option_map filter sameListener]; rewrite Nat.eqb_refl;
    reflexivity.
Qed.


Lemma setThrottle_replaces_the_listeners_witness :
  keydownListeners
    (setThrottle (mkOptions false 100 false)
       (init (mkOptions false 0 false) freshBrowser))
  = [Throttled 1]
  /\ keyupListeners
       (setThrottle (mkOptions false 100 false)
          (init (mkOptions false 0 false) freshBrowser))
     = [1%nat].
Proof.
  destruct (setThrottle_replaces_the_listeners (mkOptions false 0 false)
              (mkOptions false 100 false) freshBrowser eq_refl eq_refl eq_refl)
    as (_ & Hup & Hdown & _).
  split; [exact Hdown | exact Hup].
Defined.

(** X26.  [setThrottle] does not ask whether the service is enabled: on a
    service that was constructed and never initialised, in a page without
    key listeners, it attaches a [keyup] and a [keydown] listener and
    leaves the service disabled.  An [init] after that attaches a second
    pair and keeps only the second in the fields of the service, so that
    [window] then holds two [keyup] and two [keydown] listeners. *)

Theorem setThrottle_before_init_doubles_the_listeners : forall o1 o2 b,
  enabled (engine (service b)) = false ->
  keydownListeners b = [] ->
  keyupListeners b = [] ->
  keyDownEventListener (service b) = None ->
  keyDownEventListenerThrottled (service b) = None ->
  keyUpEventListener (service b) = None ->
  let b1 := setThrottle o1 b in
  let b2 := init o2 b1 in
  enabled (engine (service b1)) = false
  /\ keyupListeners b1 = [closures b]
  /\ keydownListeners b1
     = [if truthyNumber (throttle (service b1))
        then Throttled (closures b) else Plain (closures b)]
  /\ enabled (engine (service b2)) = true
  /\ keyupListeners b2 = [closures b; S (closures b)]
  /\ keydownListeners b2
     = [if truthyNumber (throttle (service b1))
        then Throttled (closures b) else Plain (closures b);
        if truthyNumber (throttle (service b2))
        then Throttled (S (closures b)) else Plain (S (closures b))]
  /\ keyUpEventListener (service b2) = Some (S (closures b))
  /\ keyDownEventListener (service b2) = Some (S (closures b)).
Proof.
  intros o1 o2 b Hen Hdown Hup Hkd Hkt Hku. cbv zeta.
  destruct (setThrottle_steps o1 b)
    as (s0 & s1 & Hs & Hse & Hst & Hsu & Hsd & Hsku & Hskd & Hskt & Hsc
        & He1 & _ & Hu1 & Hd1 & _ & Hc1).
  destruct (unbindEventHandlers_fields s0)
    as (Hue & _ & Huu & Hud & _ & _ & _ & Huc).
  destruct (bindEventHandlers_fields s1)
    as (Hfe & Hft & Hfu & Hfd & _ & _ & _ & Hfc).
  rewrite Hsku, Hku, Hsu, Hup in Huu.
  rewrite Hskd, Hskt, Hkd, Hkt, Hsd, Hdown in Hud.
  assert (Hud' : keydownListeners (unbindEventHandlers s0) = []).
  { rewrite Hud. destruct (truthyNumber (throttle (service s0))); reflexivity. }
  assert (Huu' : keyupListeners (unbindEventHandlers s0) = []) by exact Huu.
  rewrite Hu1, Huu', Hc1, Huc, Hsc in Hfu. rewrite Hd1, Hud', Hc1, Huc, Hsc in Hfd.
  rewrite Hc1, Huc, Hsc in Hfc.
  rewrite <- Hs in Hfe, Hft, Hfu, Hfd, Hfc.
  assert (Hdis : enabled (engine (service (setThrottle o1 b))) = false).
  { rewrite Hfe, He1, Hue, Hse. exact Hen. }
  destruct (init_steps o2 (setThrottle o1 b) Hdis)
    as (i0 & -> & Hie & Hit & Hiu & Hid & _ & Hic).
  destruct (bindEventHandlers_fields i0)
    as (Hbe & Hbt & Hbu & Hbd & Hbku & Hbkd & _ & _).
  rewrite Hbe, Hbt, Hbu, Hbd, Hbku, Hbkd, Hiu, Hid, Hic, Hfu, Hfd, Hfc, Hft.
  cbn [app]. repeat split; try reflexivity; assumption.
Qed.


Lemma setThrottle_before_init_doubles_the_listeners_witness :
  enabled (engine (service (setThrottle (mkOptions false 0 false) freshBrowser)))
  = false
  /\ keydownListeners
       (init (mkOptions false 0 false)
          (setThrottle (mkOptions false 0 false) freshBrowser))
     = [Plain 0; Plain 1].
Proof.
  destruct (setThrottle_before_init_doubles_the_listeners
              (mkOptions false 0 false) (mkOptions false 0 false) freshBrowser
              eq_refl eq_refl eq_refl eq_refl eq_refl eq_refl)
    as (Hen & _ & _ & _ & _ & Hdown & _).
  split; [exact Hen | exact Hdown].
Defined.

(** ** Pausing *)

(** X27.  [pause] blocks the [keydown] listener only.  On a paused service
    without throttle, with Enter mapped and a registered, focusable focus:
    the [keydown] listener returns with the service as it was, not even
    counting the key, while the [keyup] listener still invokes
    [onEnterRelease] of the focused component. *)

Theorem pause_blocks_keydown_but_not_keyup :
  forall arrow nav code svc key c,
    truthyNumber (throttle svc) = false ->
    getEventType code svc = Some KEY_ENTER ->
    currentFocusKey (engine svc) = Some key ->
    key <> "" ->
    getFocusableComponent key (engine svc) = Some c ->
    focusable c = true ->
    keyDown arrow nav code (pause svc) = Some (Normal (pause svc))
    /\ exists released,
         keyUp code (pause svc) = Normal released
         /\ paused released = true
         /\ keyCallbacks released = KcEnterRelease key :: keyCallbacks svc.
Proof.
  intros arrow nav code svc key c Hth He Hk Hne Hc Hf.
  split; [reflexivity|].
  unfold keyUp.
  rewrite (getEventType_keyMap code (pause svc) svc eq_refl), He.
  cbn [throttle engine with_pressedKeys pause with_paused keyEq].
  rewrite Hth, String.eqb_refl, Hk. cbn [andb truthy].
  destruct (String.eqb_spec key "") as [E|_]; [contradiction|]. cbn [negb].
  unfold KeyHandling.onEnterRelease.
  cbn [engine with_pressedKeys pause with_paused].
  rewrite Hk. cbn [propertyKey]. rewrite Hc, Hf. cbn [negb].
  rewrite (lookup_focusKey _ _ _ Hc).
  eexists. split; [reflexivity|]. split; reflexivity.
Qed.


Lemma pause_blocks_keydown_but_not_keyup_witness :
  exists released,
    keyDown arrowPressGoesOn (smartNavigateHandler 4 4) 13
      (pause (serving focusOnB)) = Some (Normal (pause (serving focusOnB)))
    /\ keyUp 13 (pause (serving focusOnB)) = Normal released
    /\ keyCallbacks released = [KcEnterRelease "b"].
Proof.
  assert (Hb : getFocusableComponent "b" (engine (serving focusOnB))
               = Some (with_layout (layoutOf (mkRect 20 0 10 10 20 0)
                                      (elementAt 3 20 0 10 10))
                         (descriptor "b" "X" (elementAt 3 20 0 10 10))))
    by (vm_compute; reflexivity).
  assert (Hne : "b" <> "") by discriminate.
  destruct (pause_blocks_keydown_but_not_keyup arrowPressGoesOn
              (smartNavigateHandler 4 4) 13 (serving focusOnB) "b" _
              eq_refl eq_refl eq_refl Hne Hb eq_refl)
    as (Hdown & released & Hrel & _ & Hcb).
  exists released. split; [exact Hdown|]. split; [exact Hrel | exact Hcb].
Defined.

(** ** The refactored [focus] *)


Lemma getValidLeafFocusKey_sameTree : forall fuel target st leaf st',
  getValidLeafFocusKey fuel target st = Some (leaf, st') -> sameTree st st'.
Proof.
  induction fuel as [|fuel IH]; intros target st leaf st' H; simpl in H;
    destruct (getFocusableComponent target st) as [c|];
    try (injection H as _ <-; apply sameTree_refl);
    destruct (_ && _); try discriminate; try (eapply IH; exact H);
    destruct (_ && _); try discriminate; try (eapply IH; exact H);
    destruct (0 <? _)%nat; try (injection H as _ <-; apply sameTree_refl);
    destruct (getChildClosestToOrigin _); try discriminate.
  eapply sameTree_trans; [apply sameTree_refresh | eapply IH; exact H].
Qed.

(** The two loops that close [focus] and [setFocus] return when the parent
    chains of the new and of the previous focus end. *)
Lemma parentLoops_return : forall fuel newKey oldKey st,
  chainEnds fuel newKey st = true ->
  chainEnds fuel (propertyKey oldKey) st = true ->
  exists st',
    match updateParentsHasFocusedChild fuel newKey st with
    | None => None
    | Some st3 => updateParentsLastFocusedChild fuel oldKey st3
    end = Some st'
    /\ firesOnly (fun e => negb (isUpdateFocus e)) st st'.
Proof.
  intros fuel newKey oldKey st Hnew Hold.
  destruct (collectParents_returns fuel newKey st Hnew) as [parents Hparents].
  destruct (updateParentsHasFocusedChild fuel newKey st) as [st3|] eqn:Hupd.
  2:{ unfold updateParentsHasFocusedChild in Hupd. rewrite Hparents in Hupd.
      discriminate. }
  destruct (saveLastFocusedChain_returns fuel (propertyKey oldKey) st3)
    as [st' Hset].
  { rewrite (chainEnds_sameParents _ _ _ _
               (sameParents_updateParentsHasFocusedChild _ _ _ _ Hupd)).
    exact Hold. }
  exists st'. split; [exact Hset|].
  eapply firesOnly_trans.
  - apply (firesOnly_updateParents_others (fun e => negb (isUpdateFocus e)))
      with (fuel := fuel) (key := newKey); [|exact Hupd].
    intros e He. rewrite He. reflexivity.
  - apply (firesOnly_saveLastFocusedChain _ _ _ _ _ Hset).
Qed.

(** X23.  The refactored [focus] on a key that is not registered, on an
    enabled service (the parent chain of the current focus ending):
    [getValidLeafFocusKey] returns the current focus key, the call returns,
    the focus key is as before and no [onUpdateFocus] was invoked. *)

Theorem focus_unknown_key_is_ignored : forall fuel x st,
  enabled st = true ->
  getFocusableComponent x st = None ->
  chainEnds fuel (propertyKey (currentFocusKey st)) st = true ->
  exists st',
    focus fuel x st = Some st'
    /\ getValidLeafFocusKey fuel x st = Some (currentFocusKey st, st)
    /\ currentFocusKey st' = currentFocusKey st
    /\ firesOnly (fun e => negb (isUpdateFocus e)) st st'.
Proof.
  intros fuel x st Hen Hx Hold.
  rewrite (focus_unknown_key_keeps_focus fuel x st Hen Hx).
  destruct (parentLoops_return fuel (propertyKey (currentFocusKey st))
              (currentFocusKey st) st Hold Hold) as (st' & Hret & Hfires).
  exists st'. split; [exact Hret|].
  split; [destruct fuel; simpl; rewrite Hx; reflexivity|].
  split; [apply Hfires | exact Hfires].
Qed.


Lemma focus_unknown_key_is_ignored_witness :
  enabled focusOnB = true
  /\ getFocusableComponent "unknown-id" focusOnB = None
  /\ exists st',
       focus 4 "unknown-id" focusOnB = Some st'
       /\ currentFocusKey st' = Some "b".
Proof.
  assert (Hen : enabled focusOnB = true) by reflexivity.
  assert (Hx : getFocusableComponent "unknown-id" focusOnB = None)
    by (vm_compute; reflexivity).
  split; [exact Hen|]. split; [exact Hx|].
  destruct (focus_unknown_key_is_ignored 4 "unknown-id" focusOnB Hen Hx)
    as (st' & Hf & _ & Hk & _); [vm_compute; reflexivity|].
  exists st'. split; [exact Hf | exact Hk].
Defined.

(** X24.  The refactored [focus] on a key that resolves to the key already
    in focus, on an enabled service (the parent chain of the focus ending):
    the call returns, the focus key is as before and no [onUpdateFocus] was
    invoked, neither with [false] nor with [true]. *)

Theorem focus_on_current_focus_fires_no_focus_callback :
  forall fuel x st leaf st1,
    enabled st = true ->
    getValidLeafFocusKey fuel x st = Some (Some leaf, st1) ->
    currentFocusKey st = Some leaf ->
    chainEnds fuel leaf st = true ->
    exists st',
      focus fuel x st = Some st'
      /\ currentFocusKey st' = Some leaf
      /\ firesOnly (fun e => negb (isUpdateFocus e)) st st'.
Proof.
  intros fuel x st leaf st1 Hen Hres Hcur Hchain.
  pose proof (getValidLeafFocusKey_sameTree _ _ _ _ _ Hres) as Hsame.
  assert (Hcur1 : currentFocusKey st1 = Some leaf).
  { destruct Hsame as (_ & -> & _). exact Hcur. }
  rewrite (focus_on_resolved_current_focus fuel x st leaf st1 Hen Hres Hcur Hcur1).
  assert (Hchain1 : chainEnds fuel leaf st1 = true).
  { rewrite (chainEnds_sameParents _ _ _ _ (sameParents_sameTree _ _ Hsame)).
    exact Hchain. }
  destruct (parentLoops_return fuel leaf (Some leaf) st1 Hchain1 Hchain1)
    as (st' & Hret & Hfires).
  exists st'. split; [exact Hret|].
  pose proof (firesOnly_trans _ _ _ _
                (firesOnly_sameTree (fun e => negb (isUpdateFocus e)) _ _ Hsame)
                Hfires) as Hall.
  split; [|exact Hall]. destruct Hall as [-> _]. exact Hcur.
Qed.


Lemma focus_on_current_focus_fires_no_focus_callback_witness :
  enabled focusOnB = true
  /\ getValidLeafFocusKey 4 "b" focusOnB = Some (Some "b", focusOnB)
  /\ exists st',
       focus 4 "b" focusOnB = Some st'
       /\ currentFocusKey st' = Some "b"
       /\ callbacks st' = callbacks focusOnB.
Proof.
  assert (Hen : enabled focusOnB = true) by reflexivity.
  assert (Hres : getValidLeafFocusKey 4 "b" focusOnB = Some (Some "b", focusOnB))
    by (vm_compute; reflexivity).
  split; [exact Hen|]. split; [exact Hres|].
  destruct (focus_on_current_focus_fires_no_focus_callback 4 "b" focusOnB "b" _
              Hen Hres eq_refl)
    as (st' & Hf & Hk & _); [vm_compute; reflexivity|].
  assert (Hcomputed : focus 4 "b" focusOnB
                      = Some (orInitial (focus 4 "b" focusOnB)))
    by (vm_compute; reflexivity).
  exists st'. split; [exact Hf|]. split; [exact Hk|].
  rewrite Hcomputed in Hf. apply Some_inj in Hf. rewrite <- Hf.
  vm_compute. reflexivity.
Defined.
